(** * CompilerDemo: lexer, token reader, parser and script evaluator

    A shallow embedding of the TypeScript classes [SimpleLexer],
    [SimpleTokenReader], [SimpleParser] and [SimpleScript], with the
    properties of the front end stated and proved over it.

    Conventions of the embedding.
    - A JavaScript string is a [string] of code units below 256; a single
      character [ch] (the result of [charAt]) is an [ascii].
    - Every class is a module; an instance is a record of its fields and a
      method takes the instance and returns the updated instance next to its
      result.
    - A [throw] is the [Throw] outcome of a small state-and-exception monad;
      the mutable object the method works on survives the throw.
    - Loops whose termination depends on the token cursor take a [fuel]
      argument; [OutOfFuel] is reported apart from every JavaScript
      outcome, more fuel never changes another outcome, and fuel linear in
      the number of tokens is enough ([parse_terminates_at]). *)

From Stdlib Require Import ZArith Ascii String List Bool Lia.
From stdpp Require Import base gmap strings list fin_maps.

Local Open Scope string_scope.
Local Open Scope nat_scope.

(** ** Demo01_SimpleLexer: token kinds and automaton states *)

Module TokenType.
Inductive t : Set :=
  | Identifier
  | IntLiteral
  | GT
  | GE
  | Int
  | Assignment
  | Plus
  | Minus
  | Star
  | Slash
  | SemiColon
  | LeftParen
  | RightParen.

Definition eqb (a b : t) : bool :=
  match a, b with
  | Identifier, Identifier | IntLiteral, IntLiteral | GT, GT | GE, GE
  | Int, Int | Assignment, Assignment | Plus, Plus | Minus, Minus
  | Star, Star | Slash, Slash | SemiColon, SemiColon
  | LeftParen, LeftParen | RightParen, RightParen => true
  | _, _ => false
  end.
End TokenType.

Module DfaState.
Inductive t : Set :=
  | Initial
  | Int
  | Id_int1
  | Id_int2
  | Id_int3
  | Id
  | GT
  | GE
  | Assignment
  | Plus
  | Minus
  | Star
  | Slash
  | SemiColon
  | LeftParen
  | RightParen
  | IntLiteral.
End DfaState.

(** [SimpleToken]: the two private fields, read by [getType]/[getText] and
    written by [setType]/[setText]. *)
Module SimpleToken.
Record t : Set := mk { type : TokenType.t; text : string }.

(** [new SimpleToken()]: the field initialisers. *)
Definition new : t := {| type := TokenType.Identifier; text := "" |}.

Definition getType (this : t) : TokenType.t := type this.
Definition getText (this : t) : string := text this.
Definition setType (this : t) (ty : TokenType.t) : t :=
  {| type := ty; text := text this |}.
Definition setText (this : t) (s : string) : t :=
  {| type := type this; text := s |}.
End SimpleToken.

Abbreviation Token := SimpleToken.t.

(** ** SimpleTokenReader *)

Module SimpleTokenReader.
Record t : Set := mk { tokens : list Token; pos : nat }.

(** [new SimpleTokenReader(tokens)]. *)
Definition new (toks : list Token) : t := {| tokens := toks; pos := 0 |}.

Definition read (this : t) : option Token * t :=
  if pos this <? length (tokens this)
  then (tokens this !! pos this,
        {| tokens := tokens this; pos := S (pos this) |})
  else (None, this).

Definition peek (this : t) : option Token :=
  if pos this <? length (tokens this)
  then tokens this !! pos this
  else None.

Definition unread (this : t) : t :=
  if 0 <? pos this
  then {| tokens := tokens this; pos := pos this - 1 |}
  else this.

Definition getPosition (this : t) : nat := pos this.

(** The argument is any integer; the cursor itself never leaves the
    naturals. *)
Definition setPosition (this : t) (position : Z) : t :=
  if ((0 <=? position)%Z && (position <? Z.of_nat (length (tokens this)))%Z)%bool
  then {| tokens := tokens this; pos := Z.to_nat position |}
  else this.
End SimpleTokenReader.

(** ** SimpleLexer *)

Module SimpleLexer.
Record t : Set := mk {
  tokenText : string;
  tokens : list Token;
  token : Token
}.

(** [new SimpleLexer()]. *)
Definition new : t :=
  {| tokenText := ""; tokens := []; token := SimpleToken.new |}.

Definition isAlpha (ch : ascii) : bool :=
  (("a" <=? ch)%char && (ch <=? "z")%char) || (("A" <=? ch)%char && (ch <=? "Z")%char).

Definition isDigit (ch : ascii) : bool :=
  ("0" <=? ch)%char && (ch <=? "9")%char.

Definition isBlank (ch : ascii) : bool :=
  Ascii.eqb ch " " || Ascii.eqb ch "009" || Ascii.eqb ch "010".

(** [this.tokenText += ch]. *)
Definition append_ch (s : string) (ch : ascii) : string :=
  String.append s (String ch EmptyString).

(** The body of a branch of [initToken] that starts a token: set the kind
    of the token in progress and put [ch] in the buffer. *)
Definition start (this : t) (ty : TokenType.t) (ch : ascii) : t :=
  {| tokenText := append_ch (tokenText this) ch;
     tokens := tokens this;
     token := SimpleToken.setType (token this) ty |}.

Definition initToken (this : t) (ch : ascii) : DfaState.t * t :=
  let this :=
    if 0 <? String.length (tokenText this)
    then {| tokenText := "";
            tokens := tokens this ++ [SimpleToken.setText (token this) (tokenText this)];
            token := SimpleToken.new |}
    else this in
  if isAlpha ch then
    (if Ascii.eqb ch "i" then DfaState.Id_int1 else DfaState.Id,
     start this TokenType.Identifier ch)
  else if isDigit ch then (DfaState.IntLiteral, start this TokenType.IntLiteral ch)
  else if Ascii.eqb ch ">" then (DfaState.GT, start this TokenType.GT ch)
  else if Ascii.eqb ch "+" then (DfaState.Plus, start this TokenType.Plus ch)
  else if Ascii.eqb ch "-" then (DfaState.Minus, start this TokenType.Minus ch)
  else if Ascii.eqb ch "*" then (DfaState.Star, start this TokenType.Star ch)
  else if Ascii.eqb ch "/" then (DfaState.Slash, start this TokenType.Slash ch)
  else if Ascii.eqb ch ";" then (DfaState.SemiColon, start this TokenType.SemiColon ch)
  else if Ascii.eqb ch "(" then (DfaState.LeftParen, start this TokenType.LeftParen ch)
  else if Ascii.eqb ch ")" then (DfaState.RightParen, start this TokenType.RightParen ch)
  else if Ascii.eqb ch "=" then (DfaState.Assignment, start this TokenType.Assignment ch)
  else (DfaState.Initial, this).

(** [this.tokenText += ch] with the automaton moving to [state]. *)
Definition absorb (state : DfaState.t) (this : t) (ch : ascii) : DfaState.t * t :=
  (state,
   {| tokenText := append_ch (tokenText this) ch;
      tokens := tokens this;
      token := token this |}).

Definition retype (this : t) (ty : TokenType.t) : t :=
  {| tokenText := tokenText this;
     tokens := tokens this;
     token := SimpleToken.setType (token this) ty |}.

(** One iteration of the [for] loop of [tokenize]: the [switch (state)]. *)
Definition step (state : DfaState.t) (this : t) (ch : ascii) : DfaState.t * t :=
  match state with
  | DfaState.Initial => initToken this ch
  | DfaState.Id =>
      if isAlpha ch || isDigit ch then absorb DfaState.Id this ch
      else initToken this ch
  | DfaState.GT =>
      if Ascii.eqb ch "=" then absorb DfaState.GE (retype this TokenType.GE) ch
      else initToken this ch
  | DfaState.GE | DfaState.Assignment | DfaState.Plus | DfaState.Minus
  | DfaState.Star | DfaState.Slash | DfaState.SemiColon
  | DfaState.LeftParen | DfaState.RightParen => initToken this ch
  | DfaState.IntLiteral =>
      if isDigit ch then absorb DfaState.IntLiteral this ch
      else initToken this ch
  | DfaState.Id_int1 =>
      if Ascii.eqb ch "n" then absorb DfaState.Id_int2 this ch
      else if isDigit ch || isAlpha ch then absorb DfaState.Id this ch
      else initToken this ch
  | DfaState.Id_int2 =>
      if Ascii.eqb ch "t" then absorb DfaState.Id_int3 this ch
      else if isDigit ch || isAlpha ch then absorb DfaState.Id this ch
      else initToken this ch
  | DfaState.Id_int3 =>
      if isBlank ch then initToken (retype this TokenType.Int) ch
      else absorb DfaState.Id this ch
  | DfaState.Int => (state, this)
  end.

(** The [for] loop over the characters of [code]. *)
Fixpoint run (state : DfaState.t) (this : t) (code : list ascii) : DfaState.t * t :=
  match code with
  | [] => (state, this)
  | ch :: rest => let '(state', this') := step state this ch in run state' this' rest
  end.

(** [code.charAt(code.length - 1)], [None] standing for the empty string
    that [charAt(-1)] returns. *)
Definition lastChar (code : list ascii) : option ascii := last code.

(** [tokenize]: the three assignments that reset the instance, the loop,
    the final close-out, and the reader over [this.tokens]. *)
Definition tokenize (this : t) (code : string) : SimpleTokenReader.t * t :=
  let this := {| tokenText := ""; tokens := []; token := SimpleToken.new |} in
  let chars := list_ascii_of_string code in
  let '(_, this) := run DfaState.Initial this chars in
  let this :=
    if 0 <? String.length (tokenText this)
    then match lastChar chars with
         | Some ch => snd (initToken this ch)
         | None => this
         end
    else this in
  (SimpleTokenReader.new (tokens this), this).
End SimpleLexer.

(** ** Outcomes of a method call that can throw *)

(** What a JavaScript [throw] carries here: [new Error(message)], or the
    [TypeError] the engine raises when a method is called on
    [undefined]. *)
Inductive exn : Set :=
  | Error (message : string)
  | TypeError.

Inductive outcome (A : Type) : Type :=
  | Ret (a : A)
  | Throw (e : exn)
  | OutOfFuel.

Arguments Ret {A} a.
Arguments Throw {A} e.
Arguments OutOfFuel {A}.

(** A method over a mutable object of type [S]: the object is threaded
    through, and is kept as it stands when the method throws. *)
Definition M (S A : Type) : Type := S -> outcome A * S.

Definition ret {S A} (a : A) : M S A := fun s => (Ret a, s).
Definition throw {S A} (e : exn) : M S A := fun s => (Throw e, s).
Definition out_of_fuel {S A} : M S A := fun s => (OutOfFuel, s).
Definition bind {S A B} (c : M S A) (k : A -> M S B) : M S B :=
  fun s =>
    match c s with
    | (Ret a, s') => k a s'
    | (Throw e, s') => (Throw e, s')
    | (OutOfFuel, s') => (OutOfFuel, s')
    end.

Notation "'do' x <- c ;; k" := (bind c (fun x => k))
  (at level 10, x name, c at level 99, k at level 200, only parsing).

(** ** Demo03_SimpleParser: the AST *)

Module ASTNodeType.
Inductive t : Set :=
  | Programm
  | IntDeclaration
  | ExpressionStmt
  | AssignmentStmt
  | Primary
  | Multiplicative
  | Additive
  | Identifier
  | IntLiteral.
End ASTNodeType.

(** [SimpleASTNode]: [nodeType], [text] and the owned [children]. The
    [parent] back-reference that [addChild] sets is not read by the parser
    or the evaluator and every node is attached once, so the tree is a
    plain value. *)
#[local] Unset Elimination Schemes.
Inductive SimpleASTNode : Set :=
  | Node (nodeType : ASTNodeType.t) (text : string) (children : list SimpleASTNode).

#[local] Set Elimination Schemes.

Module ASTNode.
Definition new (ty : ASTNodeType.t) (text : string) : SimpleASTNode := Node ty text [].
Definition getType (n : SimpleASTNode) : ASTNodeType.t := let 'Node ty _ _ := n in ty.
Definition getText (n : SimpleASTNode) : string := let 'Node _ tx _ := n in tx.
Definition getChildren (n : SimpleASTNode) : list SimpleASTNode := let 'Node _ _ cs := n in cs.
Definition addChild (n child : SimpleASTNode) : SimpleASTNode :=
  let 'Node ty tx cs := n in Node ty tx (cs ++ [child]).
End ASTNode.

(** ** SimpleParser *)

Module SimpleParser.
Import SimpleToken.

Abbreviation P := (M SimpleTokenReader.t).

(** The reader's methods as commands on the shared reader object. *)
Definition peek : P (option Token) := fun r => (Ret (SimpleTokenReader.peek r), r).
Definition read : P (option Token) :=
  fun r => let '(tk, r') := SimpleTokenReader.read r in (Ret tk, r').
Definition unread : P unit := fun r => (Ret tt, SimpleTokenReader.unread r).
Definition getPosition : P nat := fun r => (Ret (SimpleTokenReader.getPosition r), r).
Definition setPosition (position : Z) : P unit :=
  fun r => (Ret tt, SimpleTokenReader.setPosition r position).

(** [token && token.getType() === ty]; also [token?.getType() === ty]. *)
Definition is_type (token : option Token) (ty : TokenType.t) : bool :=
  match token with
  | Some tk => TokenType.eqb (getType tk) ty
  | None => false
  end.

(** [token!.getText()]: a [TypeError] on [null]. *)
Definition text_of (token : option Token) : P string :=
  match token with
  | Some tk => ret (getText tk)
  | None => throw TypeError
  end.

(** [additive], [multiplicative] and [primary], with the two [while (true)]
    loops as [additive_while] and [multiplicative_while]. In both loops
    [child1] and [node] name the same object whenever the loop test is
    reached, so one accumulator is carried. The tests [if (child1)] and
    [if (child2)] are on objects that [primary] has returned, hence
    true. *)
Fixpoint additive (fuel : nat) : P SimpleASTNode :=
  match fuel with
  | 0 => out_of_fuel
  | S fuel =>
      do child1 <- multiplicative fuel ;;
      additive_while fuel child1
  end
with additive_while (fuel : nat) (child1 : SimpleASTNode) : P SimpleASTNode :=
  match fuel with
  | 0 => out_of_fuel
  | S fuel =>
      do token <- peek ;;
      if is_type token TokenType.Plus || is_type token TokenType.Minus then
        do token <- read ;;
        do child2 <- multiplicative fuel ;;
        do op <- text_of token ;;
        let node := ASTNode.new ASTNodeType.Additive op in
        let node := ASTNode.addChild node child1 in
        let node := ASTNode.addChild node child2 in
        additive_while fuel node
      else ret child1
  end
with multiplicative (fuel : nat) : P SimpleASTNode :=
  match fuel with
  | 0 => out_of_fuel
  | S fuel =>
      do child1 <- primary fuel ;;
      multiplicative_while fuel child1
  end
with multiplicative_while (fuel : nat) (child1 : SimpleASTNode) : P SimpleASTNode :=
  match fuel with
  | 0 => out_of_fuel
  | S fuel =>
      do token <- peek ;;
      if is_type token TokenType.Star || is_type token TokenType.Slash then
        do token <- read ;;
        do child2 <- multiplicative fuel ;;
        do op <- text_of token ;;
        let node := ASTNode.new ASTNodeType.Multiplicative op in
        let node := ASTNode.addChild node child1 in
        let node := ASTNode.addChild node child2 in
        multiplicative_while fuel node
      else ret child1
  end
with primary (fuel : nat) : P SimpleASTNode :=
  match fuel with
  | 0 => out_of_fuel
  | S fuel =>
      do token <- peek ;;
      do node <-
        (if is_type token TokenType.IntLiteral then
           do token <- read ;;
           do tx <- text_of token ;;
           ret (Some (ASTNode.new ASTNodeType.IntLiteral tx))
         else if is_type token TokenType.Identifier then
           do token <- read ;;
           do tx <- text_of token ;;
           ret (Some (ASTNode.new ASTNodeType.Identifier tx))
         else if is_type token TokenType.LeftParen then
           do _ <- read ;;
           do node <- additive fuel ;;
           do token <- peek ;;
           if is_type token TokenType.RightParen then
             do _ <- read ;; ret (Some node)
           else throw (Error "expecting right parenthesis")
         else ret None) ;;
      match node with
      | Some node => ret node
      | None => throw (Error "primary expression expected")
      end
  end.

Definition expressionStatement (fuel : nat) : P (option SimpleASTNode) :=
  do pos <- getPosition ;;
  do node <- additive fuel ;;
  do token <- peek ;;
  if is_type token TokenType.SemiColon then
    do _ <- read ;; ret (Some node)
  else
    do _ <- setPosition (Z.of_nat pos) ;; ret None.

Definition assignmentStatement (fuel : nat) : P (option SimpleASTNode) :=
  do token <- peek ;;
  if is_type token TokenType.Identifier then
    do token <- read ;;
    do tx <- text_of token ;;
    let node := ASTNode.new ASTNodeType.AssignmentStmt tx in
    do token <- peek ;;
    if is_type token TokenType.Assignment then
      do _ <- read ;;
      do child <- additive fuel ;;
      let node := ASTNode.addChild node child in
      do token <- peek ;;
      if is_type token TokenType.SemiColon then
        do _ <- read ;; ret (Some node)
      else throw (Error "invalid statement, expecting semicolon")
    else
      do _ <- unread ;; ret None
  else ret None.

Definition intDeclare (fuel : nat) : P (option SimpleASTNode) :=
  do token <- peek ;;
  if is_type token TokenType.Int then
    do _ <- read ;;
    do token <- peek ;;
    if is_type token TokenType.Identifier then
      do token <- read ;;
      do tx <- text_of token ;;
      let node := ASTNode.new ASTNodeType.IntDeclaration tx in
      do token <- peek ;;
      do node <-
        (if is_type token TokenType.Assignment then
           do _ <- read ;;
           do child <- additive fuel ;;
           ret (ASTNode.addChild node child)
         else ret node) ;;
      do token <- peek ;;
      if is_type token TokenType.SemiColon then
        do _ <- read ;; ret (Some node)
      else throw (Error "invalid statement, expecting semicolon")
    else throw (Error "variable name expected")
  else ret None.

(** The [while (tokens.peek())] loop of [prog], [node] being the
    [Programm] node under construction. *)
Fixpoint prog_while (fuel : nat) (node : SimpleASTNode) : P SimpleASTNode :=
  match fuel with
  | 0 => out_of_fuel
  | S fuel =>
      do token <- peek ;;
      match token with
      | None => ret node
      | Some _ =>
          do child <- intDeclare fuel ;;
          do child <- match child with
                   | None => expressionStatement fuel
                   | Some _ => ret child
                   end ;;
          do child <- match child with
                   | None => assignmentStatement fuel
                   | Some _ => ret child
                   end ;;
          match child with
          | Some child => prog_while fuel (ASTNode.addChild node child)
          | None => throw (Error "unknown statement")
          end
      end
  end.

Definition prog (fuel : nat) : P SimpleASTNode :=
  prog_while fuel (ASTNode.new ASTNodeType.Programm "demo").

(** [parse]: a fresh lexer, its token reader, then [prog]. *)
Definition parse (fuel : nat) (code : string) : outcome SimpleASTNode :=
  let lexer := SimpleLexer.new in
  let tokens := fst (SimpleLexer.tokenize lexer code) in
  fst (prog fuel tokens).
End SimpleParser.

(** ** JavaScript numbers, as far as the evaluator produces them *)

(** The values of type [number] that integer literals and [+ - * /] with
    [Math.floor] can produce: the integers, the negative zero, the two
    infinities and NaN. [Finite 0] is the positive zero. A double holds every
    integer of magnitude up to 2^53 exactly, and on such operands [+], [-],
    [*] and [Math.floor] of [/] give the exact integer result as long as it
    stays in that range; the embedding computes on unbounded integers, so it
    is the program up to that range. *)
Module JSNumber.
Inductive t : Set :=
  | Finite (z : Z)
  | NegZero
  | Infinity
  | NegInfinity
  | NaN.

Definition zero (negative : bool) : t := if negative then NegZero else Finite 0.
Definition inf (negative : bool) : t := if negative then NegInfinity else Infinity.

Definition sign_bit (x : t) : bool :=
  match x with
  | Finite z => (z <? 0)%Z
  | NegZero | NegInfinity => true
  | Infinity | NaN => false
  end.

Definition is_zero (x : t) : bool :=
  match x with
  | Finite z => (z =? 0)%Z
  | NegZero => true
  | _ => false
  end.

Definition is_inf (x : t) : bool :=
  match x with
  | Infinity | NegInfinity => true
  | _ => false
  end.

Definition is_nan (x : t) : bool :=
  match x with
  | NaN => true
  | _ => false
  end.


Definition magnitude (x : t) : Z :=
  match x with
  | Finite z => z
  | _ => 0%Z
  end.

Definition neg (x : t) : t :=
  match x with
  | Finite z => if (z =? 0)%Z then NegZero else Finite (- z)
  | NegZero => Finite 0
  | Infinity => NegInfinity
  | NegInfinity => Infinity
  | NaN => NaN
  end.

(** [x + y] on numbers. *)
Definition add (x y : t) : t :=
  match x, y with
  | NaN, _ | _, NaN => NaN
  | Infinity, NegInfinity | NegInfinity, Infinity => NaN
  | Infinity, _ | _, Infinity => Infinity
  | NegInfinity, _ | _, NegInfinity => NegInfinity
  | NegZero, NegZero => NegZero
  | NegZero, Finite b => Finite b
  | Finite a, NegZero => Finite a
  | Finite a, Finite b => Finite (a + b)
  end.

(** [x - y]. *)
Definition sub (x y : t) : t := add x (neg y).

(** [x * y]. *)
Definition mul (x y : t) : t :=
  let s := xorb (sign_bit x) (sign_bit y) in
  if is_nan x || is_nan y then NaN
  else if is_inf x || is_inf y then
    (if is_zero x || is_zero y then NaN else inf s)
  else if is_zero x || is_zero y then zero s
  else Finite (magnitude x * magnitude y).

(** [Math.floor(x / y)]. The quotient of two non-zero integers is floored,
    which is [Z.div]; every other case is a zero, an infinity or NaN, which
    [Math.floor] returns as it is. *)
Definition floor_div (x y : t) : t :=
  let s := xorb (sign_bit x) (sign_bit y) in
  if is_nan x || is_nan y then NaN
  else if is_inf x then (if is_inf y then NaN else inf s)
  else if is_inf y then zero s
  else if is_zero y then (if is_zero x then NaN else inf s)
  else if is_zero x then zero s
  else Finite (magnitude x / magnitude y).

(** The integers that a double holds exactly, next to their neighbours. *)
Definition safe_integer (z : Z) : bool := (Z.abs z <=? 2 ^ 53)%Z.

(** ToBoolean on a number: [0], [-0] and [NaN] are falsy. *)
Definition truthy (x : t) : bool := negb (is_zero x || is_nan x).

(** ToNumber on [number | null]: [null] is [+0]. *)
Definition of_value (v : option t) : t :=
  match v with
  | Some x => x
  | None => Finite 0
  end.

(** The white space that [parseInt] skips, among the code units below
    256: TAB, LF, VT, FF, CR, SP and NBSP. *)
Definition isStrWhiteSpaceChar (ch : ascii) : bool :=
  let n := nat_of_ascii ch in
  ((9 <=? n) && (n <=? 13)) || (n =? 32) || (n =? 160).

Fixpoint trimStart (s : string) : string :=
  match s with
  | String ch rest => if isStrWhiteSpaceChar ch then trimStart rest else s
  | EmptyString => s
  end.

Definition digit_value (ch : ascii) : option Z :=
  let n := nat_of_ascii ch in
  if (48 <=? n) && (n <=? 57) then Some (Z.of_nat (n - 48)) else None.

(** The longest prefix of decimal digits of [s], read in base 10 on top
    of [acc]; [None] when [acc] is [None] and [s] starts with no digit. *)
Fixpoint digits (acc : option Z) (s : string) : option Z :=
  match s with
  | String ch rest =>
      match digit_value ch with
      | Some d => digits (Some (10 * default 0%Z acc + d)%Z) rest
      | None => acc
      end
  | EmptyString => acc
  end.

(** [parseInt(text, 10)]. *)
Definition parseInt (text : string) : t :=
  let s := trimStart text in
  let '(negative, s) :=
    match s with
    | String "-" rest => (true, rest)
    | String "+" rest => (false, rest)
    | _ => (false, s)
    end in
  match digits None s with
  | None => NaN
  | Some n => if negative then neg (Finite n) else Finite n
  end.
End JSNumber.

Abbreviation value := (option JSNumber.t).

(** ** SimpleScript: the evaluator *)

Module SimpleScript.
Import JSNumber.

(** A line written by [console.log] at the top level: the
    [`${name}: ${result}`] of a declaration or an assignment, or the bare
    [result] of another statement. The text that the engine prints for a
    number is not modelled. *)
Inductive line : Set :=
  | Binding (name : string) (result : value)
  | Result (result : value).

(** The instance: the [variables] map and the console it writes to. *)
Record t : Type := mk {
  variables : gmap string value;
  console : list line
}.

Definition new : t := {| variables := ∅; console := [] |}.

Abbreviation E := (M t).

Definition has (varName : string) : E bool :=
  fun this => (Ret (bool_decide (is_Some (variables this !! varName))), this).

(** [this.variables.get(varName) || null]: [undefined], [null] and the
    falsy numbers all give [null]. *)
Definition get_or_null (varName : string) : E value :=
  fun this =>
    (Ret match variables this !! varName with
         | Some (Some x) => if truthy x then Some x else None
         | Some None | None => None
         end,
     this).

Definition set (varName : string) (v : value) : E unit :=
  fun this =>
    (Ret tt, {| variables := <[varName := v]> (variables this); console := console this |}).

Definition log (l : line) : E unit :=
  fun this =>
    (Ret tt, {| variables := variables this; console := console this ++ [l] |}).

Definition tab : string := String "009" EmptyString.

(** [`variable ${varName} has not been set any value`] and
    [`unknown variable: ${varName}`]. *)
Definition unset_message (varName : string) : exn :=
  Error (String.append "variable " (String.append varName " has not been set any value")).

Definition unknown_message (varName : string) : exn :=
  Error (String.append "unknown variable: " varName).

(** The [if (indent === '')] block that ends [evaluate]. *)
Definition report (ty : ASTNodeType.t) (text indent : string) (result : value) : E unit :=
  if String.eqb indent "" then
    match ty with
    | ASTNodeType.IntDeclaration | ASTNodeType.AssignmentStmt => log (Binding text result)
    | ASTNodeType.Programm => ret tt
    | _ => log (Result result)
    end
  else ret tt.

(** [evaluate(node, indent)]. [getChildren()[i]] beyond the last child is
    [undefined], and evaluating it throws a [TypeError] at
    [node.getType()]. *)
Fixpoint evaluate (node : SimpleASTNode) (indent : string) {struct node} : E value :=
  let 'Node ty text children := node in
  do result <-
    match ty with
    | ASTNodeType.Programm =>
        (fix each (children : list SimpleASTNode) (result : value) {struct children} : E value :=
           match children with
           | [] => ret result
           | child :: rest => do result <- evaluate child indent ;; each rest result
           end) children None
    | ASTNodeType.Additive =>
        match children with
        | [] => throw TypeError
        | child1 :: rest =>
            do value1 <- evaluate child1 (String.append indent tab) ;;
            match rest with
            | [] => throw TypeError
            | child2 :: _ =>
                do value2 <- evaluate child2 (String.append indent tab) ;;
                if String.eqb text "+"
                then ret (Some (add (of_value value1) (of_value value2)))
                else ret (Some (sub (of_value value1) (of_value value2)))
            end
        end
    | ASTNodeType.Multiplicative =>
        match children with
        | [] => throw TypeError
        | child3 :: rest =>
            do value3 <- evaluate child3 (String.append indent tab) ;;
            match rest with
            | [] => throw TypeError
            | child4 :: _ =>
                do value4 <- evaluate child4 (String.append indent tab) ;;
                if String.eqb text "*"
                then ret (Some (mul (of_value value3) (of_value value4)))
                else ret (Some (floor_div (of_value value3) (of_value value4)))
            end
        end
    | ASTNodeType.IntLiteral => ret (Some (parseInt text))
    | ASTNodeType.Identifier =>
        do known <- has text ;;
        if known then
          do v <- get_or_null text ;;
          match v with
          | Some _ => ret v
          | None => throw (unset_message text)
          end
        else throw (unknown_message text)
    | ASTNodeType.AssignmentStmt | ASTNodeType.IntDeclaration =>
        do _ <-
          match ty with
          | ASTNodeType.AssignmentStmt =>
              do known <- has text ;;
              if known then ret tt
              else throw (unknown_message text)
          | _ => ret tt
          end ;;
        match children with
        | child :: _ =>
            do result <- evaluate child (String.append indent tab) ;;
            do _ <- set text result ;;
            ret result
        | [] =>
            do _ <- set text None ;;
            ret None
        end
    | ASTNodeType.ExpressionStmt | ASTNodeType.Primary => ret None
    end ;;
  do _ <- report ty text indent result ;;
  ret result.
End SimpleScript.

(** [parser.parse(code)] followed by [script.evaluate(tree, '')] on a
    [SimpleScript] instance. *)
Definition run_script (fuel : nat) (script : SimpleScript.t) (code : string)
  : outcome value * SimpleScript.t :=
  match SimpleParser.parse fuel code with
  | Ret tree => SimpleScript.evaluate tree "" script
  | Throw e => (Throw e, script)
  | OutOfFuel => (OutOfFuel, script)
  end.

Definition kinds_texts (r : SimpleTokenReader.t) : list (TokenType.t * string) :=
  map (fun tk => (SimpleToken.getType tk, SimpleToken.getText tk))
      (SimpleTokenReader.tokens r).

(** The characters that [initToken] starts a token on; every other
    character falls to its last branch. *)
Definition recognized (ch : ascii) : bool :=
  SimpleLexer.isAlpha ch || SimpleLexer.isDigit ch
  || Ascii.eqb ch ">" || Ascii.eqb ch "+" || Ascii.eqb ch "-"
  || Ascii.eqb ch "*" || Ascii.eqb ch "/" || Ascii.eqb ch ";"
  || Ascii.eqb ch "(" || Ascii.eqb ch ")" || Ascii.eqb ch "=".

(** The identifier pattern [[A-Za-z][A-Za-z0-9]*]. *)
Definition identifier_text (s : string) : bool :=
  match list_ascii_of_string s with
  | [] => false
  | ch :: rest =>
      SimpleLexer.isAlpha ch
      && forallb (fun c => SimpleLexer.isAlpha c || SimpleLexer.isDigit c) rest
  end.

(** [x] is [y], unless [x] ran out of fuel. *)
Definition refines {S A} (x y : outcome A * S) : Prop :=
  fst x = OutOfFuel \/ x = y.

(** A command that returns only from a reader with a token under the
    cursor, and leaves the token list as it is. *)
Definition parses_inside {A} (c : SimpleParser.P A) : Prop :=
  forall r x r', c r = (Ret x, r') ->
    SimpleTokenReader.tokens r' = SimpleTokenReader.tokens r
    /\ SimpleTokenReader.pos r < length (SimpleTokenReader.tokens r).

Definition keeps_tokens {A} (c : SimpleParser.P A) : Prop :=
  forall r x r', c r = (Ret x, r') ->
    SimpleTokenReader.tokens r' = SimpleTokenReader.tokens r.

(** The tokens that [primary] turns into a leaf, the leaf, and the
    operators of [multiplicative]. *)
Definition operand (tk : Token) : bool :=
  TokenType.eqb (SimpleToken.getType tk) TokenType.IntLiteral
  || TokenType.eqb (SimpleToken.getType tk) TokenType.Identifier.

Definition leaf (tk : Token) : SimpleASTNode :=
  Node (if TokenType.eqb (SimpleToken.getType tk) TokenType.IntLiteral
        then ASTNodeType.IntLiteral else ASTNodeType.Identifier)
       (SimpleToken.getText tk) [].

Definition mul_op (tk : Token) : bool :=
  TokenType.eqb (SimpleToken.getType tk) TokenType.Star
  || TokenType.eqb (SimpleToken.getType tk) TokenType.Slash.

Definition binary (ty : ASTNodeType.t) (op : Token) (l r : SimpleASTNode) : SimpleASTNode :=
  Node ty (SimpleToken.getText op) [l; r].

(** Readers used as concrete inputs. *)
Definition two_tokens : SimpleTokenReader.t :=
  {| SimpleTokenReader.tokens :=
       [SimpleToken.mk TokenType.Identifier "a"; SimpleToken.mk TokenType.SemiColon ";"];
     SimpleTokenReader.pos := 1 |}.

Definition a_eq_3 : SimpleTokenReader.t :=
  fst (SimpleLexer.tokenize SimpleLexer.new "a = 3;").

Definition eight_four_two : SimpleTokenReader.t :=
  fst (SimpleLexer.tokenize SimpleLexer.new "8/4/2").

(** A fresh reader over [a op1 b op2 c] followed by [rest]. *)
Definition mul3 (a op1 b op2 c : Token) (rest : list Token) : SimpleTokenReader.t :=
  SimpleTokenReader.new ([a; op1; b; op2; c] ++ rest).

(** [post c s Q]: from [s] the command [c] does not run out of fuel, and
    if it returns, [Q] holds of the result and the state it leaves; a throw
    is accepted. *)
Definition post {S A} (c : M S A) (s : S) (Q : A -> S -> Prop) : Prop :=
  match c s with
  | (Ret a, s') => Q a s'
  | (Throw _, _) => True
  | (OutOfFuel, _) => False
  end.

(** The number of tokens from the cursor to the end. *)
Definition remaining (r : SimpleTokenReader.t) : nat :=
  length (SimpleTokenReader.tokens r) - SimpleTokenReader.pos r.

(** The reader [r'] has the tokens of [r] and a cursor further on. *)
Definition advanced {A} (r : SimpleTokenReader.t) : A -> SimpleTokenReader.t -> Prop :=
  fun _ r' =>
    SimpleTokenReader.tokens r' = SimpleTokenReader.tokens r
    /\ SimpleTokenReader.pos r < SimpleTokenReader.pos r'.

(** The reader [r'] has the tokens of [r] and a cursor not before that
    of [r]. *)
Definition kept {A} (r : SimpleTokenReader.t) : A -> SimpleTokenReader.t -> Prop :=
  fun _ r' =>
    SimpleTokenReader.tokens r' = SimpleTokenReader.tokens r
    /\ SimpleTokenReader.pos r <= SimpleTokenReader.pos r'.

(** Fuel that is enough for the expression rules on a reader with at
    most [n] tokens left. *)
Definition terminates_at (n : nat) : Prop :=
  forall r, remaining r <= n ->
    post (SimpleParser.additive (3 * n + 3)) r (advanced r)
    /\ (forall c, post (SimpleParser.additive_while (3 * n + 1) c) r (kept r))
    /\ post (SimpleParser.multiplicative (3 * n + 2)) r (advanced r)
    /\ (forall c, post (SimpleParser.multiplicative_while (3 * n + 1) c) r (kept r))
    /\ post (SimpleParser.primary (3 * n + 1)) r (advanced r).

(** What a statement rule leaves behind when it returns: the token list,
    and a cursor that has moved on if a statement was recognised and has not
    moved back otherwise. *)
Definition statement_done (r : SimpleTokenReader.t)
    (child : option SimpleASTNode) (r' : SimpleTokenReader.t) : Prop :=
  SimpleTokenReader.tokens r' = SimpleTokenReader.tokens r
  /\ match child with
     | Some _ => SimpleTokenReader.pos r < SimpleTokenReader.pos r'
     | None => SimpleTokenReader.pos r <= SimpleTokenReader.pos r'
     end.

(** ** More of the code: shapes, dumps and tree predicates *)

(** The text that a token of each kind can carry: digits for a literal,
    a leading letter for an identifier, and the one spelling of every
    keyword and operator. *)
Definition all_digits (s : string) : bool :=
  forallb SimpleLexer.isDigit (list_ascii_of_string s).

Definition token_shape (tk : Token) : bool :=
  match SimpleToken.getType tk with
  | TokenType.Identifier =>
      match list_ascii_of_string (SimpleToken.getText tk) with
      | ch :: _ => SimpleLexer.isAlpha ch
      | [] => false
      end
  | TokenType.IntLiteral =>
      negb (String.eqb (SimpleToken.getText tk) "") && all_digits (SimpleToken.getText tk)
  | TokenType.GT => String.eqb (SimpleToken.getText tk) ">"
  | TokenType.GE => String.eqb (SimpleToken.getText tk) ">="
  | TokenType.Int => String.eqb (SimpleToken.getText tk) "int"
  | TokenType.Assignment => String.eqb (SimpleToken.getText tk) "="
  | TokenType.Plus => String.eqb (SimpleToken.getText tk) "+"
  | TokenType.Minus => String.eqb (SimpleToken.getText tk) "-"
  | TokenType.Star => String.eqb (SimpleToken.getText tk) "*"
  | TokenType.Slash => String.eqb (SimpleToken.getText tk) "/"
  | TokenType.SemiColon => String.eqb (SimpleToken.getText tk) ";"
  | TokenType.LeftParen => String.eqb (SimpleToken.getText tk) "("
  | TokenType.RightParen => String.eqb (SimpleToken.getText tk) ")"
  end.

(** The token in progress as it would be pushed now. *)
Definition pending (this : SimpleLexer.t) : Token :=
  SimpleToken.setText (SimpleLexer.token this) (SimpleLexer.tokenText this).

(** What holds of the lexer instance in each state of the automaton. *)
Definition lexer_inv (state : DfaState.t) (this : SimpleLexer.t) : Prop :=
  Forall (fun tk => token_shape tk = true) (SimpleLexer.tokens this)
  /\ match state with
     | DfaState.Initial => SimpleLexer.tokenText this = ""
     | DfaState.Int => False
     | DfaState.Id_int1 => pending this = SimpleToken.mk TokenType.Identifier "i"
     | DfaState.Id_int2 => pending this = SimpleToken.mk TokenType.Identifier "in"
     | DfaState.Id_int3 => pending this = SimpleToken.mk TokenType.Identifier "int"
     | DfaState.Id =>
         SimpleToken.getType (pending this) = TokenType.Identifier
         /\ token_shape (pending this) = true
     | DfaState.IntLiteral =>
         SimpleToken.getType (pending this) = TokenType.IntLiteral
         /\ token_shape (pending this) = true
     | DfaState.GT => pending this = SimpleToken.mk TokenType.GT ">"
     | DfaState.GE => pending this = SimpleToken.mk TokenType.GE ">="
     | DfaState.Assignment => pending this = SimpleToken.mk TokenType.Assignment "="
     | DfaState.Plus => pending this = SimpleToken.mk TokenType.Plus "+"
     | DfaState.Minus => pending this = SimpleToken.mk TokenType.Minus "-"
     | DfaState.Star => pending this = SimpleToken.mk TokenType.Star "*"
     | DfaState.Slash => pending this = SimpleToken.mk TokenType.Slash "/"
     | DfaState.SemiColon => pending this = SimpleToken.mk TokenType.SemiColon ";"
     | DfaState.LeftParen => pending this = SimpleToken.mk TokenType.LeftParen "("
     | DfaState.RightParen => pending this = SimpleToken.mk TokenType.RightParen ")"
     end.

(** The characters the instance holds: the texts of the tokens, then the
    buffer. *)
Definition held (this : SimpleLexer.t) : list ascii :=
  concat (map (fun tk => list_ascii_of_string (SimpleToken.getText tk))
              (SimpleLexer.tokens this))
  ++ list_ascii_of_string (SimpleLexer.tokenText this).

Definition token_chars (r : SimpleTokenReader.t) : list ascii :=
  concat (map (fun tk => list_ascii_of_string (SimpleToken.getText tk))
              (SimpleTokenReader.tokens r)).

(** What one step of the automaton does to the characters held: none is
    lost, the recognised ones come in, and no blank does. *)
Definition held_step (this : SimpleLexer.t) (ch : ascii)
    (next : DfaState.t * SimpleLexer.t) : Prop :=
  fst next <> DfaState.Int
  /\ List.filter recognized (held (snd next))
     = (List.filter recognized (held this) ++ List.filter recognized [ch])%list
  /\ (Forall (fun c => SimpleLexer.isBlank c = false) (held this) ->
      Forall (fun c => SimpleLexer.isBlank c = false) (held (snd next))).


(** Tokens that continue an expression: [+] or [-], and [*] or [/]. *)
Definition add_op (tk : Token) : bool :=
  TokenType.eqb (SimpleToken.getType tk) TokenType.Plus
  || TokenType.eqb (SimpleToken.getType tk) TokenType.Minus.

Definition no_add_op (token : option Token) : Prop :=
  SimpleParser.is_type token TokenType.Plus
  || SimpleParser.is_type token TokenType.Minus = false.

Definition no_mul_op (token : option Token) : Prop :=
  SimpleParser.is_type token TokenType.Star
  || SimpleParser.is_type token TokenType.Slash = false.

(** [r'] is [r] after at least one token was consumed, the cursor still
    inside or just past the token list. *)
Definition moved_on (r r' : SimpleTokenReader.t) : Prop :=
  SimpleTokenReader.tokens r' = SimpleTokenReader.tokens r
  /\ SimpleTokenReader.pos r < SimpleTokenReader.pos r'
  /\ SimpleTokenReader.pos r' <= length (SimpleTokenReader.tokens r).

(** [r'] is [r] after any number of tokens was consumed. *)
Definition moved_or_not (r r' : SimpleTokenReader.t) : Prop :=
  SimpleTokenReader.tokens r' = SimpleTokenReader.tokens r
  /\ SimpleTokenReader.pos r <= SimpleTokenReader.pos r'
  /\ (SimpleTokenReader.pos r <= length (SimpleTokenReader.tokens r) ->
      SimpleTokenReader.pos r' <= length (SimpleTokenReader.tokens r)).

(** The token list [a0 op1 a1 ... opn an]: an operand and the
    operator-operand pairs that follow it; and the tree that folds the pairs
    onto an accumulator from the left. *)
Definition chain (pairs : list (Token * Token)) : list Token :=
  flat_map (fun p => [fst p; snd p]) pairs.

Definition fold_pairs (ty : ASTNodeType.t) (pairs : list (Token * Token))
    (acc : SimpleASTNode) : SimpleASTNode :=
  fold_left (fun acc p => binary ty (fst p) acc (leaf (snd p))) pairs acc.

(** The reader [r] with its cursor moved forward by [n]. *)
Definition skip (n : nat) (r : SimpleTokenReader.t) : SimpleTokenReader.t :=
  {| SimpleTokenReader.tokens := SimpleTokenReader.tokens r;
     SimpleTokenReader.pos := n + SimpleTokenReader.pos r |}.

(** The tokens from the cursor on. *)
Definition ahead (r : SimpleTokenReader.t) : list Token :=
  drop (SimpleTokenReader.pos r) (SimpleTokenReader.tokens r).

(** The trees the parser builds. An expression is a literal or identifier
    leaf, or an Additive or Multiplicative node over exactly two
    expressions; a statement is an expression, a declaration with at most
    one initialiser, or an assignment with its right-hand side; a program is
    the root over its statements. *)
Inductive expr_node : SimpleASTNode -> Prop :=
  | expr_literal text : expr_node (Node ASTNodeType.IntLiteral text [])
  | expr_identifier text : expr_node (Node ASTNodeType.Identifier text [])
  | expr_additive text l r :
      expr_node l -> expr_node r -> expr_node (Node ASTNodeType.Additive text [l; r])
  | expr_multiplicative text l r :
      expr_node l -> expr_node r -> expr_node (Node ASTNodeType.Multiplicative text [l; r]).

Inductive statement_node : SimpleASTNode -> Prop :=
  | stmt_expression e : expr_node e -> statement_node e
  | stmt_declaration name : statement_node (Node ASTNodeType.IntDeclaration name [])
  | stmt_initialised name e :
      expr_node e -> statement_node (Node ASTNodeType.IntDeclaration name [e])
  | stmt_assignment name e :
      expr_node e -> statement_node (Node ASTNodeType.AssignmentStmt name [e]).

Definition program_node (n : SimpleASTNode) : Prop :=
  exists children,
    n = Node ASTNodeType.Programm "demo" children /\ Forall statement_node children.

(** The errors that [parse] throws. *)
Definition parse_error (e : exn) : Prop :=
  In e [Error "primary expression expected";
        Error "expecting right parenthesis";
        Error "invalid statement, expecting semicolon";
        Error "variable name expected";
        Error "unknown statement"].

(** [wp c s Q E]: if [c] returns from [s], [Q] holds of the result and
    the state; if it throws, [E] holds of what is thrown. *)
Definition wp {S A} (c : M S A) (s : S) (Q : A -> S -> Prop) (E : exn -> Prop) : Prop :=
  match c s with
  | (Ret a, s') => Q a s'
  | (Throw e, _) => E e
  | (OutOfFuel, _) => True
  end.

Definition statement_or_null (child : option SimpleASTNode) : Prop :=
  match child with
  | Some n => statement_node n
  | None => True
  end.

Definition expr_out (x : SimpleASTNode) (_ : SimpleTokenReader.t) : Prop := expr_node x.


Definition statement_out (child : option SimpleASTNode) (_ : SimpleTokenReader.t) : Prop :=
  statement_or_null child.

Definition program_out (x : SimpleASTNode) (_ : SimpleTokenReader.t) : Prop :=
  program_node x.

(** The instance after [console.log(l)] at the top level, and as it is
    below. *)
Definition print (indent : string) (l : SimpleScript.line) (this : SimpleScript.t)
  : SimpleScript.t :=
  if String.eqb indent ""
  then {| SimpleScript.variables := SimpleScript.variables this;
          SimpleScript.console := SimpleScript.console this ++ [l] |}
  else this.

(** The instance after [this.variables.set(name, v)]. *)
Definition bound (name : string) (v : value) (this : SimpleScript.t) : SimpleScript.t :=
  {| SimpleScript.variables := <[name := v]> (SimpleScript.variables this);
     SimpleScript.console := SimpleScript.console this |}.

(** The [for] loop of the [Programm] case: the children in order, each
    result replacing the one before. *)
Fixpoint evaluate_all (indent : string) (children : list SimpleASTNode) (result : value)
  : SimpleScript.E value :=
  match children with
  | [] => ret result
  | child :: rest =>
      do result <- SimpleScript.evaluate child indent ;; evaluate_all indent rest result
  end.

(** [wpe c s Q E]: [c] returns from [s] with [Q], or throws with [E] of
    the error and the state it leaves. *)
Definition wpe {S A} (c : M S A) (s : S) (Q : A -> S -> Prop) (E : exn -> S -> Prop) : Prop :=
  match c s with
  | (Ret a, s') => Q a s'
  | (Throw e, s') => E e s'
  | (OutOfFuel, _) => False
  end.

(** An expression has returned a number and printed it (at the top
    level); or it has thrown an [Error] and left the instance alone. *)
Definition number_printed (indent : string) (this : SimpleScript.t)
    (v : value) (this' : SimpleScript.t) : Prop :=
  exists x, v = Some x /\ this' = print indent (SimpleScript.Result v) this.

Definition error_untouched (this : SimpleScript.t) (e : exn) (this' : SimpleScript.t) : Prop :=
  (exists message, e = Error message) /\ this' = this.

Definition is_error (e : exn) : Prop := exists message, e = Error message.

(** ** The two dumps *)

(** [TokenType[type]]: the name of a member of the numeric enum. *)
Definition token_type_name (ty : TokenType.t) : string :=
  match ty with
  | TokenType.Identifier => "Identifier"
  | TokenType.IntLiteral => "IntLiteral"
  | TokenType.GT => "GT"
  | TokenType.GE => "GE"
  | TokenType.Int => "Int"
  | TokenType.Assignment => "Assignment"
  | TokenType.Plus => "Plus"
  | TokenType.Minus => "Minus"
  | TokenType.Star => "Star"
  | TokenType.Slash => "Slash"
  | TokenType.SemiColon => "SemiColon"
  | TokenType.LeftParen => "LeftParen"
  | TokenType.RightParen => "RightParen"
  end.

(** The value of a member of the string enum [ASTNodeType]. *)
Definition node_type_name (ty : ASTNodeType.t) : string :=
  match ty with
  | ASTNodeType.Programm => "Programm"
  | ASTNodeType.IntDeclaration => "IntDeclaration"
  | ASTNodeType.ExpressionStmt => "ExpressionStmt"
  | ASTNodeType.AssignmentStmt => "AssignmentStmt"
  | ASTNodeType.Primary => "Primary"
  | ASTNodeType.Multiplicative => "Multiplicative"
  | ASTNodeType.Additive => "Additive"
  | ASTNodeType.Identifier => "Identifier"
  | ASTNodeType.IntLiteral => "IntLiteral"
  end.

(** ['\t'.repeat(n)]. *)
Fixpoint tabs (n : nat) : string :=
  match n with
  | 0 => ""
  | S n => String "009" (tabs n)
  end.

(** The line that [SimpleLexer.dump] prints for a token: the text,
    [Math.max(1, 3 - Math.floor(text.length / 4))] tabs, the kind. *)
Definition dump_line (tk : Token) : string :=
  let text := SimpleToken.getText tk in
  String.append text
    (String.append (tabs (Nat.max 1 (3 - String.length text / 4)))
                   (token_type_name (SimpleToken.getType tk))).

Definition dump_header : string :=
  String.append "[text]" (String.append (tabs 2) "[type]").

(** The [while ((token = tokenReader.read()) !== null)] loop of
    [SimpleLexer.dump], [out] being the lines printed so far. *)
Fixpoint dump_while (fuel : nat) (out : list string) : SimpleParser.P (list string) :=
  match fuel with
  | 0 => out_of_fuel
  | S fuel =>
      do token <- SimpleParser.read ;;
      match token with
      | Some tk => dump_while fuel (out ++ [dump_line tk])
      | None => ret out
      end
  end.

(** [SimpleLexer.dump(tokenReader)]: the lines it prints, and the reader
    as it leaves it. *)
Definition dump (fuel : nat) : SimpleParser.P (list string) :=
  dump_while fuel [dump_header].

(** [SimpleParser.dumpAST(node, indent)]: the lines it prints. *)
Fixpoint dumpAST (node : SimpleASTNode) (indent : string) {struct node} : list string :=
  let 'Node ty text children := node in
  String.append indent (String.append (node_type_name ty) (String.append " " text))
  :: (fix each (children : list SimpleASTNode) : list string :=
        match children with
        | [] => []
        | child :: rest =>
            (dumpAST child (String.append indent SimpleScript.tab) ++ each rest)%list
        end) children.

(** The number of nodes of a tree. *)
Fixpoint node_count (node : SimpleASTNode) : nat :=
  let 'Node _ _ children := node in
  S ((fix each (children : list SimpleASTNode) : nat :=
        match children with
        | [] => 0
        | child :: rest => node_count child + each rest
        end) children).

(** The number that a string of decimal digits spells. *)
Definition decimal_step (acc : Z) (ch : ascii) : Z :=
  (10 * acc + Z.of_nat (nat_of_ascii ch - 48))%Z.

Definition decimal (s : string) : Z :=
  fold_left decimal_step (list_ascii_of_string s) 0%Z.

(** ** Token boundaries *)

(** The instance [l] with the tokens [pre] in front of its own. *)
Definition with_tokens (pre : list Token) (l : SimpleLexer.t) : SimpleLexer.t :=
  {| SimpleLexer.tokenText := SimpleLexer.tokenText l;
     SimpleLexer.tokens := pre ++ SimpleLexer.tokens l;
     SimpleLexer.token := SimpleLexer.token l |}.

(** The token list once the buffer, if it holds anything, is pushed. *)
Definition closed (l : SimpleLexer.t) : list Token :=
  if 0 <? String.length (SimpleLexer.tokenText l)
  then SimpleLexer.tokens l ++ [pending l]
  else SimpleLexer.tokens l.

(** The tokens of a list of characters. *)
Definition lex (code : list ascii) : list Token :=
  closed (snd (SimpleLexer.run DfaState.Initial SimpleLexer.new code)).

(** In [Initial] nothing is in progress; in every other state something
    is, and [Int] is never entered. *)
Definition idle_inv (state : DfaState.t) (l : SimpleLexer.t) : Prop :=
  state <> DfaState.Int
  /\ (state = DfaState.Initial ->
      SimpleLexer.tokenText l = "" /\ SimpleLexer.token l = SimpleToken.new)
  /\ (state <> DfaState.Initial -> SimpleLexer.tokenText l <> "").

(** ** Demo02: SimpleCalculator *)

(** The calculator parses with the lexer's token reader and builds the
    same nodes as the script parser. Its [multiplicative] is the right
    recursion [mul -> pri | pri * mul] behind one [if]; [additive] and
    [primary] are written as in the script parser, and call the
    calculator's own rules. The tests [child1 !== null], [child2 !== null]
    and [node === null] are on what [primary] or [multiplicative] has
    returned, which is an object. *)
Module SimpleCalculator.
Import SimpleToken.
Import SimpleParser.

Fixpoint additive (fuel : nat) : P SimpleASTNode :=
  match fuel with
  | 0 => out_of_fuel
  | S fuel =>
      do child1 <- multiplicative fuel ;;
      additive_while fuel child1
  end
with additive_while (fuel : nat) (child1 : SimpleASTNode) : P SimpleASTNode :=
  match fuel with
  | 0 => out_of_fuel
  | S fuel =>
      do token <- peek ;;
      if is_type token TokenType.Plus || is_type token TokenType.Minus then
        do token <- read ;;
        do child2 <- multiplicative fuel ;;
        do op <- text_of token ;;
        let node := ASTNode.new ASTNodeType.Additive op in
        let node := ASTNode.addChild node child1 in
        let node := ASTNode.addChild node child2 in
        additive_while fuel node
      else ret child1
  end
with multiplicative (fuel : nat) : P SimpleASTNode :=
  match fuel with
  | 0 => out_of_fuel
  | S fuel =>
      do child1 <- primary fuel ;;
      do token <- peek ;;
      if is_type token TokenType.Star || is_type token TokenType.Slash then
        do opToken <- read ;;
        do child2 <- multiplicative fuel ;;
        do op <- text_of opToken ;;
        let node := ASTNode.new ASTNodeType.Multiplicative op in
        let node := ASTNode.addChild node child1 in
        let node := ASTNode.addChild node child2 in
        ret node
      else ret child1
  end
with primary (fuel : nat) : P SimpleASTNode :=
  match fuel with
  | 0 => out_of_fuel
  | S fuel =>
      do token <- peek ;;
      do node <-
        (if is_type token TokenType.IntLiteral then
           do token <- read ;;
           do tx <- text_of token ;;
           ret (Some (ASTNode.new ASTNodeType.IntLiteral tx))
         else if is_type token TokenType.Identifier then
           do token <- read ;;
           do tx <- text_of token ;;
           ret (Some (ASTNode.new ASTNodeType.Identifier tx))
         else if is_type token TokenType.LeftParen then
           do _ <- read ;;
           do node <- additive fuel ;;
           do token <- peek ;;
           if is_type token TokenType.RightParen then
             do _ <- read ;; ret (Some node)
           else throw (Error "expecting right parenthesis")
         else ret None) ;;
      match node with
      | Some node => ret node
      | None => throw (Error "primary expression expected")
      end
  end.

(** [prog]: one [additive], whatever follows it. *)
Definition prog (fuel : nat) : P SimpleASTNode :=
  let node := ASTNode.new ASTNodeType.Programm "Calculator" in
  do child <- additive fuel ;;
  ret (ASTNode.addChild node child).

Definition parse (fuel : nat) (code : string) : outcome SimpleASTNode :=
  let lexer := SimpleLexer.new in
  let tokens := fst (SimpleLexer.tokenize lexer code) in
  fst (prog fuel tokens).

(** [intDeclare] throws where the script parser's returns [null]. *)
Definition intDeclare (fuel : nat) : P SimpleASTNode :=
  do token <- peek ;;
  do node <-
    (if is_type token TokenType.Int then
       do _ <- read ;;
       do token <- peek ;;
       if is_type token TokenType.Identifier then
         do token <- read ;;
         do tx <- text_of token ;;
         let node := ASTNode.new ASTNodeType.IntDeclaration tx in
         do token <- peek ;;
         do node <-
           (if is_type token TokenType.Assignment then
              do _ <- read ;;
              do child <- additive fuel ;;
              ret (ASTNode.addChild node child)
            else ret node) ;;
         do token <- peek ;;
         if is_type token TokenType.SemiColon then
           do _ <- read ;; ret (Some node)
         else throw (Error "invalid statement, expecting semicolon")
       else throw (Error "variable name expected")
     else ret None) ;;
  match node with
  | Some node => ret node
  | None => throw (Error "int declaration expected")
  end.
End SimpleCalculator.

(** * Properties of the lexer *)

Section Lexer.
Import SimpleLexer.

Ltac split_orb_false :=
  repeat match goal with
  | H : (_ || _) = false |- _ => apply orb_false_elim in H; destruct H
  end.

Lemma initToken_skip (this : SimpleLexer.t) (ch : ascii) :
  recognized ch = false -> tokenText this = "" ->
  initToken this ch = (DfaState.Initial, this).
Proof.
  unfold recognized. intros Hr Ht. split_orb_false.
  unfold initToken. rewrite Ht. simpl.
  repeat match goal with H : _ = false |- _ => rewrite H; clear H end.
  reflexivity.
Qed.

Lemma initToken_Initial_buffer this ch st l :
  initToken this ch = (st, l) -> st = DfaState.Initial -> tokenText l = "".
Proof.
  unfold initToken. intros H Hs. subst st.
  repeat match type of H with
  | (if ?c then _ else _) = _ =>
      destruct c; [ try (destruct (Ascii.eqb ch "i")); inversion H; fail |]
  end.
  inversion H; subst l; clear H.
  destruct (tokenText this) eqn:E; simpl; auto.
Qed.

Lemma step_Initial_buffer state this ch st l :
  step state this ch = (st, l) -> st = DfaState.Initial -> tokenText l = "".
Proof.
  intros H Hs. destruct state; simpl in H;
  repeat match type of H with
  | (if ?c then _ else _) = _ => destruct c
  end;
  try (eapply initToken_Initial_buffer; eassumption);
  try (unfold absorb in H; inversion H; subst; discriminate).
Qed.

(** Whenever the automaton is in [Initial], the buffer is empty. *)
Lemma run_Initial_buffer code : forall state this st l,
  (state = DfaState.Initial -> tokenText this = "") ->
  run state this code = (st, l) -> st = DfaState.Initial -> tokenText l = "".
Proof.
  induction code as [|ch rest IH]; simpl; intros state this st l Hinv H Hs.
  - inversion H; subst. auto.
  - destruct (step state this ch) as [state' this'] eqn:E.
    eapply IH; [| exact H | exact Hs].
    intros Hi. eapply step_Initial_buffer; eassumption.
Qed.

Lemma run_unrecognized code : forall this,
  tokenText this = "" ->
  Forall (fun ch => recognized ch = false) code ->
  run DfaState.Initial this code = (DfaState.Initial, this).
Proof.
  induction code as [|ch rest IH]; simpl; intros this Ht Hall.
  - reflexivity.
  - inversion Hall as [|? ? Hch Hrest]; subst.
    rewrite (initToken_skip this ch Hch Ht). apply IH; assumption.
Qed.

Lemma isBlank_unrecognized ch : isBlank ch = true -> recognized ch = false.
Proof.
  unfold isBlank. intros H.
  apply orb_true_iff in H as [H|H]; [apply orb_true_iff in H as [H|H]|];
    apply Ascii.eqb_eq in H; subst ch; reflexivity.
Qed.

(** C7. Tokenizing ["int age = 30"] gives exactly the four tokens
    IntKeyword ["int"], Identifier ["age"], Assignment ["="] and IntLiteral
    ["30"]. When the loop ends only the first three are in the list and
    ["30"] is still in the buffer, so the last token comes from the close-out
    after the loop; and ["int"] is an Identifier-kind token in state
    [Id_int3] until the blank after it is read, which makes it the
    keyword. *)
Theorem tokenize_int_age :
  kinds_texts (fst (tokenize SimpleLexer.new "int age = 30")) =
    [(TokenType.Int, "int"); (TokenType.Identifier, "age");
     (TokenType.Assignment, "="); (TokenType.IntLiteral, "30")]
  /\ (let '(state, l) :=
        run DfaState.Initial SimpleLexer.new (list_ascii_of_string "int age = 30") in
      state = DfaState.IntLiteral /\ tokenText l = "30" /\ length (tokens l) = 3)
  /\ (let '(state, l) :=
        run DfaState.Initial SimpleLexer.new (list_ascii_of_string "int") in
      state = DfaState.Id_int3
      /\ SimpleToken.getType (token l) = TokenType.Identifier
      /\ tokens l = []
      /\ tokens (snd (step state l " ")) = [SimpleToken.mk TokenType.Int "int"]).
Proof. vm_compute. repeat split; reflexivity. Qed.

(** C4 (the code departs from it). On ["int;"] the state [Id_int3] takes
    the [';'] into the lexeme: the only token is an Identifier whose text
    ["int;"] is not of the form [[A-Za-z][A-Za-z0-9]*]; the same happens
    with ['('], and the one-character step from [Id_int3] absorbs instead
    of closing the token. *)
Theorem tokenize_int_semicolon :
  kinds_texts (fst (tokenize SimpleLexer.new "int;")) = [(TokenType.Identifier, "int;")]
  /\ identifier_text "int;" = false
  /\ kinds_texts (fst (tokenize SimpleLexer.new "int(a);")) =
       [(TokenType.Identifier, "int(a"); (TokenType.RightParen, ")");
        (TokenType.SemiColon, ";")]
  /\ (forall l, step DfaState.Id_int3 l ";" = absorb DfaState.Id l ";").
Proof. vm_compute. repeat split; reflexivity. Qed.

(** C8. [tokenize] is a total function that returns a reader at position 0
    for every instance and every string. Whenever the automaton is in
    [Initial] after some prefix, a character that starts no token (blanks
    among them) leaves the automaton in [Initial] and the instance as it is:
    no token is emitted. A string of such characters gives no token at
    all. *)
Theorem tokenize_total_skips_unknown :
  (forall this code, exists toks this',
      tokenize this code = (SimpleTokenReader.new toks, this'))
  /\ (forall pre ch state l,
        run DfaState.Initial SimpleLexer.new pre = (state, l) ->
        state = DfaState.Initial ->
        recognized ch = false ->
        step state l ch = (DfaState.Initial, l))
  /\ (forall ch, isBlank ch = true -> recognized ch = false)
  /\ (forall this code,
        Forall (fun ch => recognized ch = false) (list_ascii_of_string code) ->
        SimpleTokenReader.tokens (fst (tokenize this code)) = []).
Proof.
  split; [|split; [|split]].
  - intros this code. unfold tokenize.
    destruct (run _ _ _) as [st l]. eexists. eexists. reflexivity.
  - intros pre ch state l Hrun Hs Hch. subst state. simpl.
    apply initToken_skip; [assumption|].
    eapply run_Initial_buffer; [| exact Hrun | reflexivity]. reflexivity.
  - exact isBlank_unrecognized.
  - intros this code Hall. unfold tokenize.
    rewrite run_unrecognized; [reflexivity | reflexivity | assumption].
Qed.

Lemma tokenize_total_skips_unknown_witness :
  (exists toks this', tokenize SimpleLexer.new "1 @" = (SimpleTokenReader.new toks, this'))
  /\ step DfaState.Initial
       (snd (run DfaState.Initial SimpleLexer.new (list_ascii_of_string "1 "))) "@"
     = (DfaState.Initial,
        snd (run DfaState.Initial SimpleLexer.new (list_ascii_of_string "1 ")))
  /\ recognized " " = false
  /\ SimpleTokenReader.tokens (fst (tokenize SimpleLexer.new " @ ")) = [].
Proof.
  destruct tokenize_total_skips_unknown as (Htotal & Hskip & Hblank & Hnone).
  split; [apply Htotal|].
  split; [apply (Hskip (list_ascii_of_string "1 ")); reflexivity|].
  split; [apply Hblank; reflexivity|].
  apply Hnone. repeat constructor.
Defined.

(** C10. [tokenize] starts by assigning the three fields anew, so
    neither the reader it returns nor the instance it leaves behind depends
    on the instance it is called on: every instance gives what a fresh one
    gives, the empty string leaves the three fields as the reset has set
    them, and the same instance gives the same result again after
    tokenizing any other string in between, although a call leaves tokens
    and a non-empty buffer behind. The reader is over the token list of the
    instance, which holds the tokens of this call only. *)
Theorem tokenize_resets_instance :
  (forall this code, tokenize this code = tokenize SimpleLexer.new code)
  /\ (forall this, tokenize this "" = (SimpleTokenReader.new [], SimpleLexer.new))
  /\ (forall this code other,
        tokenize (snd (tokenize (snd (tokenize this code)) other)) code
        = tokenize this code)
  /\ (forall this1 this2 code,
        kinds_texts (fst (tokenize this1 code)) = kinds_texts (fst (tokenize this2 code)))
  /\ (forall this code,
        tokens (snd (tokenize this code))
        = SimpleTokenReader.tokens (fst (tokenize this code)))
  /\ (tokenText (snd (tokenize SimpleLexer.new "int age = 30")) = "0"
      /\ length (tokens (snd (tokenize SimpleLexer.new "int age = 30"))) = 4
      /\ forall this,
           kinds_texts (fst (tokenize (snd (tokenize this "int age = 30")) "a"))
           = [(TokenType.Identifier, "a")]).
Proof.
  assert (H : forall this code, tokenize this code = tokenize SimpleLexer.new code)
    by (intros; reflexivity).
  split; [exact H|].
  split; [intros this; rewrite H; reflexivity|].
  split; [intros this code other; rewrite H, (H this); reflexivity|].
  split; [intros this1 this2 code; rewrite (H this1), (H this2); reflexivity|].
  split.
  - intros this code. unfold tokenize.
    destruct (run DfaState.Initial _ (list_ascii_of_string code)) as [state l].
    reflexivity.
  - split; [reflexivity|]. split; [reflexivity|].
    intros this. rewrite H. reflexivity.
Qed.
End Lexer.

(** * Properties of the token reader and the parser *)

Section Parser.
Import SimpleParser.

Lemma bind_Ret {S A B} (c : M S A) (k : A -> M S B) s b s' :
  bind c k s = (Ret b, s') ->
  exists a s1, c s = (Ret a, s1) /\ k a s1 = (Ret b, s').
Proof.
  unfold bind. destruct (c s) as [[a| |] s1]; intros H; try discriminate.
  exists a, s1. split; [reflexivity | exact H].
Qed.

Lemma peek_Ret r tk r' :
  peek r = (Ret tk, r') -> r' = r /\ tk = SimpleTokenReader.peek r.
Proof. unfold peek. intros H. inversion H. auto. Qed.

Lemma read_tokens r tk r' :
  read r = (Ret tk, r') -> SimpleTokenReader.tokens r' = SimpleTokenReader.tokens r.
Proof.
  unfold read, SimpleTokenReader.read.
  destruct (_ <? _); intros H; inversion H; reflexivity.
Qed.

Lemma is_type_peek r ty :
  is_type (SimpleTokenReader.peek r) ty = true ->
  SimpleTokenReader.pos r < length (SimpleTokenReader.tokens r).
Proof.
  unfold SimpleTokenReader.peek.
  destruct (_ <? _) eqn:E; [intros _; apply Nat.ltb_lt; exact E | discriminate].
Qed.

Lemma text_of_Ret tk s r r' : text_of tk r = (Ret s, r') -> r' = r.
Proof. destruct tk; simpl; unfold ret, throw; intros H; inversion H; reflexivity. Qed.

Ltac bind_inv H :=
  let a := fresh "a" in let r := fresh "r" in
  let H1 := fresh "H" in
  apply bind_Ret in H; destruct H as (a & r & H1 & H).

Lemma expression_rules_keep_tokens fuel :
  parses_inside (additive fuel)
  /\ (forall c, keeps_tokens (additive_while fuel c))
  /\ parses_inside (multiplicative fuel)
  /\ (forall c, keeps_tokens (multiplicative_while fuel c))
  /\ parses_inside (primary fuel).
Proof.
  induction fuel as [|n (IHa & IHaw & IHm & IHmw & IHp)].
  - repeat split; intros; discriminate.
  - split; [|split; [|split; [|split]]].
    + intros r x r' H. simpl in H. bind_inv H.
      apply IHm in H0 as [Ht Hp]. apply IHaw in H. split; congruence.
    + intros c r x r' H. simpl in H. bind_inv H.
      apply peek_Ret in H0 as [-> ->].
      destruct (_ || _).
      * bind_inv H. bind_inv H. bind_inv H.
        apply read_tokens in H0. apply IHm in H1 as [? _].
        apply text_of_Ret in H2. subst. apply IHaw in H. congruence.
      * inversion H; reflexivity.
    + intros r x r' H. simpl in H. bind_inv H.
      apply IHp in H0 as [Ht Hp]. apply IHmw in H. split; congruence.
    + intros c r x r' H. simpl in H. bind_inv H.
      apply peek_Ret in H0 as [-> ->].
      destruct (_ || _).
      * bind_inv H. bind_inv H. bind_inv H.
        apply read_tokens in H0. apply IHm in H1 as [? _].
        apply text_of_Ret in H2. subst. apply IHmw in H. congruence.
      * inversion H; reflexivity.
    + intros r x r' H. simpl in H. bind_inv H.
      apply peek_Ret in H0 as [-> ->]. bind_inv H.
      destruct (is_type _ TokenType.IntLiteral) eqn:E1;
        [|destruct (is_type _ TokenType.Identifier) eqn:E2;
          [|destruct (is_type _ TokenType.LeftParen) eqn:E3]].
      * apply is_type_peek in E1. bind_inv H0. bind_inv H0.
        apply read_tokens in H1. apply text_of_Ret in H2. subst.
        inversion H0; subst. inversion H; subst. split; [congruence | assumption].
      * apply is_type_peek in E2. bind_inv H0. bind_inv H0.
        apply read_tokens in H1. apply text_of_Ret in H2. subst.
        inversion H0; subst. inversion H; subst. split; [congruence | assumption].
      * apply is_type_peek in E3. bind_inv H0. bind_inv H0. bind_inv H0.
        apply read_tokens in H1. apply IHa in H2 as [? _].
        apply peek_Ret in H3 as [-> ->].
        destruct (is_type _ TokenType.RightParen); [|discriminate].
        bind_inv H0. apply read_tokens in H3. inversion H0; subst.
        inversion H; subst. split; [congruence | assumption].
      * inversion H0; subst. discriminate.
Qed.

Lemma refines_refl {S A} (x : outcome A * S) : refines x x.
Proof. right; reflexivity. Qed.

Lemma refines_trans {S A} (x y z : outcome A * S) :
  refines x y -> refines y z -> refines x z.
Proof.
  intros [H|H] [H'|H']; subst; try (left; assumption); try (right; reflexivity).
Qed.

Lemma refines_bind {S A B} (c c' : M S A) (k k' : A -> M S B) s :
  refines (c s) (c' s) ->
  (forall a s1, refines (k a s1) (k' a s1)) ->
  refines (bind c k s) (bind c' k' s).
Proof.
  intros [H|H] Hk; unfold bind.
  - left. destruct (c s) as [[a| |] s1]; simpl in H; try discriminate. reflexivity.
  - rewrite <- H. destruct (c s) as [[a| |] s1]; [apply Hk | right; reflexivity | left; reflexivity].
Qed.


Lemma additive_S fuel :
  additive (S fuel) =
  (do child1 <- multiplicative fuel ;; additive_while fuel child1).
Proof. reflexivity. Qed.

Lemma additive_while_S fuel child1 :
  additive_while (S fuel) child1 =
  (do token <- peek ;;
   if is_type token TokenType.Plus || is_type token TokenType.Minus then
     do token <- read ;;
     do child2 <- multiplicative fuel ;;
     do op <- text_of token ;;
     additive_while fuel
       (ASTNode.addChild
          (ASTNode.addChild (ASTNode.new ASTNodeType.Additive op) child1) child2)
   else ret child1).
Proof. reflexivity. Qed.

Lemma multiplicative_S fuel :
  multiplicative (S fuel) =
  (do child1 <- primary fuel ;; multiplicative_while fuel child1).
Proof. reflexivity. Qed.

Lemma multiplicative_while_S fuel child1 :
  multiplicative_while (S fuel) child1 =
  (do token <- peek ;;
   if is_type token TokenType.Star || is_type token TokenType.Slash then
     do token <- read ;;
     do child2 <- multiplicative fuel ;;
     do op <- text_of token ;;
     multiplicative_while fuel
       (ASTNode.addChild
          (ASTNode.addChild (ASTNode.new ASTNodeType.Multiplicative op) child1) child2)
   else ret child1).
Proof. reflexivity. Qed.

Lemma primary_S fuel :
  primary (S fuel) =
  (do token <- peek ;;
   do node <-
     (if is_type token TokenType.IntLiteral then
        do token <- read ;;
        do tx <- text_of token ;;
        ret (Some (ASTNode.new ASTNodeType.IntLiteral tx))
      else if is_type token TokenType.Identifier then
        do token <- read ;;
        do tx <- text_of token ;;
        ret (Some (ASTNode.new ASTNodeType.Identifier tx))
      else if is_type token TokenType.LeftParen then
        do _ <- read ;;
        do node <- additive fuel ;;
        do token <- peek ;;
        if is_type token TokenType.RightParen then
          do _ <- read ;; ret (Some node)
        else throw (Error "expecting right parenthesis")
      else ret None) ;;
   match node with
   | Some node => ret node
   | None => throw (Error "primary expression expected")
   end).
Proof. reflexivity. Qed.

Ltac mono :=
  repeat first
    [ apply refines_refl
    | match goal with IH : _ |- _ => apply IH end
    | apply refines_bind; [| intros ? ?]
    | match goal with
      | |- refines ((if ?c then _ else _) _) _ => destruct c
      | |- refines ((match ?c with _ => _ end) _) _ => destruct c
      end ].

Lemma expression_fuel_S fuel :
  (forall r, refines (additive fuel r) (additive (S fuel) r))
  /\ (forall c r, refines (additive_while fuel c r) (additive_while (S fuel) c r))
  /\ (forall r, refines (multiplicative fuel r) (multiplicative (S fuel) r))
  /\ (forall c r, refines (multiplicative_while fuel c r) (multiplicative_while (S fuel) c r))
  /\ (forall r, refines (primary fuel r) (primary (S fuel) r)).
Proof.
  induction fuel as [|n (IHa & IHaw & IHm & IHmw & IHp)].
  - repeat split; intros; left; reflexivity.
  - split; [|split; [|split; [|split]]]; intros.
    + rewrite (additive_S n), (additive_S (S n)). mono.
    + rewrite (additive_while_S n), (additive_while_S (S n)). mono.
    + rewrite (multiplicative_S n), (multiplicative_S (S n)). mono.
    + rewrite (multiplicative_while_S n), (multiplicative_while_S (S n)). mono.
    + rewrite (primary_S n), (primary_S (S n)). mono.
Qed.

Lemma refines_le {S A} (f : nat -> M S A) :
  (forall n s, refines (f n s) (f (Datatypes.S n) s)) ->
  forall n m s, n <= m -> refines (f n s) (f m s).
Proof.
  intros Hf n m s Hle. induction Hle as [|m Hle IH].
  - apply refines_refl.
  - eapply refines_trans; [exact IH | apply Hf].
Qed.

Lemma statement_fuel_S fuel r :
  refines (expressionStatement fuel r) (expressionStatement (S fuel) r)
  /\ refines (assignmentStatement fuel r) (assignmentStatement (S fuel) r)
  /\ refines (intDeclare fuel r) (intDeclare (S fuel) r).
Proof.
  destruct (expression_fuel_S fuel) as (IHa & _).
  unfold expressionStatement, assignmentStatement, intDeclare.
  repeat split; mono.
Qed.

Lemma prog_while_S fuel node :
  prog_while (S fuel) node =
  (do token <- peek ;;
   match token with
   | None => ret node
   | Some _ =>
       do child <- intDeclare fuel ;;
       do child <- match child with
                   | None => expressionStatement fuel
                   | Some _ => ret child
                   end ;;
       do child <- match child with
                   | None => assignmentStatement fuel
                   | Some _ => ret child
                   end ;;
       match child with
       | Some child => prog_while fuel (ASTNode.addChild node child)
       | None => throw (Error "unknown statement")
       end
   end).
Proof. reflexivity. Qed.

Lemma prog_while_fuel_S fuel :
  forall node r, refines (prog_while fuel node r) (prog_while (S fuel) node r).
Proof.
  induction fuel as [|n IH]; intros node r.
  - left; reflexivity.
  - rewrite (prog_while_S n), (prog_while_S (S n)).
    pose proof (fun r => proj1 (statement_fuel_S n r)) as He.
    pose proof (fun r => proj1 (proj2 (statement_fuel_S n r))) as Ha.
    pose proof (fun r => proj2 (proj2 (statement_fuel_S n r))) as Hi.
    mono.
Qed.

Lemma parse_fuel fuel fuel' code tree :
  fuel <= fuel' -> parse fuel code = Ret tree -> parse fuel' code = Ret tree.
Proof.
  unfold parse, prog. intros Hle H.
  destruct (refines_le (fun n => prog_while n (ASTNode.new ASTNodeType.Programm "demo"))
              (fun n s => prog_while_fuel_S n _ s) fuel fuel'
              (fst (SimpleLexer.tokenize SimpleLexer.new code)) Hle) as [Ho|Heq].
  - rewrite H in Ho. discriminate.
  - rewrite <- Heq. exact H.
Qed.
(** ** Enough fuel: the parser returns or throws on every input *)

Lemma post_bind {S A B} (c : M S A) (k : A -> M S B) s Q :
  post c s (fun a s1 => post (k a) s1 Q) -> post (bind c k) s Q.
Proof. unfold post, bind. destruct (c s) as [[a| |] s1]; auto. Qed.

Lemma post_ret {S A} (a : A) (s : S) Q : Q a s -> post (ret a) s Q.
Proof. auto. Qed.

Lemma post_throw {S A} e (s : S) (Q : A -> S -> Prop) : post (throw e) s Q.
Proof. exact I. Qed.

Lemma post_weaken {S A} (c : M S A) s (Q Q' : A -> S -> Prop) :
  post c s Q -> (forall a s', Q a s' -> Q' a s') -> post c s Q'.
Proof. unfold post. destruct (c s) as [[a| |] s1]; auto. Qed.

Lemma post_refines {S A} (c c' : M S A) s Q :
  refines (c s) (c' s) -> post c s Q -> post c' s Q.
Proof.
  unfold post. intros [H|H].
  - destruct (c s) as [[a| |] s1]; simpl in H; try discriminate. contradiction.
  - rewrite H. auto.
Qed.

Lemma post_peek r Q : Q (SimpleTokenReader.peek r) r -> post peek r Q.
Proof. auto. Qed.

Lemma post_read r Q :
  (forall tk r',
      SimpleTokenReader.tokens r' = SimpleTokenReader.tokens r ->
      SimpleTokenReader.pos r <= SimpleTokenReader.pos r' ->
      (SimpleTokenReader.pos r < length (SimpleTokenReader.tokens r) ->
       SimpleTokenReader.pos r' = S (SimpleTokenReader.pos r)) ->
      Q tk r') ->
  post read r Q.
Proof.
  intros H. unfold post, read, SimpleTokenReader.read.
  destruct (Nat.ltb_spec (SimpleTokenReader.pos r) (length (SimpleTokenReader.tokens r)));
    apply H; simpl; auto; lia.
Qed.

Lemma post_text_of tk r Q : (forall s, Q s r) -> post (text_of tk) r Q.
Proof. intros H. destruct tk; [apply H | exact I]. Qed.

Lemma expression_fuel n m :
  n <= m ->
  (forall r, refines (additive n r) (additive m r))
  /\ (forall c r, refines (additive_while n c r) (additive_while m c r))
  /\ (forall r, refines (multiplicative n r) (multiplicative m r))
  /\ (forall c r, refines (multiplicative_while n c r) (multiplicative_while m c r))
  /\ (forall r, refines (primary n r) (primary m r)).
Proof.
  intros Hle. induction Hle as [|m Hle (IHa & IHaw & IHm & IHmw & IHp)].
  - repeat split; intros; apply refines_refl.
  - destruct (expression_fuel_S m) as (Ha & Haw & Hm & Hmw & Hp).
    repeat split; intros; eapply refines_trans; eauto.
Qed.

Ltac step :=
  lazymatch goal with
  | |- post (bind _ _) _ _ => apply post_bind
  | |- post peek _ _ => apply post_peek
  | |- post read _ _ => apply post_read; intros ? ? ? ? ?
  | |- post (text_of _) _ _ => apply post_text_of; intros ?
  | |- post (throw _) _ _ => apply post_throw
  | |- post (ret _) _ _ => apply post_ret
  end.

Ltac arith :=
  unfold remaining in *;
  repeat match goal with
  | H : SimpleTokenReader.tokens _ = SimpleTokenReader.tokens _ |- _ =>
      apply (f_equal (@length Token)) in H
  end;
  simpl in *; lia.

Lemma peek_end r ty :
  remaining r <= 0 -> is_type (SimpleTokenReader.peek r) ty = false.
Proof.
  unfold remaining, SimpleTokenReader.peek. intros H.
  destruct (Nat.ltb_spec (SimpleTokenReader.pos r) (length (SimpleTokenReader.tokens r)));
    [lia | reflexivity].
Qed.

(** The loop of [multiplicative], given what its callees do one level
    down. *)
Lemma while_terminates n (loop : nat -> SimpleASTNode -> P SimpleASTNode)
    (ty : ASTNodeType.t) (t1 t2 : TokenType.t) :
  (forall fuel child1,
      loop (S fuel) child1 =
      (do token <- peek ;;
       if is_type token t1 || is_type token t2 then
         do token <- read ;;
         do child2 <- multiplicative fuel ;;
         do op <- text_of token ;;
         loop fuel (ASTNode.addChild (ASTNode.addChild (ASTNode.new ty op) child1) child2)
       else ret child1)) ->
  (forall r, remaining r <= n ->
     post (multiplicative (3 * n + 3)) r (advanced r)
     /\ forall c, post (loop (3 * n + 3) c) r (kept r)) ->
  forall r c, remaining r <= S n -> post (loop (3 * S n + 1) c) r (kept r).
Proof.
  intros Heq IH r c Hr.
  replace (3 * S n + 1) with (S (3 * n + 3)) by lia. rewrite Heq.
  step. step.
  destruct (is_type _ t1 || is_type _ t2) eqn:E.
  - assert (Hpos : SimpleTokenReader.pos r < length (SimpleTokenReader.tokens r)).
    { apply orb_true_iff in E as [E|E]; eapply is_type_peek; exact E. }
    step. step. rename r' into r1. step.
    assert (Hr1 : remaining r1 <= n) by arith.
    destruct (IH r1 Hr1) as [Hm _].
    eapply post_weaken; [exact Hm|]. intros child2 r2 [Ht2 Hp2]. simpl in Ht2, Hp2.
    step. step.
    assert (Hr2 : remaining r2 <= n) by arith.
    destruct (IH r2 Hr2) as [_ Hl].
    eapply post_weaken; [apply Hl|]. intros x r3 [Ht3 Hp3]. simpl in Ht3, Hp3.
    split; [congruence | lia].
  - step. split; [reflexivity | lia].
Qed.

Lemma expression_rules_terminate n : terminates_at n.
Proof.
  induction n as [|n IH]; intros r Hr.
  - assert (Hp : forall Q, post (primary 1) r Q).
    { intros Q. rewrite primary_S. step. step. rewrite !peek_end by assumption.
      step. step. step. }
    assert (Hm : forall Q, post (multiplicative 2) r Q).
    { intros Q. rewrite multiplicative_S. step. apply Hp. }
    split; [|split; [|split; [|split]]]; try apply Hp; try apply Hm.
    + change (3 * 0 + 3) with 3. rewrite additive_S. step. apply Hm.
    + intros c. change (3 * 0 + 1) with 1. rewrite additive_while_S.
      step. step. rewrite !peek_end by assumption. cbn [orb]. step. split; auto.
    + intros c. change (3 * 0 + 1) with 1. rewrite multiplicative_while_S.
      step. step. rewrite !peek_end by assumption. cbn [orb]. step. split; auto.
  - (* one level up *)
    assert (IHm3 : forall r, remaining r <= n ->
               post (multiplicative (3 * n + 3)) r (advanced r)).
    { intros r0 Hr0. destruct (IH r0 Hr0) as (_ & _ & Hm & _).
      eapply post_refines; [|exact Hm].
      apply (proj1 (proj2 (proj2 (expression_fuel (3 * n + 2) (3 * n + 3) ltac:(lia))))). }
    assert (Hp : forall r, remaining r <= S n -> post (primary (3 * S n + 1)) r (advanced r)).
    { clear r Hr. intros r Hr.
      replace (3 * S n + 1) with (S (3 * n + 3)) by lia. rewrite primary_S.
      step. step. step.
      destruct (is_type _ TokenType.IntLiteral) eqn:E1;
        [|destruct (is_type _ TokenType.Identifier) eqn:E2;
          [|destruct (is_type _ TokenType.LeftParen) eqn:E3]].
      - apply is_type_peek in E1. step. step. step. step. step. step.
        split; [assumption | lia].
      - apply is_type_peek in E2. step. step. step. step. step. step.
        split; [assumption | lia].
      - apply is_type_peek in E3. step. step. rename r' into r1. step.
        assert (Hr1 : remaining r1 <= n) by arith.
        destruct (IH r1 Hr1) as (Ha & _).
        eapply post_weaken; [exact Ha|]. intros node r2 [Ht2 Hp2]. simpl in Ht2, Hp2.
        step. step.
        destruct (is_type _ TokenType.RightParen); [|step].
        step. step. rename r' into r3. step. step.
        split; [congruence | lia].
      - step. step. }
    assert (Hmw : forall r c, remaining r <= S n ->
               post (multiplicative_while (3 * S n + 1) c) r (kept r)).
    { apply (while_terminates n multiplicative_while ASTNodeType.Multiplicative
               TokenType.Star TokenType.Slash multiplicative_while_S).
      intros r0 Hr0. split; [apply IHm3; assumption|]. intros c.
      destruct (IH r0 Hr0) as (_ & _ & _ & Hl & _).
      eapply post_refines; [|apply Hl].
      apply (proj1 (proj2 (proj2 (proj2 (expression_fuel (3 * n + 1) (3 * n + 3) ltac:(lia)))))). }
    assert (Haw : forall r c, remaining r <= S n ->
               post (additive_while (3 * S n + 1) c) r (kept r)).
    { apply (while_terminates n additive_while ASTNodeType.Additive
               TokenType.Plus TokenType.Minus additive_while_S).
      intros r0 Hr0. split; [apply IHm3; assumption|]. intros c.
      destruct (IH r0 Hr0) as (_ & Hl & _).
      eapply post_refines; [|apply Hl].
      apply (proj1 (proj2 (expression_fuel (3 * n + 1) (3 * n + 3) ltac:(lia)))). }
    assert (Hm : forall r, remaining r <= S n ->
               post (multiplicative (3 * S n + 2)) r (advanced r)).
    { clear r Hr. intros r Hr.
      replace (3 * S n + 2) with (S (3 * S n + 1)) by lia. rewrite multiplicative_S.
      step. eapply post_weaken; [apply Hp; assumption|].
      intros c r1 [Ht1 Hp1]. simpl in Ht1, Hp1.
      eapply post_weaken; [apply Hmw; arith|].
      intros x r2 [Ht2 Hp2]. simpl in *. split; [congruence | lia]. }
    split; [|split; [|split; [|split]]]; auto.
    replace (3 * S n + 3) with (S (3 * S n + 2)) by lia. rewrite additive_S.
    step. eapply post_weaken; [apply Hm; assumption|].
    intros c r1 [Ht1 Hp1]. simpl in Ht1, Hp1.
    eapply post_refines;
      [apply (proj1 (proj2 (expression_fuel (3 * S n + 1) (3 * S n + 2) ltac:(lia))))|].
    eapply post_weaken; [apply Haw; arith|].
    intros x r2 [Ht2 Hp2]. simpl in *. split; [congruence | lia].
Qed.

Lemma post_getPosition r Q : Q (SimpleTokenReader.getPosition r) r -> post getPosition r Q.
Proof. auto. Qed.

Lemma post_setPosition r p Q :
  (forall r',
      SimpleTokenReader.tokens r' = SimpleTokenReader.tokens r ->
      (SimpleTokenReader.pos r' = SimpleTokenReader.pos r
       \/ Z.of_nat (SimpleTokenReader.pos r') = p) ->
      Q tt r') ->
  post (setPosition p) r Q.
Proof.
  intros H. unfold post, setPosition, SimpleTokenReader.setPosition.
  destruct (Z.leb_spec 0 p); simpl; [|apply H; auto].
  destruct (_ <? _)%Z; apply H; simpl; auto. right. lia.
Qed.

Lemma post_unread r Q :
  (forall r',
      SimpleTokenReader.tokens r' = SimpleTokenReader.tokens r ->
      SimpleTokenReader.pos r - 1 <= SimpleTokenReader.pos r' ->
      Q tt r') ->
  post unread r Q.
Proof.
  intros H. unfold post, unread, SimpleTokenReader.unread.
  destruct (_ <? _); apply H; simpl; auto; lia.
Qed.

Lemma additive_terminates n r :
  remaining r <= n -> post (additive (3 * n + 3)) r (advanced r).
Proof. intros H. apply (expression_rules_terminate n r H). Qed.

Lemma statements_terminate n r :
  remaining r <= n ->
  post (intDeclare (3 * n + 3)) r (statement_done r)
  /\ post (expressionStatement (3 * n + 3)) r (statement_done r)
  /\ post (assignmentStatement (3 * n + 3)) r (statement_done r).
Proof.
  intros Hr. split; [|split].
  - unfold intDeclare. step. step.
    destruct (is_type _ TokenType.Int) eqn:E; [|step; split; [reflexivity | lia]].
    apply is_type_peek in E. step. step. rename r' into r1. step. step.
    destruct (is_type _ TokenType.Identifier); [|step].
    step. step. rename r' into r2. step. step. step. step. step.
    assert (Hinit : post
              (if is_type (SimpleTokenReader.peek r2) TokenType.Assignment
               then do _ <- read ;;
                    do child <- additive (3 * n + 3) ;;
                    ret (ASTNode.addChild (ASTNode.new ASTNodeType.IntDeclaration s) child)
               else ret (ASTNode.new ASTNodeType.IntDeclaration s))
              r2 (kept r2)).
    { destruct (is_type _ TokenType.Assignment).
      - step. step. rename r' into r3. step.
        eapply post_weaken; [apply additive_terminates; arith|].
        intros child r4 [Ht4 Hp4]. step. split; [congruence | lia].
      - step. split; [reflexivity | lia]. }
    eapply post_weaken; [exact Hinit|]. intros node r5 [Ht5 Hp5].
    step. step. destruct (is_type _ TokenType.SemiColon); [|step].
    step. step. step. split; [congruence | lia].
  - unfold expressionStatement. step. apply post_getPosition. step.
    eapply post_weaken; [apply additive_terminates; assumption|].
    intros node r1 [Ht1 Hp1]. step. step.
    destruct (is_type _ TokenType.SemiColon).
    + step. step. step. split; [congruence | lia].
    + step. apply post_setPosition. intros r2 Ht2 Hp2. step.
      split; [congruence|].
      unfold SimpleTokenReader.getPosition in Hp2. lia.
  - unfold assignmentStatement. step. step.
    destruct (is_type _ TokenType.Identifier) eqn:E; [|step; split; [reflexivity | lia]].
    apply is_type_peek in E. step. step. rename r' into r1. step. step. step. step.
    destruct (is_type _ TokenType.Assignment).
    + step. step. rename r' into r2. step.
      eapply post_weaken; [apply additive_terminates; arith|].
      intros child r3 [Ht3 Hp3]. step. step.
      destruct (is_type _ TokenType.SemiColon); [|step].
      step. step. step. split; [congruence | lia].
    + step. apply post_unread. intros r2 Ht2 Hp2. step.
      split; [congruence | lia].
Qed.

Lemma prog_while_fuel n m node r :
  n <= m -> refines (prog_while n node r) (prog_while m node r).
Proof.
  apply (refines_le (fun k => prog_while k node)). intros k s. apply prog_while_fuel_S.
Qed.

Lemma prog_while_terminates n : forall node r,
  remaining r <= n -> post (prog_while (3 * n + 4) node) r (fun _ _ => True).
Proof.
  induction n as [|n IH]; intros node r Hr.
  - change (3 * 0 + 4) with 4. rewrite prog_while_S. step. step.
    unfold SimpleTokenReader.peek.
    destruct (Nat.ltb_spec (SimpleTokenReader.pos r) (length (SimpleTokenReader.tokens r)));
      [unfold remaining in Hr; lia | step; exact I].
  - replace (3 * S n + 4) with (S (3 * S n + 3)) by lia. rewrite prog_while_S.
    step. step. destruct (SimpleTokenReader.peek r); [|step; exact I].
    destruct (statements_terminate (S n) r Hr) as (Hi & _).
    step. eapply post_weaken; [exact Hi|]. intros child1 r1 [Ht1 Hp1].
    step.
    assert (H2 : post (match child1 with
                       | Some _ => ret child1
                       | None => expressionStatement (3 * S n + 3)
                       end) r1 (statement_done r)).
    { destruct child1.
      - step. split; assumption.
      - destruct (statements_terminate (S n) r1 ltac:(arith)) as (_ & He & _).
        eapply post_weaken; [exact He|]. intros child r2 [Ht2 Hp2].
        split; [congruence|]. destruct child; lia. }
    eapply post_weaken; [exact H2|]. clear H2. intros child2 r2 [Ht2 Hp2].
    step.
    assert (H3 : post (match child2 with
                       | Some _ => ret child2
                       | None => assignmentStatement (3 * S n + 3)
                       end) r2 (statement_done r)).
    { destruct child2.
      - step. split; assumption.
      - destruct (statements_terminate (S n) r2 ltac:(arith)) as (_ & _ & Ha).
        eapply post_weaken; [exact Ha|]. intros child r3 [Ht3 Hp3].
        split; [congruence|]. destruct child; lia. }
    eapply post_weaken; [exact H3|]. clear H3. intros child3 r3 [Ht3 Hp3].
    destruct child3 as [child|]; [|step].
    eapply post_refines; [apply (prog_while_fuel (3 * n + 4)); lia|].
    apply IH. arith.
Qed.

Lemma parse_terminates_at code fuel :
  3 * length (SimpleTokenReader.tokens (fst (SimpleLexer.tokenize SimpleLexer.new code))) + 4
    <= fuel ->
  parse fuel code <> OutOfFuel.
Proof.
  intros Hfuel. unfold parse, prog.
  set (r := fst (SimpleLexer.tokenize SimpleLexer.new code)) in *.
  pose proof (prog_while_terminates (length (SimpleTokenReader.tokens r))
                (ASTNode.new ASTNodeType.Programm "demo") r) as H.
  assert (Hr : remaining r <= length (SimpleTokenReader.tokens r))
    by (unfold remaining; lia).
  specialize (H Hr).
  eapply post_refines in H; [|apply prog_while_fuel; exact Hfuel].
  unfold post in H. destruct (prog_while fuel _ r) as [[x| |] r']; simpl;
    [discriminate | discriminate | contradiction].
Qed.

(** ** The claims on the reader and the parser *)

(** C9. [setPosition(p)] never touches the token list; it moves the
    cursor to [p] when [0 <= p < tokens.length] and is the identity on the
    reader for every other integer, the length of the token list included:
    a cursor inside the list stays inside it, while [read] on the last token
    does move the cursor one past the end. *)
Theorem setPosition_in_range_only (r : SimpleTokenReader.t) (p : Z) :
  let len := length (SimpleTokenReader.tokens r) in
  SimpleTokenReader.tokens (SimpleTokenReader.setPosition r p) = SimpleTokenReader.tokens r
  /\ ((0 <= p < Z.of_nat len)%Z ->
      Z.of_nat (SimpleTokenReader.pos (SimpleTokenReader.setPosition r p)) = p)
  /\ (~ (0 <= p < Z.of_nat len)%Z -> SimpleTokenReader.setPosition r p = r)
  /\ SimpleTokenReader.setPosition r (Z.of_nat len) = r
  /\ (SimpleTokenReader.pos r < len ->
      SimpleTokenReader.pos (SimpleTokenReader.setPosition r p) < len)
  /\ (S (SimpleTokenReader.pos r) = len ->
      SimpleTokenReader.pos (snd (SimpleTokenReader.read r)) = len).
Proof.
  intros len. unfold SimpleTokenReader.setPosition, SimpleTokenReader.read. fold len.
  repeat split.
  - destruct (_ && _); reflexivity.
  - intros [H0 H1].
    destruct (Z.leb_spec 0 p); [|lia]. destruct (Z.ltb_spec p (Z.of_nat len)); [|lia].
    simpl. lia.
  - intros H.
    destruct (Z.leb_spec 0 p); [|reflexivity].
    destruct (Z.ltb_spec p (Z.of_nat len)); [lia | reflexivity].
  - rewrite Z.ltb_irrefl, andb_false_r. reflexivity.
  - intros H.
    destruct (Z.leb_spec 0 p); [|exact H].
    destruct (Z.ltb_spec p (Z.of_nat len)); [simpl; lia | exact H].
  - intros H. destruct (Nat.ltb_spec (SimpleTokenReader.pos r) len); simpl; lia.
Qed.

Lemma setPosition_in_range_only_witness :
  Z.of_nat (SimpleTokenReader.pos (SimpleTokenReader.setPosition two_tokens 0)) = 0%Z
  /\ SimpleTokenReader.setPosition two_tokens 2 = two_tokens
  /\ SimpleTokenReader.setPosition two_tokens (-1) = two_tokens
  /\ SimpleTokenReader.pos (SimpleTokenReader.setPosition two_tokens 2) < 2
  /\ SimpleTokenReader.pos (snd (SimpleTokenReader.read two_tokens)) = 2.
Proof.
  destruct (setPosition_in_range_only two_tokens 0) as (_ & Hin & _).
  destruct (setPosition_in_range_only two_tokens 2) as (_ & _ & Hout & _ & Hlt & Hread).
  destruct (setPosition_in_range_only two_tokens (-1)) as (_ & _ & Hneg & _).
  split; [apply Hin; simpl; lia|].
  split; [apply Hout; simpl; lia|].
  split; [apply Hneg; simpl; lia|].
  split; [apply Hlt; simpl; lia|].
  apply Hread; reflexivity.
Defined.

Lemma setPosition_restore r r' :
  SimpleTokenReader.tokens r' = SimpleTokenReader.tokens r ->
  SimpleTokenReader.pos r < length (SimpleTokenReader.tokens r) ->
  SimpleTokenReader.setPosition r' (Z.of_nat (SimpleTokenReader.getPosition r)) = r.
Proof.
  intros Htok H. unfold SimpleTokenReader.setPosition, SimpleTokenReader.getPosition.
  rewrite Htok.
  destruct (Z.leb_spec 0 (Z.of_nat (SimpleTokenReader.pos r))); [|lia].
  destruct (Z.ltb_spec (Z.of_nat (SimpleTokenReader.pos r))
              (Z.of_nat (length (SimpleTokenReader.tokens r)))); [|lia].
  simpl. rewrite Nat2Z.id. destruct r; reflexivity.
Qed.

(** Whatever the fuel, [expressionStatement] answers [null] only with
    the reader it was given. *)
Lemma expressionStatement_None fuel r r' :
  expressionStatement fuel r = (Ret None, r') -> r' = r.
Proof.
  unfold expressionStatement. intros H.
  bind_inv H. inversion H0; subst; clear H0.
  bind_inv H. destruct (expression_rules_keep_tokens fuel) as (Hin & _).
  destruct (Hin _ _ _ H0) as [Htok Hpos].
  bind_inv H. apply peek_Ret in H1 as [-> ->].
  destruct (is_type _ TokenType.SemiColon).
  - bind_inv H. inversion H.
  - bind_inv H. inversion H; subst. inversion H1; subst.
    apply setPosition_restore; assumption.
Qed.

(** C5. When [additive] returns a node and the next token is not a
    semicolon, [expressionStatement] answers [null] and hands back the very
    reader it was given: same tokens, cursor at the position that
    [getPosition] recorded. In [prog] (with no [int] keyword under the
    cursor, so that [intDeclare] has answered [null]) the iteration then
    continues with [assignmentStatement] on that reader. *)
Theorem expressionStatement_restores_position fuel r node r' :
  additive fuel r = (Ret node, r') ->
  is_type (SimpleTokenReader.peek r') TokenType.SemiColon = false ->
  expressionStatement fuel r = (Ret None, r)
  /\ SimpleTokenReader.getPosition (snd (expressionStatement fuel r))
     = SimpleTokenReader.getPosition r
  /\ (is_type (SimpleTokenReader.peek r) TokenType.Int = false ->
      forall prog_node,
        prog_while (S fuel) prog_node r =
        (do child <- assignmentStatement fuel ;;
         match child with
         | Some child => prog_while fuel (ASTNode.addChild prog_node child)
         | None => throw (Error "unknown statement")
         end) r).
Proof.
  intros Ha Hsemi.
  destruct (expression_rules_keep_tokens fuel) as (Hin & _).
  destruct (Hin r node r' Ha) as [Htok Hpos].
  assert (He : expressionStatement fuel r = (Ret None, r)).
  { unfold expressionStatement, bind at 1. unfold getPosition at 1.
    unfold bind at 1. rewrite Ha. unfold bind at 1, peek at 1. rewrite Hsemi.
    unfold bind, setPosition, ret. f_equal.
    apply setPosition_restore; assumption. }
  split; [exact He|]. split; [rewrite He; reflexivity|].
  intros Hint prog_node. rewrite prog_while_S.
  unfold bind at 1, peek at 1.
  destruct (SimpleTokenReader.peek r) as [tk|] eqn:Hpk.
  - unfold bind at 1. unfold intDeclare, bind at 1, peek at 1. rewrite Hpk, Hint.
    unfold ret at 1. unfold bind at 1. rewrite He. reflexivity.
  - unfold SimpleTokenReader.peek in Hpk.
    apply Nat.ltb_lt in Hpos. rewrite Hpos in Hpk.
    apply lookup_ge_None in Hpk. apply Nat.ltb_lt in Hpos. lia.
Qed.

Lemma expressionStatement_restores_position_witness :
  additive 5 a_eq_3
    = (Ret (Node ASTNodeType.Identifier "a" []),
       {| SimpleTokenReader.tokens := SimpleTokenReader.tokens a_eq_3;
          SimpleTokenReader.pos := 1 |})
  /\ expressionStatement 5 a_eq_3 = (Ret None, a_eq_3)
  /\ fst (assignmentStatement 5 (snd (expressionStatement 5 a_eq_3)))
     = Ret (Some (Node ASTNodeType.AssignmentStmt "a" [Node ASTNodeType.IntLiteral "3" []])).
Proof.
  assert (Ha : additive 5 a_eq_3
    = (Ret (Node ASTNodeType.Identifier "a" []),
       {| SimpleTokenReader.tokens := SimpleTokenReader.tokens a_eq_3;
          SimpleTokenReader.pos := 1 |})) by reflexivity.
  split; [exact Ha|].
  destruct (expressionStatement_restores_position 5 a_eq_3 _ _ Ha) as (He & _);
    [reflexivity|].
  split; [exact He|]. rewrite He. reflexivity.
Defined.

Lemma multiplicative_fuel n m r :
  n <= m -> refines (multiplicative n r) (multiplicative m r).
Proof.
  apply (refines_le multiplicative). intros k s.
  apply (proj1 (proj2 (proj2 (expression_fuel_S k)))).
Qed.

(** C1 (the code departs from it). On [a op1 b op2 c] with operands
    [a], [b], [c] and operators [*] or [/], followed by anything that is not
    [*] or [/], [multiplicative] returns the right-nested tree
    [a op1 (b op2 c)] with the cursor after [c], for every fuel from 6 on:
    the right operand is parsed by [multiplicative] itself, which takes the
    rest of the chain. The left-nested tree [(a op1 b) op2 c] is not what it
    returns. *)
Theorem multiplicative_nests_right a op1 b op2 c rest fuel :
  operand a = true -> operand b = true -> operand c = true ->
  mul_op op1 = true -> mul_op op2 = true ->
  is_type (head rest) TokenType.Star || is_type (head rest) TokenType.Slash = false ->
  6 <= fuel ->
  multiplicative fuel (mul3 a op1 b op2 c rest)
  = (Ret (binary ASTNodeType.Multiplicative op1 (leaf a)
            (binary ASTNodeType.Multiplicative op2 (leaf b) (leaf c))),
     {| SimpleTokenReader.tokens := [a; op1; b; op2; c] ++ rest;
        SimpleTokenReader.pos := 5 |})
  /\ fst (multiplicative fuel (mul3 a op1 b op2 c rest))
     <> Ret (binary ASTNodeType.Multiplicative op2
              (binary ASTNodeType.Multiplicative op1 (leaf a) (leaf b)) (leaf c)).
Proof.
  intros Ha Hb Hc H1 H2 Hrest Hfuel.
  assert (H6 : multiplicative 6 (mul3 a op1 b op2 c rest)
  = (Ret (binary ASTNodeType.Multiplicative op1 (leaf a)
            (binary ASTNodeType.Multiplicative op2 (leaf b) (leaf c))),
     {| SimpleTokenReader.tokens := [a; op1; b; op2; c] ++ rest;
        SimpleTokenReader.pos := 5 |})).
  { destruct a as [ta xa], b as [tb xb], c as [tc xc], op1 as [t1 x1], op2 as [t2 x2].
    destruct ta; try discriminate Ha; destruct tb; try discriminate Hb;
    destruct tc; try discriminate Hc; destruct t1; try discriminate H1;
    destruct t2; try discriminate H2;
    (destruct rest as [|[tr xr] rest]; [reflexivity|]);
    destruct tr; try discriminate Hrest; reflexivity. }
  assert (Hf : multiplicative fuel (mul3 a op1 b op2 c rest) = multiplicative 6 (mul3 a op1 b op2 c rest)).
  { destruct (multiplicative_fuel 6 fuel (mul3 a op1 b op2 c rest) Hfuel) as [Ho|Heq].
    - rewrite H6 in Ho. discriminate.
    - symmetry. exact Heq. }
  rewrite Hf, H6. split; [reflexivity|].
  simpl. unfold binary, leaf. intros E. inversion E.
Qed.

Lemma multiplicative_nests_right_witness :
  multiplicative 6 eight_four_two
  = (Ret (Node ASTNodeType.Multiplicative "/"
            [Node ASTNodeType.IntLiteral "8" [];
             Node ASTNodeType.Multiplicative "/"
               [Node ASTNodeType.IntLiteral "4" []; Node ASTNodeType.IntLiteral "2" []]]),
     {| SimpleTokenReader.tokens := SimpleTokenReader.tokens eight_four_two;
        SimpleTokenReader.pos := 5 |}).
Proof.
  exact (proj1 (multiplicative_nests_right
                  (SimpleToken.mk TokenType.IntLiteral "8")
                  (SimpleToken.mk TokenType.Slash "/")
                  (SimpleToken.mk TokenType.IntLiteral "4")
                  (SimpleToken.mk TokenType.Slash "/")
                  (SimpleToken.mk TokenType.IntLiteral "2")
                  [] 6 eq_refl eq_refl eq_refl eq_refl eq_refl eq_refl (le_n 6))).
Defined.

(** C6. With fuel 7 or more, parsing ["2+3+4;"] gives a program whose
    only statement is the Additive node [+] with children the Additive node
    [+] over the literals 2 and 3, and the literal 4; the statement
    evaluates to 9, which is also what running the script returns and
    prints. *)
Theorem parse_2_plus_3_plus_4 fuel :
  7 <= fuel ->
  let two := Node ASTNodeType.IntLiteral "2" [] in
  let three := Node ASTNodeType.IntLiteral "3" [] in
  let four := Node ASTNodeType.IntLiteral "4" [] in
  let statement :=
    Node ASTNodeType.Additive "+" [Node ASTNodeType.Additive "+" [two; three]; four] in
  parse fuel "2+3+4;" = Ret (Node ASTNodeType.Programm "demo" [statement])
  /\ fst (SimpleScript.evaluate statement "" SimpleScript.new)
     = Ret (Some (JSNumber.Finite 9))
  /\ fst (run_script fuel SimpleScript.new "2+3+4;") = Ret (Some (JSNumber.Finite 9))
  /\ SimpleScript.console (snd (run_script fuel SimpleScript.new "2+3+4;"))
     = [SimpleScript.Result (Some (JSNumber.Finite 9))].
Proof.
  intros Hfuel two three four statement.
  assert (Hp : parse fuel "2+3+4;" = Ret (Node ASTNodeType.Programm "demo" [statement]))
    by (apply (parse_fuel 7 fuel); [exact Hfuel | reflexivity]).
  split; [exact Hp|]. split; [reflexivity|].
  unfold run_script. rewrite Hp. split; reflexivity.
Qed.

Lemma parse_2_plus_3_plus_4_witness :
  fst (run_script 7 SimpleScript.new "2+3+4;") = Ret (Some (JSNumber.Finite 9)).
Proof. exact (proj1 (proj2 (proj2 (parse_2_plus_3_plus_4 7 (le_n 7))))). Defined.

End Parser.

(** * Properties of the evaluator *)

Section Evaluator.
Import JSNumber SimpleScript.

Lemma evaluate_Identifier name children indent :
  evaluate (Node ASTNodeType.Identifier name children) indent =
  (do result <-
     (do known <- has name ;;
      if known then
        do v <- get_or_null name ;;
        match v with
        | Some _ => ret v
        | None => throw (unset_message name)
        end
      else throw (unknown_message name)) ;;
   do _ <- report ASTNodeType.Identifier name indent result ;;
   ret result).
Proof. reflexivity. Qed.

Lemma evaluate_Multiplicative text child3 child4 rest indent :
  evaluate (Node ASTNodeType.Multiplicative text (child3 :: child4 :: rest)) indent =
  (do result <-
     (do value3 <- evaluate child3 (String.append indent tab) ;;
      do value4 <- evaluate child4 (String.append indent tab) ;;
      if String.eqb text "*"
      then ret (Some (mul (of_value value3) (of_value value4)))
      else ret (Some (floor_div (of_value value3) (of_value value4)))) ;;
   do _ <- report ASTNodeType.Multiplicative text indent result ;;
   ret result).
Proof. reflexivity. Qed.

(** C2 (the code departs from it). An Identifier node throws "unknown
    variable" exactly when the name is absent; when the name is present it
    throws "has not been set any value" not only for [null] but for every
    falsy number too, [0] among them, and returns the bound number
    otherwise. The script ["int a = 0; a;"] ends in that throw. *)
Theorem identifier_falsy_is_unset :
  (forall name children indent this,
     fst (evaluate (Node ASTNodeType.Identifier name children) indent this) =
     match variables this !! name with
     | None => Throw (unknown_message name)
     | Some None => Throw (unset_message name)
     | Some (Some x) => if truthy x then Ret (Some x) else Throw (unset_message name)
     end)
  /\ truthy (Finite 0) = false
  /\ fst (run_script 7 SimpleScript.new "int a = 0; a;")
     = Throw (Error "variable a has not been set any value").
Proof.
  split; [|split; reflexivity].
  intros name children indent this. rewrite evaluate_Identifier.
  unfold bind, has, get_or_null.
  destruct (variables this !! name) as [[x|]|] eqn:E; simpl; rewrite ?E;
    try reflexivity.
  destruct (truthy x); simpl; [|reflexivity].
  unfold report. destruct (String.eqb indent ""); reflexivity.
Qed.




(** The script ["8/4/2;"] evaluates to [8/(4/2) = 4]; grouping to the
    left would give [(8/4)/2 = 1]. *)
Lemma run_8_div_4_div_2 :
  fst (run_script 8 SimpleScript.new "8/4/2;") = Ret (Some (Finite 4))
  /\ floor_div (floor_div (Finite 8) (Finite 4)) (Finite 2) = Finite 1.
Proof. split; reflexivity. Qed.
End Evaluator.

(** * More properties of the token reader *)

Section ReaderMore.
Import SimpleTokenReader.

(** X1. With a token under the cursor, [read] returns the token that
    [peek] shows, moves the cursor by one, and [unread] brings the reader
    back to where it was. *)
Theorem read_unread_round_trip (r : SimpleTokenReader.t) :
  pos r < length (tokens r) ->
  (exists tk, fst (read r) = Some tk /\ peek r = Some tk)
  /\ pos (snd (read r)) = S (pos r)
  /\ unread (snd (read r)) = r.
Proof.
  intros H. unfold read, peek, unread.
  destruct (Nat.ltb_spec (pos r) (length (tokens r))) as [_|Hge]; [|lia].
  destruct (lookup_lt_is_Some_2 (tokens r) (pos r) H) as [tk Htk].
  split; [exists tk; simpl; auto|]. split; [reflexivity|].
  simpl. rewrite Nat.sub_0_r. destruct r; reflexivity.
Qed.

Lemma read_unread_round_trip_witness :
  pos (snd (read two_tokens)) = 2 /\ unread (snd (read two_tokens)) = two_tokens.
Proof.
  destruct (read_unread_round_trip two_tokens) as (_ & Hpos & Hback);
    [simpl; lia|].
  split; [exact Hpos | exact Hback].
Defined.

(** X2. A cursor between 0 and the number of tokens stays there under
    [read], [unread] and [setPosition] with any integer, none of which
    changes the token list; at the end [read] and [peek] answer [null] and
    [read] leaves the reader as it is, and at position 0 [unread] does
    nothing. *)
Theorem cursor_stays_in_bounds (r : SimpleTokenReader.t) (p : Z) :
  pos r <= length (tokens r) ->
  (pos (snd (read r)) <= length (tokens r)
   /\ pos (unread r) <= length (tokens r)
   /\ pos (setPosition r p) <= length (tokens r))
  /\ (tokens (snd (read r)) = tokens r /\ tokens (unread r) = tokens r
      /\ tokens (setPosition r p) = tokens r)
  /\ (pos r = length (tokens r) -> read r = (None, r) /\ peek r = None)
  /\ (pos r = 0 -> unread r = r).
Proof.
  intros H. unfold read, peek, unread, setPosition.
  destruct (Nat.ltb_spec (pos r) (length (tokens r)));
    destruct (Nat.ltb_spec 0 (pos r));
    destruct (Z.leb_spec 0 p); destruct (Z.ltb_spec p (Z.of_nat (length (tokens r))));
    simpl; repeat split; intros; try reflexivity; try lia.
Qed.

Lemma cursor_stays_in_bounds_witness :
  read (snd (read two_tokens)) = (None, snd (read two_tokens))
  /\ unread (new [SimpleToken.mk TokenType.SemiColon ";"])
     = new [SimpleToken.mk TokenType.SemiColon ";"].
Proof.
  split.
  - apply (cursor_stays_in_bounds (snd (read two_tokens)) 0); simpl; lia.
  - apply (cursor_stays_in_bounds (new [SimpleToken.mk TokenType.SemiColon ";"]) 0);
      simpl; lia.
Defined.
End ReaderMore.

(** * More properties of the lexer *)

Section LexerMore.
Import SimpleLexer.

Lemma list_ascii_of_string_append s t :
  list_ascii_of_string (String.append s t)
  = (list_ascii_of_string s ++ list_ascii_of_string t)%list.
Proof. induction s as [|c s IH]; simpl; [reflexivity | rewrite IH; reflexivity]. Qed.

Lemma pending_eq this ty tx :
  pending this = SimpleToken.mk ty tx ->
  SimpleToken.type (token this) = ty /\ tokenText this = tx.
Proof. unfold pending, SimpleToken.setText. intros H. inversion H. auto. Qed.

Lemma pending_absorb state this ch :
  pending (snd (absorb state this ch))
  = SimpleToken.mk (SimpleToken.type (token this)) (append_ch (tokenText this) ch).
Proof. reflexivity. Qed.

Ltac ascii_eq :=
  repeat match goal with
  | H : Ascii.eqb _ _ = true |- _ => apply Ascii.eqb_eq in H; subst
  end.

(** [initToken] re-establishes the invariant from any instance whose
    tokens are well shaped and whose pending token, if any, is. *)
Lemma initToken_inv this ch :
  Forall (fun tk => token_shape tk = true) (tokens this) ->
  (tokenText this = "" \/ token_shape (pending this) = true) ->
  lexer_inv (fst (initToken this ch)) (snd (initToken this ch)).
Proof.
  intros Hf Hp. unfold initToken.
  set (this' := if 0 <? String.length (tokenText this) then _ else this).
  assert (H' : Forall (fun tk => token_shape tk = true) (tokens this')
               /\ tokenText this' = "").
  { subst this'. destruct (tokenText this) as [|c s] eqn:E; simpl; [auto|].
    split; [|reflexivity]. apply Forall_app. split; [assumption|].
    constructor; [|constructor]. destruct Hp as [Hp|Hp]; [discriminate|].
    unfold pending in Hp. rewrite E in Hp. exact Hp. }
  clearbody this'. destruct H' as [Hf' Hb].
  unfold lexer_inv, pending, start.
  repeat match goal with
  | |- context [if ?c then _ else _] =>
      lazymatch c with
      | isAlpha _ => destruct c eqn:?
      | isDigit _ => destruct c eqn:?
      | Ascii.eqb _ _ => destruct c eqn:?
      end
  end; ascii_eq; simpl; rewrite ?Hb; simpl; split; auto;
  unfold token_shape, all_digits; simpl;
  repeat match goal with H : _ = true |- _ => rewrite H end; auto.
Qed.

Lemma shape_of_pending this ty tx :
  pending this = SimpleToken.mk ty tx ->
  token_shape (SimpleToken.mk ty tx) = true ->
  tokenText this = "" \/ token_shape (pending this) = true.
Proof. intros -> H. right. exact H. Qed.

Lemma id_shape_absorb buf ch :
  token_shape (SimpleToken.mk TokenType.Identifier buf) = true ->
  token_shape (SimpleToken.mk TokenType.Identifier (append_ch buf ch)) = true.
Proof. destruct buf; simpl; [discriminate | auto]. Qed.

Lemma lit_shape_absorb buf ch :
  isDigit ch = true ->
  token_shape (SimpleToken.mk TokenType.IntLiteral buf) = true ->
  token_shape (SimpleToken.mk TokenType.IntLiteral (append_ch buf ch)) = true.
Proof.
  unfold token_shape, all_digits, append_ch. simpl. intros Hd H.
  apply andb_true_iff in H as [Hne Hall]. apply andb_true_iff. split.
  - destruct buf; [discriminate | reflexivity].
  - rewrite list_ascii_of_string_append, forallb_app, Hall. simpl. rewrite Hd. reflexivity.
Qed.

Lemma pending_typed this ty :
  SimpleToken.getType (pending this) = ty ->
  pending this = SimpleToken.mk ty (tokenText this).
Proof. unfold pending, SimpleToken.setText, SimpleToken.getType. simpl. intros ->. reflexivity. Qed.

Lemma step_inv state this ch :
  lexer_inv state this ->
  lexer_inv (fst (step state this ch)) (snd (step state this ch)).
Proof.
  intros [Hf Hs]. destruct state; simpl in Hs |- *; try contradiction;
  repeat match goal with
  | |- context [if ?c then _ else _] => destruct c eqn:?
  end;
  try (apply initToken_inv; [exact Hf|]);
  try (left; exact Hs);
  try (eapply shape_of_pending; [exact Hs | reflexivity]);
  try (right; apply Hs).
  all: unfold lexer_inv; cbn [absorb fst snd tokens]; try (split; [exact Hf|]).
  all: unfold pending, retype, SimpleToken.setText, SimpleToken.setType,
         SimpleToken.getType in *;
       cbn [token tokenText tokens SimpleToken.type SimpleToken.text] in *.
  all: try match type of Hs with _ /\ _ => destruct Hs as [Hty Hsh] end.
  all: try match type of Hs with _ = _ => injection Hs as Hty Htx end.
  all: ascii_eq.
  all: rewrite ?Hty, ?Htx.
  all: try reflexivity.
  all: try (right; reflexivity).
  all: try (split; [reflexivity|]).
  all: try (apply id_shape_absorb; reflexivity).
  all: try (apply id_shape_absorb; rewrite <- Hty; exact Hsh).
  all: try (apply lit_shape_absorb; [assumption | rewrite <- Hty; exact Hsh]).
Qed.

Lemma run_inv code : forall state this,
  lexer_inv state this ->
  lexer_inv (fst (run state this code)) (snd (run state this code)).
Proof.
  induction code as [|ch rest IH]; simpl; intros state this H; [exact H|].
  pose proof (step_inv state this ch H) as Hs.
  destruct (step state this ch) as [state' this']. apply IH. exact Hs.
Qed.

Lemma lexer_inv_pending state this :
  lexer_inv state this ->
  tokenText this = "" \/ token_shape (pending this) = true.
Proof.
  intros [_ Hs]. destruct state; simpl in Hs; try contradiction; auto;
    try (right; rewrite Hs; reflexivity); right; apply Hs.
Qed.

Lemma tokenize_shapes this code :
  Forall (fun tk => token_shape tk = true)
         (SimpleTokenReader.tokens (fst (tokenize this code))).
Proof.
  unfold tokenize.
  pose proof (run_inv (list_ascii_of_string code) DfaState.Initial SimpleLexer.new) as Hr.
  change {| tokenText := ""; tokens := []; token := SimpleToken.new |} with SimpleLexer.new.
  destruct (run DfaState.Initial SimpleLexer.new (list_ascii_of_string code)) as [st l].
  assert (H0 : lexer_inv DfaState.Initial SimpleLexer.new)
    by (split; [constructor | reflexivity]).
  specialize (Hr H0). simpl in Hr.
  pose proof (lexer_inv_pending _ _ Hr) as Hp. destruct Hr as [Hf _].
  destruct (0 <? String.length (tokenText l)); [|exact Hf].
  destruct (lastChar (list_ascii_of_string code)) as [ch|]; [|exact Hf].
  apply (initToken_inv l ch Hf Hp).
Qed.

(** X3. Every token that [tokenize] returns has a text of the shape of
    its kind: a literal is a non-empty run of digits, an identifier starts
    with a letter, the keyword is ["int"], and every operator, parenthesis
    and semicolon token carries exactly its own spelling ([">="] for
    GE). No token has an empty text. *)
Theorem tokenize_token_shapes (this : SimpleLexer.t) (code : string) :
  Forall (fun tk => token_shape tk = true /\ SimpleToken.getText tk <> "")
         (SimpleTokenReader.tokens (fst (tokenize this code))).
Proof.
  eapply Forall_impl; [apply tokenize_shapes|]. intros [ty tx] Htk.
  split; [exact Htk|]. simpl. intros ->. destruct ty; discriminate Htk.
Qed.

Lemma held_absorb state this ch :
  held (snd (absorb state this ch)) = (held this ++ [ch])%list.
Proof.
  unfold held, absorb, append_ch. simpl.
  rewrite list_ascii_of_string_append, app_assoc. reflexivity.
Qed.

Lemma held_retype this ty : held (retype this ty) = held this.
Proof. reflexivity. Qed.

(** [initToken] keeps what the instance holds and adds [ch] exactly when
    [ch] starts a token. *)
Lemma held_initToken this ch :
  held (snd (initToken this ch))
  = (held this ++ if recognized ch then [ch] else [])%list.
Proof.
  unfold initToken.
  set (this' := if 0 <? String.length (tokenText this) then _ else this).
  assert (H' : held this' = held this /\ tokenText this' = "").
  { subst this'. destruct (tokenText this) as [|c s] eqn:E; simpl; [auto|].
    split; [|reflexivity]. unfold held. simpl.
    rewrite map_app, concat_app. simpl. rewrite E, !app_nil_r. reflexivity. }
  clearbody this'. destruct H' as [Hh Hb]. rewrite <- Hh.
  assert (Hs : forall ty, held (start this' ty ch) = (held this' ++ [ch])%list).
  { intros ty. unfold held, start, append_ch. simpl.
    rewrite list_ascii_of_string_append, app_assoc. reflexivity. }
  unfold recognized.
  repeat match goal with
  | |- context [if ?c then _ else _] =>
      lazymatch c with
      | isAlpha _ => destruct c eqn:?
      | isDigit _ => destruct c eqn:?
      | Ascii.eqb _ _ => destruct c eqn:?
      end
  end; simpl; rewrite ?Hs, ?app_nil_r; reflexivity.
Qed.

Lemma blank_not_alnum ch : isBlank ch = true -> isAlpha ch || isDigit ch = false.
Proof.
  intros H. pose proof (isBlank_unrecognized ch H) as Hr. unfold recognized in Hr.
  repeat match goal with
  | H : (_ || _) = false |- _ => apply orb_false_elim in H; destruct H
  end.
  apply orb_false_intro; assumption.
Qed.

(** One step of the automaton keeps every character it holds, takes in
    the recognised ones and lets through, besides them, only what is not a
    blank. *)
Lemma step_held state this ch :
  state <> DfaState.Int -> held_step this ch (step state this ch).
Proof.
  intros Hst.
  assert (Hi : forall l, held l = held this -> held_step this ch (initToken l ch)).
  { intros l Hl. unfold held_step. rewrite <- Hl. clear Hl. split; [|split].
    - unfold initToken.
      repeat match goal with
      | |- context [if ?c then _ else _] =>
          lazymatch c with
          | isAlpha _ => destruct c
          | isDigit _ => destruct c
          | Ascii.eqb _ _ => destruct c
          end
      end; discriminate.
    - rewrite held_initToken, List.filter_app. simpl.
      destruct (recognized ch) eqn:E; simpl; rewrite ?E; reflexivity.
    - intros H. simpl. rewrite held_initToken. apply Forall_app. split; [exact H|].
      destruct (recognized ch) eqn:E; constructor; [|constructor].
      destruct (isBlank ch) eqn:Eb; [|reflexivity].
      apply isBlank_unrecognized in Eb. congruence. }
  assert (Ha : forall st l, st <> DfaState.Int -> held l = held this ->
             isBlank ch = false -> held_step this ch (absorb st l ch)).
  { intros st l Hne Hl Hb. split; [exact Hne|]. rewrite held_absorb, Hl. split.
    - apply List.filter_app.
    - intros H. apply Forall_app. split; [exact H|]. constructor; [exact Hb | constructor]. }
  assert (Hn : isBlank ch = true -> isAlpha ch = false /\ isDigit ch = false).
  { intros Hb. apply blank_not_alnum in Hb. apply orb_false_elim in Hb. exact Hb. }
  assert (Hc : forall c : ascii, Ascii.eqb ch c = true -> isBlank c = false -> isBlank ch = false).
  { intros c Hc Hb. apply Ascii.eqb_eq in Hc. subst. exact Hb. }
  destruct state; try contradiction; cbn [step];
  repeat match goal with
  | |- held_step _ _ (if ?c then _ else _) => destruct c eqn:?
  end; try (apply Hi; reflexivity);
  try (apply Ha; [discriminate | reflexivity |]);
  try (destruct (isBlank ch) eqn:Eb; [|reflexivity]; destruct (Hn eq_refl) as [Hx Hy];
       rewrite Hx, Hy in *; discriminate);
  try (eapply Hc; [eassumption | reflexivity]); try reflexivity.
Qed.

Lemma run_held code : forall state this,
  state <> DfaState.Int ->
  List.filter recognized (held (snd (run state this code)))
  = (List.filter recognized (held this) ++ List.filter recognized code)%list
  /\ (Forall (fun c => isBlank c = false) (held this) ->
      Forall (fun c => isBlank c = false) (held (snd (run state this code)))).
Proof.
  induction code as [|ch rest IH]; intros state this Hst.
  - simpl. rewrite app_nil_r. auto.
  - cbn [run]. destruct (step_held state this ch Hst) as (Hne & Hf & Hb).
    destruct (step state this ch) as [state' this']. cbn [fst snd] in *.
    destruct (IH state' this' Hne) as [IHf IHb]. split.
    + rewrite IHf, Hf, <- app_assoc. f_equal. simpl.
      destruct (recognized ch); reflexivity.
    + intros H. apply IHb, Hb, H.
Qed.

Lemma last_cons_Some {A} (x : A) (l : list A) : exists y, last (x :: l) = Some y.
Proof.
  revert x. induction l as [|z l IH]; intros x; [exists x; reflexivity|].
  destruct (IH z) as [y Hy]. exists y. exact Hy.
Qed.

(** The close-out moves the buffer into the token list. *)
Lemma closeout_chars l ch :
  tokenText l <> "" ->
  token_chars (SimpleTokenReader.new (tokens (snd (initToken l ch)))) = held l.
Proof.
  intros Hne. unfold initToken.
  destruct (tokenText l) as [|c s] eqn:E; [contradiction|].
  cbn [String.length Nat.ltb Nat.leb]. unfold token_chars, held. rewrite E.
  repeat match goal with
  | |- context [if ?c then _ else _] => destruct c
  end; cbn [snd start tokens SimpleTokenReader.new SimpleTokenReader.tokens];
  rewrite map_app, concat_app; simpl; rewrite app_nil_r; reflexivity.
Qed.

Lemma tokenize_chars this code :
  token_chars (fst (tokenize this code))
  = held (snd (run DfaState.Initial SimpleLexer.new (list_ascii_of_string code))).
Proof.
  unfold tokenize.
  change {| tokenText := ""; tokens := []; token := SimpleToken.new |} with SimpleLexer.new.
  destruct (list_ascii_of_string code) as [|c cs] eqn:Ec; [reflexivity|].
  destruct (last_cons_Some c cs) as [ch Hl]. unfold lastChar. rewrite Hl.
  destruct (run DfaState.Initial SimpleLexer.new (c :: cs)) as [st l]. cbn [fst snd].
  destruct (tokenText l) as [|c' s] eqn:E.
  - simpl. unfold token_chars, held. rewrite E. simpl. rewrite app_nil_r. reflexivity.
  - cbn [String.length Nat.ltb Nat.leb]. apply closeout_chars. rewrite E. discriminate.
Qed.

(** One step of the automaton takes the character in behind what the
    instance holds, or leaves what it holds as it is. *)
Lemma step_kept state this ch :
  held (snd (step state this ch)) = (held this ++ [ch])%list
  \/ held (snd (step state this ch)) = held this.
Proof.
  destruct state; cbn [step];
  repeat match goal with
  | |- context [if ?c then _ else _] =>
      lazymatch c with
      | recognized _ => fail
      | _ => destruct c
      end
  end;
  rewrite ?held_absorb, ?held_initToken, ?held_retype;
  try (destruct (recognized ch); rewrite ?app_nil_r); auto.
Qed.

Lemma run_kept code : forall state this,
  exists kept,
    held (snd (run state this code)) = (held this ++ kept)%list
    /\ sublist kept code.
Proof.
  induction code as [|ch rest IH]; intros state this.
  - exists []. rewrite app_nil_r. split; [reflexivity | constructor].
  - cbn [run]. pose proof (step_kept state this ch) as Hs.
    destruct (step state this ch) as [state' this']. cbn [snd] in Hs.
    destruct (IH state' this') as (kept & Hk & Hsub). rewrite Hk.
    destruct Hs as [Hs|Hs]; rewrite Hs.
    + exists (ch :: kept). rewrite <- app_assoc. split; [reflexivity|].
      apply sublist_skip. exact Hsub.
    + exists kept. split; [reflexivity|]. apply sublist_cons. exact Hsub.
Qed.

(** X4. The texts of the tokens, put end to end, are the input with
    characters removed: a subsequence of the input, in the order of the
    input. No character that starts a token is among the removed ones:
    filtering both by [recognized] gives the same string, for every input.
    No blank is ever part of a token text. *)
Theorem tokenize_keeps_recognized (this : SimpleLexer.t) (code : string) :
  sublist (token_chars (fst (tokenize this code))) (list_ascii_of_string code)
  /\ List.filter recognized (token_chars (fst (tokenize this code)))
     = List.filter recognized (list_ascii_of_string code)
  /\ Forall (fun c => isBlank c = false) (token_chars (fst (tokenize this code))).
Proof.
  rewrite tokenize_chars.
  destruct (run_held (list_ascii_of_string code) DfaState.Initial SimpleLexer.new)
    as [Hf Hb]; [discriminate|].
  destruct (run_kept (list_ascii_of_string code) DfaState.Initial SimpleLexer.new)
    as (kept & Hk & Hsub).
  split; [rewrite Hk; exact Hsub|].
  split; [exact Hf | apply Hb; constructor].
Qed.

Lemma with_tokens_nil l : with_tokens [] l = l.
Proof. destruct l; reflexivity. Qed.

Lemma closed_with_tokens pre l : closed (with_tokens pre l) = (pre ++ closed l)%list.
Proof.
  unfold closed, pending, with_tokens. cbn [tokenText tokens token].
  destruct (0 <? String.length (tokenText l)); rewrite ?app_assoc; reflexivity.
Qed.

Lemma initToken_frame pre l ch :
  initToken (with_tokens pre l) ch
  = (fst (initToken l ch), with_tokens pre (snd (initToken l ch))).
Proof.
  unfold initToken, with_tokens. cbn [tokenText tokens token].
  destruct (0 <? String.length (tokenText l));
  repeat match goal with
  | |- context [if ?c then _ else _] => destruct c
  end; cbn [fst snd start tokenText tokens token]; rewrite <- ?app_assoc; reflexivity.
Qed.

Lemma step_frame pre state l ch :
  step state (with_tokens pre l) ch
  = (fst (step state l ch), with_tokens pre (snd (step state l ch))).
Proof.
  destruct state; cbn [step];
  repeat match goal with
  | |- context [if ?c then _ else _] => destruct c
  end;
  try (change (retype (with_tokens pre l) TokenType.Int)
         with (with_tokens pre (retype l TokenType.Int)));
  try apply initToken_frame; reflexivity.
Qed.

(** Tokens already emitted are carried along untouched. *)
Lemma run_frame pre code : forall state l,
  run state (with_tokens pre l) code
  = (fst (run state l code), with_tokens pre (snd (run state l code))).
Proof.
  induction code as [|ch rest IH]; intros state l; [reflexivity|].
  cbn [run]. rewrite step_frame.
  destruct (step state l ch) as [state' l']. cbn [fst snd]. apply IH.
Qed.

Lemma run_app code1 code2 state l :
  run state l (code1 ++ code2)
  = run (fst (run state l code1)) (snd (run state l code1)) code2.
Proof.
  revert state l. induction code1 as [|ch rest IH]; intros state l; [reflexivity|].
  cbn [app run]. destruct (step state l ch) as [state' l']. apply IH.
Qed.

Lemma initToken_idle l ch :
  (tokenText l = "" -> token l = SimpleToken.new) ->
  idle_inv (fst (initToken l ch)) (snd (initToken l ch)).
Proof.
  intros Hnew. unfold initToken.
  destruct (tokenText l) as [|c s] eqn:E; cbn [String.length Nat.ltb Nat.leb];
  repeat match goal with
  | |- context [if ?c then _ else _] => destruct c
  end;
  unfold idle_inv; cbn [fst snd start tokenText token append_ch String.append];
  (split; [discriminate|]); split; intros H; try discriminate; try contradiction;
  rewrite ?E; auto; try discriminate.
Qed.

Lemma step_idle state l ch :
  idle_inv state l -> idle_inv (fst (step state l ch)) (snd (step state l ch)).
Proof.
  intros (Hint & Hinit & Hbusy).
  assert (Hi : forall l', tokenText l' = tokenText l ->
             (tokenText l = "" -> token l' = SimpleToken.new) ->
             idle_inv (fst (initToken l' ch)) (snd (initToken l' ch))).
  { intros l' Ht Hn. apply initToken_idle. rewrite Ht. exact Hn. }
  assert (Ha : forall st, st <> DfaState.Int -> st <> DfaState.Initial ->
             forall l', idle_inv (fst (absorb st l' ch)) (snd (absorb st l' ch))).
  { intros st H1 H2 l'. unfold idle_inv, absorb, append_ch. cbn [fst snd tokenText].
    split; [exact H1|]. split; [contradiction|]. intros _.
    destruct (tokenText l'); discriminate. }
  destruct state; try contradiction; cbn [step];
  repeat match goal with
  | |- context [if ?c then _ else _] => destruct c
  end;
  try (apply Ha; discriminate);
  try (apply Hi; [reflexivity|]; intros He;
       first [ apply Hinit; reflexivity
             | exfalso; apply Hbusy; [discriminate | exact He] ]).
Qed.

Lemma run_idle code : forall state l,
  idle_inv state l ->
  idle_inv (fst (run state l code)) (snd (run state l code)).
Proof.
  induction code as [|ch rest IH]; intros state l H; [exact H|].
  cbn [run]. pose proof (step_idle state l ch H) as Hs.
  destruct (step state l ch) as [state' l']. apply IH. exact Hs.
Qed.

Lemma idle_new : idle_inv DfaState.Initial SimpleLexer.new.
Proof. split; [discriminate|]. split; [auto | intros H; contradiction]. Qed.

(** After a blank the automaton is in [Initial], with what was in
    progress pushed. *)
Lemma step_blank state l b :
  isBlank b = true -> idle_inv state l ->
  fst (step state l b) = DfaState.Initial
  /\ tokenText (snd (step state l b)) = ""
  /\ token (snd (step state l b)) = SimpleToken.new
  /\ (state <> DfaState.Id_int3 -> tokens (snd (step state l b)) = closed l).
Proof.
  intros Hb Hidle.
  pose proof (step_idle state l b Hidle) as Hnext.
  assert (Hr : recognized b = false) by (apply isBlank_unrecognized; exact Hb).
  assert (Hn : isAlpha b || isDigit b = false) by (apply blank_not_alnum; exact Hb).
  assert (Hinit : forall l', fst (initToken l' b) = DfaState.Initial
                             /\ tokens (snd (initToken l' b)) = closed l').
  { intros l'. unfold initToken, closed, pending. unfold recognized in Hr.
    repeat match goal with
    | H : (_ || _) = false |- _ => apply orb_false_elim in H; destruct H
    end.
    repeat match goal with H : _ = false |- _ => rewrite H; clear H end.
    destruct (0 <? String.length (tokenText l')); split; reflexivity. }
  assert (Hstate : fst (step state l b) = DfaState.Initial
                   /\ (state <> DfaState.Id_int3 -> tokens (snd (step state l b)) = closed l)).
  { destruct Hidle as (Hint & _). apply orb_false_elim in Hn as [Ha Hd].
    assert (Hne : forall c : ascii, isBlank c = false -> Ascii.eqb b c = false).
    { intros c Hc. destruct (Ascii.eqb b c) eqn:E; [|reflexivity].
      apply Ascii.eqb_eq in E. subst. congruence. }
    destruct state; try contradiction; cbn [step];
      rewrite ?Ha, ?Hd, ?Hb, ?(Hne "="%char eq_refl), ?(Hne "n"%char eq_refl),
        ?(Hne "t"%char eq_refl); cbn [orb];
      (split; [apply Hinit | intros Hx; try contradiction; apply Hinit]). }
  destruct Hstate as [Hs Hc]. destruct Hnext as (_ & Hi & _).
  destruct (Hi Hs) as [Ht Hk]. auto.
Qed.

Lemma tokenize_lex this code :
  SimpleTokenReader.tokens (fst (tokenize this code)) = lex (list_ascii_of_string code).
Proof.
  unfold tokenize, lex.
  change {| tokenText := ""; tokens := []; token := SimpleToken.new |} with SimpleLexer.new.
  assert (Hc : forall l ch, tokenText l <> "" -> tokens (snd (initToken l ch)) = closed l).
  { intros l ch Hne. unfold initToken, closed, pending.
    destruct (tokenText l) as [|c s]; [contradiction|].
    cbn [String.length Nat.ltb Nat.leb].
    repeat match goal with
    | |- context [if ?c then _ else _] => destruct c
    end; reflexivity. }
  destruct (list_ascii_of_string code) as [|c cs] eqn:Ec; [reflexivity|].
  destruct (last_cons_Some c cs) as [ch Hl]. unfold lastChar. rewrite Hl.
  destruct (run DfaState.Initial SimpleLexer.new (c :: cs)) as [st l]. cbn [fst snd].
  unfold closed at 1. destruct (tokenText l) as [|c' s] eqn:E.
  - reflexivity.
  - cbn [String.length Nat.ltb Nat.leb]. cbn [SimpleTokenReader.new SimpleTokenReader.tokens].
    rewrite Hc by (rewrite E; discriminate). unfold closed. rewrite E. reflexivity.
Qed.

(** A blank after a pending ["int"] emits the keyword; the end of the
    input after it emits an identifier. *)
Lemma step_blank_int l b :
  isBlank b = true -> lexer_inv DfaState.Id_int3 l ->
  tokens (snd (step DfaState.Id_int3 l b))
  = (tokens l ++ [SimpleToken.mk TokenType.Int "int"])%list
  /\ closed l = (tokens l ++ [SimpleToken.mk TokenType.Identifier "int"])%list.
Proof.
  intros Hb [_ Hp]. cbn [step]. rewrite Hb.
  assert (Hr : recognized b = false) by (apply isBlank_unrecognized; exact Hb).
  unfold pending in Hp. destruct l as [tx toks [ty t0]].
  cbn [tokenText token tokens SimpleToken.setText SimpleToken.type] in *.
  injection Hp as Hty Htx. subst ty tx.
  split.
  - unfold initToken, retype. cbn [tokenText tokens token String.length Nat.ltb Nat.leb].
    unfold recognized in Hr.
    repeat match goal with
    | H : (_ || _) = false |- _ => apply orb_false_elim in H; destruct H
    end.
    repeat match goal with H : _ = false |- _ => rewrite H; clear H end.
    reflexivity.
  - reflexivity.
Qed.

Lemma lexer_inv_new : lexer_inv DfaState.Initial SimpleLexer.new.
Proof. split; [constructor | reflexivity]. Qed.

(** X23. A blank is a token boundary: the tokens of [before], a blank
    and [after] are the tokens of [before] with the blank, followed by the
    tokens of [after] on its own. The blank itself adds nothing to the
    tokens of [before] unless [before] ends in a pending ["int"], which the
    blank turns into the keyword, while the end of the input leaves it an
    identifier. *)
Theorem blank_separates_tokens this before b after :
  isBlank b = true ->
  SimpleTokenReader.tokens
    (fst (tokenize this (String.append before (String b after))))
  = (SimpleTokenReader.tokens (fst (tokenize this (String.append before (String b ""))))
     ++ SimpleTokenReader.tokens (fst (tokenize this after)))%list
  /\ (fst (run DfaState.Initial SimpleLexer.new (list_ascii_of_string before))
        <> DfaState.Id_int3 ->
      SimpleTokenReader.tokens (fst (tokenize this (String.append before (String b ""))))
      = SimpleTokenReader.tokens (fst (tokenize this before)))
  /\ (fst (run DfaState.Initial SimpleLexer.new (list_ascii_of_string before))
        = DfaState.Id_int3 ->
      SimpleTokenReader.tokens (fst (tokenize this (String.append before (String b ""))))
      = (tokens (snd (run DfaState.Initial SimpleLexer.new (list_ascii_of_string before)))
         ++ [SimpleToken.mk TokenType.Int "int"])%list
      /\ SimpleTokenReader.tokens (fst (tokenize this before))
         = (tokens (snd (run DfaState.Initial SimpleLexer.new (list_ascii_of_string before)))
            ++ [SimpleToken.mk TokenType.Identifier "int"])%list).
Proof.
  intros Hb. rewrite !tokenize_lex, !list_ascii_of_string_append.
  cbn [list_ascii_of_string]. unfold lex.
  change (b :: list_ascii_of_string after) with ([b] ++ list_ascii_of_string after)%list.
  rewrite !run_app. cbn [run].
  pose proof (run_idle (list_ascii_of_string before) DfaState.Initial SimpleLexer.new idle_new)
    as Hidle.
  pose proof (run_inv (list_ascii_of_string before) DfaState.Initial SimpleLexer.new
                lexer_inv_new) as Hinv.
  destruct (run DfaState.Initial SimpleLexer.new (list_ascii_of_string before)) as [st l].
  cbn [fst snd] in *.
  destruct (step_blank st l b Hb Hidle) as (Hs & Ht & Hk & Hc).
  assert (Hint : st = DfaState.Id_int3 ->
            tokens (snd (step st l b))
            = (tokens l ++ [SimpleToken.mk TokenType.Int "int"])%list
            /\ closed l = (tokens l ++ [SimpleToken.mk TokenType.Identifier "int"])%list).
  { intros ->. apply step_blank_int; assumption. }
  destruct (step st l b) as [st' l']. cbn [fst snd] in *. subst st'.
  assert (Hl' : l' = with_tokens (tokens l') SimpleLexer.new).
  { destruct l'. cbn in *. subst. unfold with_tokens. cbn. rewrite app_nil_r. reflexivity. }
  assert (Hcl : closed l' = tokens l').
  { unfold closed. rewrite Ht. reflexivity. }
  split; [|split].
  - rewrite Hl' at 1. rewrite run_frame. cbn [fst snd].
    rewrite closed_with_tokens, Hcl. reflexivity.
  - intros Hne. rewrite Hcl. apply Hc. exact Hne.
  - intros He. rewrite Hcl. apply Hint. exact He.
Qed.

Lemma blank_separates_tokens_witness :
  isBlank " " = true
  /\ SimpleTokenReader.tokens (fst (tokenize SimpleLexer.new "age >= 45"))
     = (SimpleTokenReader.tokens (fst (tokenize SimpleLexer.new "age "))
        ++ SimpleTokenReader.tokens (fst (tokenize SimpleLexer.new ">= 45")))%list.
Proof.
  split; [reflexivity|].
  exact (proj1 (blank_separates_tokens SimpleLexer.new "age" " " ">= 45" eq_refl)).
Defined.
End LexerMore.

(** * More properties of the parser *)

Section ParserMore.
Import SimpleParser.

Ltac bind_inv H :=
  let a := fresh "a" in let r := fresh "r" in
  let H1 := fresh "H" in
  apply bind_Ret in H; destruct H as (a & r & H1 & H).

Lemma read_Ret r tk r' :
  read r = (Ret tk, r') ->
  SimpleTokenReader.pos r < length (SimpleTokenReader.tokens r) ->
  SimpleTokenReader.tokens r' = SimpleTokenReader.tokens r
  /\ SimpleTokenReader.pos r' = S (SimpleTokenReader.pos r).
Proof.
  unfold read, SimpleTokenReader.read. intros H Hlt.
  destruct (Nat.ltb_spec (SimpleTokenReader.pos r) (length (SimpleTokenReader.tokens r)));
    [|lia].
  inversion H; subst. simpl. auto.
Qed.

Lemma orb_is_type_peek r t1 t2 :
  is_type (SimpleTokenReader.peek r) t1 || is_type (SimpleTokenReader.peek r) t2 = true ->
  SimpleTokenReader.pos r < length (SimpleTokenReader.tokens r).
Proof. intros H. apply orb_true_iff in H as [H|H]; eapply is_type_peek; exact H. Qed.

Ltac reader_facts :=
  repeat match goal with
  | H : peek _ = (Ret _, _) |- _ => apply peek_Ret in H as [-> ->]
  | H : text_of _ _ = (Ret _, _) |- _ => apply text_of_Ret in H; subst
  | H : read ?r = (Ret _, _), Hlt : SimpleTokenReader.pos ?r < _ |- _ =>
      apply (fun H => read_Ret _ _ _ H Hlt) in H; destruct H
  | H : ret _ _ = (Ret _, _) |- _ => inversion H; subst; clear H
  | H : throw _ _ = (Ret _, _) |- _ => discriminate H
  | H : (match ?a with Some _ => _ | None => _ end) _ = (Ret _, _) |- _ =>
      destruct a; [|discriminate H]
  | H : moved_on _ _ |- _ => destruct H as (? & ? & ?)
  | H : moved_or_not _ _ |- _ => destruct H as (? & ? & ?)
  end.

Ltac list_arith :=
  repeat match goal with
  | H : SimpleTokenReader.tokens _ = SimpleTokenReader.tokens _ |- _ =>
      apply (f_equal (@length Token)) in H
  end;
  simpl in *; lia.

(** What the expression rules have done when they return. *)
Lemma expression_rules_munch fuel :
  (forall r x r', additive fuel r = (Ret x, r') ->
     moved_on r r'
     /\ no_add_op (SimpleTokenReader.peek r') /\ no_mul_op (SimpleTokenReader.peek r'))
  /\ (forall c r x r', additive_while fuel c r = (Ret x, r') ->
        moved_or_not r r'
        /\ no_add_op (SimpleTokenReader.peek r')
        /\ (no_mul_op (SimpleTokenReader.peek r) -> no_mul_op (SimpleTokenReader.peek r')))
  /\ (forall r x r', multiplicative fuel r = (Ret x, r') ->
        moved_on r r' /\ no_mul_op (SimpleTokenReader.peek r'))
  /\ (forall c r x r', multiplicative_while fuel c r = (Ret x, r') ->
        moved_or_not r r' /\ no_mul_op (SimpleTokenReader.peek r'))
  /\ (forall r x r', primary fuel r = (Ret x, r') -> moved_on r r').
Proof.
  induction fuel as [|n (IHa & IHaw & IHm & IHmw & IHp)].
  - repeat split; intros; discriminate.
  - split; [|split; [|split; [|split]]].
    + intros r x r' H. rewrite additive_S in H. bind_inv H.
      apply IHm in H0 as (Hm & Hno). apply IHaw in H as (Hw & Hadd & Hmul).
      reader_facts. repeat split; auto; try congruence; list_arith.
    + intros c r x r' H. rewrite additive_while_S in H. bind_inv H. reader_facts.
      destruct (_ || _) eqn:E.
      * pose proof (orb_is_type_peek _ _ _ E) as Hlt.
        bind_inv H. bind_inv H. bind_inv H. reader_facts.
        apply IHm in H1 as (Hm & Hno). apply IHaw in H as (Hw & Hadd & Hmul).
        reader_facts. repeat split; auto; try congruence; list_arith.
      * reader_facts. repeat split; auto; lia.
    + intros r x r' H. rewrite multiplicative_S in H. bind_inv H.
      apply IHp in H0. apply IHmw in H as (Hw & Hmul).
      reader_facts. repeat split; auto; try congruence; list_arith.
    + intros c r x r' H. rewrite multiplicative_while_S in H. bind_inv H. reader_facts.
      destruct (_ || _) eqn:E.
      * pose proof (orb_is_type_peek _ _ _ E) as Hlt.
        bind_inv H. bind_inv H. bind_inv H. reader_facts.
        apply IHm in H1 as (Hm & Hno). apply IHmw in H as (Hw & Hmul).
        reader_facts. repeat split; auto; try congruence; list_arith.
      * reader_facts. repeat split; auto; lia.
    + intros r x r' H. rewrite primary_S in H. bind_inv H. reader_facts. bind_inv H.
      destruct (is_type _ TokenType.IntLiteral) eqn:E1;
        [|destruct (is_type _ TokenType.Identifier) eqn:E2;
          [|destruct (is_type _ TokenType.LeftParen) eqn:E3]].
      * apply is_type_peek in E1. bind_inv H0. bind_inv H0. reader_facts.
        repeat split; auto; list_arith.
      * apply is_type_peek in E2. bind_inv H0. bind_inv H0. reader_facts.
        repeat split; auto; list_arith.
      * apply is_type_peek in E3. bind_inv H0. bind_inv H0. bind_inv H0. reader_facts.
        apply IHa in H2 as (Ha & _).
        destruct (is_type _ TokenType.RightParen) eqn:E4; [|discriminate].
        apply is_type_peek in E4. bind_inv H0. reader_facts.
        reader_facts.
        repeat split; auto; try congruence; list_arith.
      * reader_facts.
Qed.

(** X5. Whenever [additive], [multiplicative] or [primary] returns a
    node, whatever the fuel, the token list is untouched, at least one token
    has been consumed, and the cursor is at most one past the last token. *)
Theorem expression_rules_consume fuel r x r' :
  additive fuel r = (Ret x, r')
  \/ multiplicative fuel r = (Ret x, r')
  \/ primary fuel r = (Ret x, r') ->
  moved_on r r'.
Proof.
  destruct (expression_rules_munch fuel) as (Ha & _ & Hm & _ & Hp).
  intros [H|[H|H]]; [apply Ha in H | apply Hm in H | apply Hp in H]; tauto.
Qed.

Lemma expression_rules_consume_witness :
  moved_on a_eq_3 (snd (additive 5 a_eq_3)).
Proof.
  apply (expression_rules_consume 5 a_eq_3 (Node ASTNodeType.Identifier "a" [])).
  left. reflexivity.
Defined.

(** X6. When [additive] returns, the token under the cursor, if any, is
    none of [+ - * /]; when [multiplicative] returns, it is neither [*] nor
    [/]: each rule takes every operator of its level that it can reach. *)
Theorem expression_rules_take_all_operators fuel r x r' :
  (additive fuel r = (Ret x, r') ->
   no_add_op (SimpleTokenReader.peek r') /\ no_mul_op (SimpleTokenReader.peek r'))
  /\ (multiplicative fuel r = (Ret x, r') -> no_mul_op (SimpleTokenReader.peek r')).
Proof.
  destruct (expression_rules_munch fuel) as (Ha & _ & Hm & _).
  split; intros H; [apply Ha in H | apply Hm in H]; tauto.
Qed.

Lemma expression_rules_take_all_operators_witness :
  SimpleTokenReader.peek (snd (additive 5 a_eq_3))
    = Some (SimpleToken.mk TokenType.Assignment "=")
  /\ no_add_op (SimpleTokenReader.peek (snd (additive 5 a_eq_3)))
  /\ no_mul_op (SimpleTokenReader.peek (snd (additive 5 a_eq_3))).
Proof.
  split; [reflexivity|].
  apply (expression_rules_take_all_operators 5 a_eq_3 (Node ASTNodeType.Identifier "a" [])).
  reflexivity.
Defined.

(** X7. For every string there is an amount of fuel from which on
    [parse] gives one and the same outcome, a tree or a throw: the loops of
    the parser end on every input, three units of fuel per token and four
    more being enough. *)
Theorem parse_returns_or_throws (code : string) :
  let enough :=
    3 * length (SimpleTokenReader.tokens (fst (SimpleLexer.tokenize SimpleLexer.new code)))
    + 4 in
  parse enough code <> OutOfFuel
  /\ forall fuel, enough <= fuel -> parse fuel code = parse enough code.
Proof.
  intros enough.
  pose proof (parse_terminates_at code enough (le_n _)) as Hne.
  split; [exact Hne|]. intros fuel Hle. unfold parse, prog in *.
  destruct (prog_while_fuel enough fuel (ASTNode.new ASTNodeType.Programm "demo")
              (fst (SimpleLexer.tokenize SimpleLexer.new code)) Hle) as [Ho|Heq].
  - contradiction.
  - rewrite Heq. reflexivity.
Qed.

Lemma parse_returns_or_throws_witness :
  parse 100 "2+" = Throw (Error "primary expression expected").
Proof.
  destruct (parse_returns_or_throws "2+") as [_ H].
  rewrite (H 100); [reflexivity | simpl; lia].
Defined.

Lemma peek_ahead r : SimpleTokenReader.peek r = head (ahead r).
Proof.
  unfold SimpleTokenReader.peek, ahead.
  destruct (Nat.ltb_spec (SimpleTokenReader.pos r) (length (SimpleTokenReader.tokens r))).
  - rewrite <- (Nat.add_0_r (SimpleTokenReader.pos r)) at 1.
    rewrite <- lookup_drop. destruct (drop _ _); reflexivity.
  - rewrite drop_ge by lia. reflexivity.
Qed.

Lemma ahead_skip n r : ahead (skip n r) = drop n (ahead r).
Proof. unfold ahead, skip. simpl. rewrite drop_drop, Nat.add_comm. reflexivity. Qed.

Lemma read_ahead r tk rest :
  ahead r = tk :: rest -> read r = (Ret (Some tk), skip 1 r).
Proof.
  intros H. unfold read, SimpleTokenReader.read.
  assert (Hlt : SimpleTokenReader.pos r < length (SimpleTokenReader.tokens r)).
  { destruct (Nat.ltb_spec (SimpleTokenReader.pos r) (length (SimpleTokenReader.tokens r)));
      [assumption|]. unfold ahead in H. rewrite drop_ge in H by lia. discriminate. }
  apply Nat.ltb_lt in Hlt. rewrite Hlt.
  pose proof (peek_ahead r) as Hp. unfold SimpleTokenReader.peek in Hp.
  rewrite Hlt, H in Hp. rewrite Hp. reflexivity.
Qed.

Lemma skip_skip n m r : skip n (skip m r) = skip (n + m) r.
Proof. unfold skip. simpl. f_equal. lia. Qed.

(** An operand followed by no [*] or [/] is a whole [multiplicative]. *)
Lemma multiplicative_operand fuel r a rest :
  ahead r = a :: rest -> operand a = true -> no_mul_op (head rest) ->
  multiplicative (S (S fuel)) r = (Ret (leaf a), skip 1 r).
Proof.
  intros Hr Ha Hrest.
  rewrite multiplicative_S, primary_S. unfold bind at 1 2. unfold peek at 1.
  rewrite peek_ahead, Hr. cbn [head].
  assert (Hleaf : (do node <-
            (if is_type (Some a) TokenType.IntLiteral
             then do token <- read ;; do tx <- text_of token ;;
                  ret (Some (ASTNode.new ASTNodeType.IntLiteral tx))
             else if is_type (Some a) TokenType.Identifier
             then do token <- read ;; do tx <- text_of token ;;
                  ret (Some (ASTNode.new ASTNodeType.Identifier tx))
             else if is_type (Some a) TokenType.LeftParen
             then do _ <- read ;; do node <- additive fuel ;; do token <- peek ;;
                  if is_type token TokenType.RightParen
                  then do _ <- read ;; ret (Some node)
                  else throw (Error "expecting right parenthesis")
             else ret None) ;;
            match node with
            | Some node => ret node
            | None => throw (Error "primary expression expected")
            end) r = (Ret (leaf a), skip 1 r)).
  { unfold operand in Ha. unfold is_type, leaf.
    destruct (TokenType.eqb (SimpleToken.getType a) TokenType.IntLiteral) eqn:E1.
    - unfold bind. rewrite (read_ahead r a rest Hr). reflexivity.
    - simpl in Ha. rewrite Ha. unfold bind. rewrite (read_ahead r a rest Hr). reflexivity. }
  rewrite Hleaf. clear Hleaf.
  rewrite multiplicative_while_S. unfold bind, peek.
  rewrite peek_ahead, ahead_skip, Hr. cbn [drop]. rewrite drop_0.
  unfold no_mul_op in Hrest. rewrite Hrest. reflexivity.
Qed.

(** The loop of [additive] over a chain of [+]/[-] operators and plain
    operands. *)
Lemma additive_while_chain pairs : forall fuel acc r rest,
  ahead r = (chain pairs ++ rest)%list ->
  Forall (fun p => add_op (fst p) = true /\ operand (snd p) = true) pairs ->
  no_add_op (head rest) -> no_mul_op (head rest) ->
  length pairs + 2 <= fuel ->
  additive_while fuel acc r
  = (Ret (fold_pairs ASTNodeType.Additive pairs acc), skip (2 * length pairs) r).
Proof.
  induction pairs as [|[op a] pairs IH]; intros fuel acc r rest Hr Hall Hadd Hmul Hfuel.
  - destruct fuel as [|fuel]; [simpl in Hfuel; lia|].
    rewrite additive_while_S. unfold bind, peek. rewrite peek_ahead, Hr. cbn [chain flat_map app].
    unfold no_add_op in Hadd. rewrite Hadd. unfold ret, skip. simpl. destruct r; reflexivity.
  - destruct fuel as [|[|[|fuel]]]; try (simpl in Hfuel; lia).
    inversion Hall as [|? ? [Hop Ha] Hall']; subst. cbn [fst snd] in *.
    rewrite additive_while_S. unfold bind at 1. unfold peek at 1.
    rewrite peek_ahead, Hr. cbn [chain flat_map app head fst snd].
    assert (Hop' : is_type (Some op) TokenType.Plus || is_type (Some op) TokenType.Minus = true)
      by exact Hop.
    rewrite Hop'. unfold bind at 1.
    rewrite (read_ahead r op (a :: chain pairs ++ rest)) by exact Hr.
    unfold bind at 1.
    rewrite (multiplicative_operand fuel (skip 1 r) a (chain pairs ++ rest)).
    + unfold bind at 1. cbn [text_of ret].
      rewrite (IH (S (S fuel)) _ (skip 1 (skip 1 r)) rest).
      * f_equal. rewrite !skip_skip. f_equal. simpl. lia.
      * rewrite !ahead_skip, Hr. reflexivity.
      * exact Hall'.
      * exact Hadd.
      * exact Hmul.
      * simpl in Hfuel |- *. lia.
    + rewrite ahead_skip, Hr. reflexivity.
    + exact Ha.
    + destruct pairs as [|[op' a'] pairs']; [exact Hmul|].
      inversion Hall' as [|? ? [Hop2 _] _]; subst. cbn [chain flat_map app head fst snd] in *.
      unfold no_mul_op, add_op, is_type in *.
      destruct (SimpleToken.getType op'); try discriminate Hop2; reflexivity.
Qed.

(** X8. On an operand followed by any number of [+]/[-] operators, each
    with its operand, and then by anything that is none of [+ - * /],
    [additive] returns the tree that groups the operators from the left,
    [((a0 op1 a1) op2 a2) ...], and stops right after the last operand; one
    unit of fuel per operator and three more are enough. *)
Theorem additive_groups_from_the_left a0 pairs rest fuel :
  operand a0 = true ->
  Forall (fun p => add_op (fst p) = true /\ operand (snd p) = true) pairs ->
  no_add_op (head rest) -> no_mul_op (head rest) ->
  length pairs + 3 <= fuel ->
  additive fuel (SimpleTokenReader.new (a0 :: chain pairs ++ rest))
  = (Ret (fold_pairs ASTNodeType.Additive pairs (leaf a0)),
     skip (1 + 2 * length pairs) (SimpleTokenReader.new (a0 :: chain pairs ++ rest))).
Proof.
  intros Ha Hall Hadd Hmul Hfuel.
  destruct fuel as [|[|[|fuel]]]; try (simpl in Hfuel; lia).
  set (r := SimpleTokenReader.new (a0 :: chain pairs ++ rest)).
  rewrite additive_S. unfold bind.
  rewrite (multiplicative_operand fuel r a0 (chain pairs ++ rest)); [|reflexivity|exact Ha|].
  - rewrite (additive_while_chain pairs (S (S fuel)) (leaf a0) (skip 1 r) rest);
      [| rewrite ahead_skip; reflexivity | exact Hall | exact Hadd | exact Hmul
       | simpl in Hfuel |- *; lia].
    rewrite skip_skip. f_equal. f_equal. lia.
  - destruct pairs as [|[op' a'] pairs']; [exact Hmul|].
    inversion Hall as [|? ? [Hop2 _] _]; subst. cbn [chain flat_map app head fst snd] in *.
    unfold no_mul_op, add_op, is_type in *.
    destruct (SimpleToken.getType op'); try discriminate Hop2; reflexivity.
Qed.

Lemma additive_groups_from_the_left_witness :
  fst (additive 5 (fst (SimpleLexer.tokenize SimpleLexer.new "1+2-3;")))
  = Ret (Node ASTNodeType.Additive "-"
           [Node ASTNodeType.Additive "+"
              [Node ASTNodeType.IntLiteral "1" []; Node ASTNodeType.IntLiteral "2" []];
            Node ASTNodeType.IntLiteral "3" []]).
Proof.
  refine (f_equal fst
    (additive_groups_from_the_left
       (SimpleToken.mk TokenType.IntLiteral "1")
       [(SimpleToken.mk TokenType.Plus "+", SimpleToken.mk TokenType.IntLiteral "2");
        (SimpleToken.mk TokenType.Minus "-", SimpleToken.mk TokenType.IntLiteral "3")]
       [SimpleToken.mk TokenType.SemiColon ";"] 5 _ _ _ _ _));
    try reflexivity.
  repeat constructor.
Defined.

Lemma additive_fuel n m r :
  n <= m -> refines (additive n r) (additive m r).
Proof. intros H. apply (proj1 (expression_fuel n m H)). Qed.

(** X9. [*] and [/] bind tighter than [+] and [-] on either side: with
    operands [a], [b], [c], an operator [op1] among [+ -] and [op2] among
    [* /], [additive] turns [a op1 b op2 c] into [a op1 (b op2 c)] and
    [a op2 b op1 c] into [(a op2 b) op1 c], for every fuel from 6 on. *)
Theorem multiplication_binds_tighter a op1 b op2 c rest fuel :
  operand a = true -> operand b = true -> operand c = true ->
  add_op op1 = true -> mul_op op2 = true ->
  no_add_op (head rest) -> no_mul_op (head rest) ->
  6 <= fuel ->
  fst (additive fuel (mul3 a op1 b op2 c rest))
  = Ret (binary ASTNodeType.Additive op1 (leaf a)
           (binary ASTNodeType.Multiplicative op2 (leaf b) (leaf c)))
  /\ fst (additive fuel (mul3 a op2 b op1 c rest))
     = Ret (binary ASTNodeType.Additive op1
              (binary ASTNodeType.Multiplicative op2 (leaf a) (leaf b)) (leaf c)).
Proof.
  intros Ha Hb Hc H1 H2 Hadd Hmul Hfuel.
  assert (H6 : fst (additive 6 (mul3 a op1 b op2 c rest))
               = Ret (binary ASTNodeType.Additive op1 (leaf a)
                        (binary ASTNodeType.Multiplicative op2 (leaf b) (leaf c)))
               /\ fst (additive 6 (mul3 a op2 b op1 c rest))
                  = Ret (binary ASTNodeType.Additive op1
                           (binary ASTNodeType.Multiplicative op2 (leaf a) (leaf b)) (leaf c))).
  { unfold no_add_op, no_mul_op in *.
    destruct a as [ta xa], b as [tb xb], c as [tc xc], op1 as [t1 x1], op2 as [t2 x2].
    destruct ta; try discriminate Ha; destruct tb; try discriminate Hb;
    destruct tc; try discriminate Hc; destruct t1; try discriminate H1;
    destruct t2; try discriminate H2;
    (destruct rest as [|[tr xr] rest]; [split; reflexivity|]);
    destruct tr; try discriminate Hadd; try discriminate Hmul; split; reflexivity. }
  destruct H6 as [Hl Hr]. split.
  - destruct (additive_fuel 6 fuel (mul3 a op1 b op2 c rest) Hfuel) as [Ho|Heq];
      [rewrite Hl in Ho; discriminate | rewrite <- Heq; exact Hl].
  - destruct (additive_fuel 6 fuel (mul3 a op2 b op1 c rest) Hfuel) as [Ho|Heq];
      [rewrite Hr in Ho; discriminate | rewrite <- Heq; exact Hr].
Qed.

Lemma multiplication_binds_tighter_witness :
  fst (additive 6 (fst (SimpleLexer.tokenize SimpleLexer.new "1+2*3")))
  = Ret (Node ASTNodeType.Additive "+"
           [Node ASTNodeType.IntLiteral "1" [];
            Node ASTNodeType.Multiplicative "*"
              [Node ASTNodeType.IntLiteral "2" []; Node ASTNodeType.IntLiteral "3" []]]).
Proof.
  exact (proj1 (multiplication_binds_tighter
                  (SimpleToken.mk TokenType.IntLiteral "1")
                  (SimpleToken.mk TokenType.Plus "+")
                  (SimpleToken.mk TokenType.IntLiteral "2")
                  (SimpleToken.mk TokenType.Star "*")
                  (SimpleToken.mk TokenType.IntLiteral "3")
                  [] 6 eq_refl eq_refl eq_refl eq_refl eq_refl eq_refl eq_refl (le_n 6))).
Defined.

(** X10. A statement rule that does not apply gives the reader back as
    it found it: when [intDeclare] or [assignmentStatement] answers [null],
    no token has been consumed ([assignmentStatement] has put the identifier
    back with [unread]). [intDeclare] answers [null] exactly when the token
    under the cursor is not the keyword. *)
Theorem statement_probes_restore fuel r r' :
  (intDeclare fuel r = (Ret None, r') ->
   r' = r /\ is_type (SimpleTokenReader.peek r) TokenType.Int = false)
  /\ (is_type (SimpleTokenReader.peek r) TokenType.Int = false ->
      intDeclare fuel r = (Ret None, r))
  /\ (assignmentStatement fuel r = (Ret None, r') -> r' = r).
Proof.
  split; [|split].
  - unfold intDeclare. intros H. bind_inv H. reader_facts.
    destruct (is_type _ TokenType.Int) eqn:E.
    + bind_inv H. bind_inv H. reader_facts.
      destruct (is_type _ TokenType.Identifier); [|discriminate].
      bind_inv H. bind_inv H. bind_inv H. bind_inv H. bind_inv H. reader_facts.
      destruct (is_type _ TokenType.SemiColon); [|discriminate].
      bind_inv H. inversion H.
    + inversion H. auto.
  - intros E. unfold intDeclare, bind, peek. rewrite E. reflexivity.
  - unfold assignmentStatement. intros H. bind_inv H. reader_facts.
    destruct (is_type _ TokenType.Identifier) eqn:E; [|inversion H; reflexivity].
    apply is_type_peek in E. bind_inv H. bind_inv H. bind_inv H. reader_facts.
    destruct (is_type _ TokenType.Assignment).
    + bind_inv H. bind_inv H. bind_inv H. reader_facts.
      destruct (is_type _ TokenType.SemiColon); [|discriminate].
      bind_inv H. inversion H.
    + unfold bind, unread, ret in H. inversion H; subst; clear H.
      unfold SimpleTokenReader.unread.
      match goal with
      | Hp : SimpleTokenReader.pos ?r0 = S _, Ht : SimpleTokenReader.tokens ?r0 = _ |- _ =>
          rewrite Hp; cbn [Nat.ltb Nat.leb]; destruct r, r0; simpl in *; subst;
          rewrite Nat.sub_0_r; reflexivity
      end.
Qed.

Lemma statement_probes_restore_witness :
  let r := fst (SimpleLexer.tokenize SimpleLexer.new "a;") in
  assignmentStatement 5 r = (Ret None, r) /\ intDeclare 5 r = (Ret None, r).
Proof.
  intros r. split; [reflexivity|].
  apply (statement_probes_restore 5 r r). reflexivity.
Defined.

Lemma wp_bind {S A B} (c : M S A) (k : A -> M S B) s Q E :
  wp c s (fun a s1 => wp (k a) s1 Q E) E -> wp (bind c k) s Q E.
Proof. unfold wp, bind. destruct (c s) as [[a| |] s1]; auto. Qed.

Lemma wp_weaken {S A} (c : M S A) s (Q Q' : A -> S -> Prop) E :
  wp c s Q E -> (forall a s', Q a s' -> Q' a s') -> wp c s Q' E.
Proof. unfold wp. destruct (c s) as [[a| |] s1]; auto. Qed.

Lemma wp_read_token r ty Q E :
  is_type (SimpleTokenReader.peek r) ty = true ->
  (forall tk r', Q (Some tk) r') -> wp read r Q E.
Proof.
  intros Hty H. unfold wp, read, SimpleTokenReader.read.
  pose proof (is_type_peek r ty Hty) as Hlt.
  unfold SimpleTokenReader.peek in Hty. apply Nat.ltb_lt in Hlt. rewrite Hlt in *.
  destruct (SimpleTokenReader.tokens r !! SimpleTokenReader.pos r); [apply H | discriminate].
Qed.

Lemma wp_read r Q E : (forall tk r', Q tk r') -> wp read r Q E.
Proof. intros H. unfold wp, read. destruct (SimpleTokenReader.read r). apply H. Qed.

Lemma wp_peek r (Q : option Token -> SimpleTokenReader.t -> Prop) E :
  Q (SimpleTokenReader.peek r) r -> wp peek r Q E.
Proof. auto. Qed.

Lemma wp_text_of tk r (Q : string -> SimpleTokenReader.t -> Prop) E :
  Q (SimpleToken.getText tk) r -> wp (text_of (Some tk)) r Q E.
Proof. auto. Qed.

Lemma wp_ret {S A} (a : A) (s : S) (Q : A -> S -> Prop) E : Q a s -> wp (ret a) s Q E.
Proof. auto. Qed.

Lemma wp_throw {S A} e (s : S) (Q : A -> S -> Prop) (E : exn -> Prop) :
  E e -> wp (throw e) s Q E.
Proof. auto. Qed.

Lemma wp_unread r (Q : unit -> SimpleTokenReader.t -> Prop) E :
  Q tt (SimpleTokenReader.unread r) -> wp unread r Q E.
Proof. auto. Qed.

Lemma wp_getPosition r (Q : nat -> SimpleTokenReader.t -> Prop) E :
  Q (SimpleTokenReader.getPosition r) r -> wp getPosition r Q E.
Proof. auto. Qed.

Lemma wp_setPosition r p (Q : unit -> SimpleTokenReader.t -> Prop) E :
  Q tt (SimpleTokenReader.setPosition r p) -> wp (setPosition p) r Q E.
Proof. auto. Qed.

Ltac wp_step :=
  lazymatch goal with
  | |- wp (bind _ _) _ _ _ => apply wp_bind
  | |- wp peek _ _ _ => apply wp_peek
  | |- wp (text_of (Some _)) _ _ _ => apply wp_text_of
  | |- wp (throw _) _ _ _ => apply wp_throw; unfold parse_error; simpl; tauto
  | |- wp (ret _) _ _ _ => apply wp_ret
  | |- wp unread _ _ _ => apply wp_unread
  | |- wp getPosition _ _ _ => apply wp_getPosition
  | |- wp (setPosition _) _ _ _ => apply wp_setPosition
  end.

Ltac wp_read_as ty tk r :=
  apply wp_bind; eapply (wp_read_token _ ty); [eassumption | intros tk r].

Ltac wp_read_any r := apply wp_bind; apply wp_read; intros _ r.

Lemma expression_rules_shape fuel : forall r,
  wp (additive fuel) r expr_out parse_error
  /\ (forall c, expr_node c -> wp (additive_while fuel c) r expr_out parse_error)
  /\ wp (multiplicative fuel) r expr_out parse_error
  /\ (forall c, expr_node c -> wp (multiplicative_while fuel c) r expr_out parse_error)
  /\ wp (primary fuel) r expr_out parse_error.
Proof.
  induction fuel as [|n IH]; intros r.
  - repeat split; intros; exact I.
  - split; [|split; [|split; [|split]]].
    + rewrite additive_S. wp_step.
      eapply wp_weaken; [apply (IH r)|]. intros c r1 Hc. apply (IH r1). exact Hc.
    + intros c Hc. rewrite additive_while_S. wp_step. wp_step.
      destruct (_ || _) eqn:E; [|wp_step; exact Hc].
      apply orb_true_iff in E.
      assert (Hr : forall Q, (forall tk r', Q (Some tk) r') -> wp read r Q parse_error).
      { intros Q HQ. destruct E as [E|E]; eapply wp_read_token; eauto. }
      wp_step. apply Hr. intros tk r1. wp_step.
      eapply wp_weaken; [apply (IH r1)|]. intros c2 r2 Hc2. wp_step. wp_step.
      apply (IH r2). constructor; assumption.
    + rewrite multiplicative_S. wp_step.
      eapply wp_weaken; [apply (IH r)|]. intros c r1 Hc. apply (IH r1). exact Hc.
    + intros c Hc. rewrite multiplicative_while_S. wp_step. wp_step.
      destruct (_ || _) eqn:E; [|wp_step; exact Hc].
      apply orb_true_iff in E.
      assert (Hr : forall Q, (forall tk r', Q (Some tk) r') -> wp read r Q parse_error).
      { intros Q HQ. destruct E as [E|E]; eapply wp_read_token; eauto. }
      wp_step. apply Hr. intros tk r1. wp_step.
      eapply wp_weaken; [apply (IH r1)|]. intros c2 r2 Hc2. wp_step. wp_step.
      apply (IH r2). constructor; assumption.
    + rewrite primary_S. wp_step. wp_step. wp_step.
      destruct (is_type _ TokenType.IntLiteral) eqn:E1;
        [|destruct (is_type _ TokenType.Identifier) eqn:E2;
          [|destruct (is_type _ TokenType.LeftParen) eqn:E3]].
      * wp_read_as TokenType.IntLiteral tk r1. wp_step. wp_step. wp_step. wp_step. constructor.
      * wp_read_as TokenType.Identifier tk r1. wp_step. wp_step. wp_step. wp_step. constructor.
      * wp_read_any r1. wp_step.
        eapply wp_weaken; [apply (IH r1)|]. intros node r2 Hn. wp_step. wp_step.
        destruct (is_type _ TokenType.RightParen); [|wp_step].
        wp_read_any r3. wp_step. wp_step. exact Hn.
      * wp_step. wp_step.
Qed.

Lemma additive_shape fuel r : wp (additive fuel) r expr_out parse_error.
Proof. apply (expression_rules_shape fuel r). Qed.

Lemma statement_rules_shape fuel r :
  wp (intDeclare fuel) r statement_out parse_error
  /\ wp (expressionStatement fuel) r statement_out parse_error
  /\ wp (assignmentStatement fuel) r statement_out parse_error.
Proof.
  split; [|split].
  - unfold intDeclare. wp_step. wp_step.
    destruct (is_type _ TokenType.Int); [|wp_step; exact I].
    wp_read_any r1. wp_step. wp_step.
    destruct (is_type _ TokenType.Identifier) eqn:E; [|wp_step].
    wp_read_as TokenType.Identifier tk r2. wp_step. wp_step. wp_step. wp_step. wp_step.
    assert (Hinit : wp
              (if is_type (SimpleTokenReader.peek r2) TokenType.Assignment
               then do _ <- read ;;
                    do child <- additive fuel ;;
                    ret (ASTNode.addChild
                           (ASTNode.new ASTNodeType.IntDeclaration (SimpleToken.getText tk))
                           child)
               else ret (ASTNode.new ASTNodeType.IntDeclaration (SimpleToken.getText tk)))
              r2 (fun x _ => statement_node x) parse_error).
    { destruct (is_type _ TokenType.Assignment).
      - wp_read_any r3. wp_step.
        eapply wp_weaken; [apply additive_shape|]. intros child r4 Hc. wp_step.
        apply stmt_initialised. exact Hc.
      - wp_step. apply stmt_declaration. }
    eapply wp_weaken; [exact Hinit|]. intros node r5 Hn. wp_step. wp_step.
    destruct (is_type _ TokenType.SemiColon); [|wp_step].
    wp_read_any r6. wp_step. exact Hn.
  - unfold expressionStatement. wp_step. wp_step. wp_step.
    eapply wp_weaken; [apply additive_shape|]. intros node r1 Hn. wp_step. wp_step.
    destruct (is_type _ TokenType.SemiColon).
    + wp_read_any r2. wp_step. apply stmt_expression. exact Hn.
    + wp_step. wp_step. wp_step. exact I.
  - unfold assignmentStatement. wp_step. wp_step.
    destruct (is_type _ TokenType.Identifier) eqn:E; [|wp_step; exact I].
    wp_read_as TokenType.Identifier tk r1. wp_step. wp_step. wp_step. wp_step.
    destruct (is_type _ TokenType.Assignment).
    + wp_read_any r2. wp_step.
      eapply wp_weaken; [apply additive_shape|]. intros child r3 Hc. wp_step. wp_step.
      destruct (is_type _ TokenType.SemiColon); [|wp_step].
      wp_read_any r4. wp_step. apply stmt_assignment. exact Hc.
    + wp_step. wp_step. wp_step. exact I.
Qed.

Lemma prog_while_shape fuel : forall children r,
  Forall statement_node children ->
  wp (prog_while fuel (Node ASTNodeType.Programm "demo" children)) r program_out parse_error.
Proof.
  induction fuel as [|n IH]; intros children r Hc; [exact I|].
  rewrite prog_while_S. wp_step. wp_step.
  destruct (SimpleTokenReader.peek r); [|wp_step; exists children; auto].
  wp_step. eapply wp_weaken; [apply (statement_rules_shape n r)|].
  intros child1 r1 H1. wp_step.
  assert (H2 : wp (match child1 with
                   | Some _ => ret child1
                   | None => expressionStatement n
                   end) r1 statement_out parse_error).
  { destruct child1; [wp_step; exact H1 | apply (statement_rules_shape n r1)]. }
  eapply wp_weaken; [exact H2|]. clear H2. intros child2 r2 H2. wp_step.
  assert (H3 : wp (match child2 with
                   | Some _ => ret child2
                   | None => assignmentStatement n
                   end) r2 statement_out parse_error).
  { destruct child2; [wp_step; exact H2 | apply (statement_rules_shape n r2)]. }
  eapply wp_weaken; [exact H3|]. clear H3. intros child3 r3 H3.
  destruct child3 as [child|]; [|wp_step].
  apply IH. apply Forall_app. split; [exact Hc|]. constructor; [exact H3 | constructor].
Qed.

Lemma parse_wp fuel code :
  match parse fuel code with
  | Ret tree => program_node tree
  | Throw e => parse_error e
  | OutOfFuel => True
  end.
Proof.
  unfold parse, prog.
  pose proof (prog_while_shape fuel [] (fst (SimpleLexer.tokenize SimpleLexer.new code))
                (Forall_nil_2 _)) as H.
  unfold wp, program_out in H. unfold ASTNode.new.
  destruct (prog_while fuel _ _) as [[x| |] r']; exact H.
Qed.

(** X11. Every tree that [parse] returns is a [Programm] root over
    statements, each an expression, an [IntDeclaration] with no child or one
    expression child, or an [AssignmentStmt] with one expression child;
    inside expressions every [Additive] and [Multiplicative] node has
    exactly two children and every literal and identifier is a leaf. No
    [ExpressionStmt] or [Primary] node is ever built. *)
Theorem parse_builds_programs fuel code tree :
  parse fuel code = Ret tree -> program_node tree.
Proof. intros H. pose proof (parse_wp fuel code) as Hw. rewrite H in Hw. exact Hw. Qed.

Lemma parse_builds_programs_witness :
  program_node
    (Node ASTNodeType.Programm "demo"
       [Node ASTNodeType.IntDeclaration "a" [Node ASTNodeType.IntLiteral "0" []];
        Node ASTNodeType.Identifier "a" []]).
Proof. apply (parse_builds_programs 7 "int a = 0; a;"). reflexivity. Defined.

(** X12. Whatever [parse] throws is an [Error] with one of five
    messages: a missing primary expression, a missing right parenthesis, a
    missing semicolon, a missing variable name, or an unknown statement. In
    particular no [token!.getText()] is ever reached with a [null] token. *)
Theorem parse_throws_syntax_errors fuel code e :
  parse fuel code = Throw e -> parse_error e /\ e <> TypeError.
Proof.
  intros H. pose proof (parse_wp fuel code) as Hw. rewrite H in Hw.
  split; [exact Hw|]. intros ->. unfold parse_error in Hw. simpl in Hw.
  repeat destruct Hw as [Hw|Hw]; try discriminate Hw. exact Hw.
Qed.

Lemma parse_throws_syntax_errors_witness :
  parse_error (Error "unknown statement").
Proof. apply (parse_throws_syntax_errors 7 "2+3" (Error "unknown statement")). reflexivity. Defined.
End ParserMore.

(** * More properties of the evaluator *)

Section EvaluatorMore.
Import JSNumber SimpleScript.

Lemma evaluate_IntLiteral text children indent this :
  evaluate (Node ASTNodeType.IntLiteral text children) indent this
  = (Ret (Some (parseInt text)), print indent (Result (Some (parseInt text))) this).
Proof.
  unfold print. simpl. unfold bind, ret, report. simpl.
  destruct (String.eqb indent ""); reflexivity.
Qed.

Lemma evaluate_Additive text child1 child2 rest indent :
  evaluate (Node ASTNodeType.Additive text (child1 :: child2 :: rest)) indent =
  (do result <-
     (do value1 <- evaluate child1 (String.append indent tab) ;;
      do value2 <- evaluate child2 (String.append indent tab) ;;
      if String.eqb text "+"
      then ret (Some (add (of_value value1) (of_value value2)))
      else ret (Some (sub (of_value value1) (of_value value2)))) ;;
   do _ <- report ASTNodeType.Additive text indent result ;;
   ret result).
Proof. reflexivity. Qed.

Lemma below_top indent : String.eqb (String.append indent tab) "" = false.
Proof. destruct indent; reflexivity. Qed.

Lemma print_below indent l this : print (String.append indent tab) l this = this.
Proof. unfold print. rewrite below_top. reflexivity. Qed.

Lemma report_result ty text indent result this :
  ty = ASTNodeType.Additive \/ ty = ASTNodeType.Multiplicative
  \/ ty = ASTNodeType.Identifier \/ ty = ASTNodeType.IntLiteral ->
  report ty text indent result this = (Ret tt, print indent (Result result) this).
Proof.
  unfold report, print, log, ret.
  intros [-> | [-> | [-> | ->]]]; destruct (String.eqb indent ""); reflexivity.
Qed.

Lemma wpe_bind {S A B} (c : M S A) (k : A -> M S B) s Q E :
  wpe c s (fun a s1 => wpe (k a) s1 Q E) E -> wpe (bind c k) s Q E.
Proof. unfold wpe, bind. destruct (c s) as [[a| |] s1]; auto. Qed.

Lemma wpe_weaken {S A} (c : M S A) s (Q Q' : A -> S -> Prop) (E E' : exn -> S -> Prop) :
  wpe c s Q E ->
  (forall a s', Q a s' -> Q' a s') -> (forall e s', E e s' -> E' e s') ->
  wpe c s Q' E'.
Proof. unfold wpe. destruct (c s) as [[a| |] s1]; auto. Qed.

Lemma wpe_ret {S A} (a : A) (s : S) (Q : A -> S -> Prop) E : Q a s -> wpe (ret a) s Q E.
Proof. auto. Qed.

Lemma wpe_eq {S A} (c : M S A) s Q E o s' :
  c s = (o, s') ->
  match o with Ret a => Q a s' | Throw e => E e s' | OutOfFuel => False end ->
  wpe c s Q E.
Proof. unfold wpe. intros ->. auto. Qed.

(** An expression evaluates to a number or throws an [Error]; the
    variables and, below the top level, the console stay as they are. *)
Lemma evaluate_expr e :
  expr_node e ->
  forall indent this,
    wpe (evaluate e indent) this (number_printed indent this) (error_untouched this).
Proof.
  assert (Hbin : forall l r indent this (f : JSNumber.t -> JSNumber.t -> JSNumber.t),
    (forall indent this,
       wpe (evaluate l indent) this (number_printed indent this) (error_untouched this)) ->
    (forall indent this,
       wpe (evaluate r indent) this (number_printed indent this) (error_untouched this)) ->
    wpe (do value1 <- evaluate l (String.append indent tab) ;;
         do value2 <- evaluate r (String.append indent tab) ;;
         ret (Some (f (of_value value1) (of_value value2))))
        this (fun v s1 => (exists x, v = Some x) /\ s1 = this) (error_untouched this)).
  { intros l r indent this f IHl IHr. apply wpe_bind.
    eapply wpe_weaken; [apply IHl | | auto].
    intros v1 s1 (x1 & -> & ->). rewrite print_below. apply wpe_bind.
    eapply wpe_weaken; [apply IHr | | auto].
    intros v2 s2 (x2 & -> & ->). rewrite print_below. apply wpe_ret. eauto. }
  assert (Hrep : forall ty text indent this (c : E value),
    ty = ASTNodeType.Additive \/ ty = ASTNodeType.Multiplicative ->
    wpe c this (fun v s1 => (exists x, v = Some x) /\ s1 = this) (error_untouched this) ->
    wpe (do result <- c ;; do _ <- report ty text indent result ;; ret result)
        this (number_printed indent this) (error_untouched this)).
  { intros ty text indent this c Hty Hc. apply wpe_bind.
    eapply wpe_weaken; [exact Hc | | auto].
    intros v s1 ((x & ->) & ->). apply wpe_bind.
    eapply wpe_eq; [apply report_result; tauto|]. apply wpe_ret. exists x. auto. }
  induction 1 as [text | text | text l r Hl IHl Hr IHr | text l r Hl IHl Hr IHr];
    intros indent this.
  - eapply wpe_eq; [apply evaluate_IntLiteral|]. eexists; eauto.
  - rewrite evaluate_Identifier. unfold wpe, bind, has, get_or_null.
    destruct (variables this !! text) as [[x|]|] eqn:E; simpl; rewrite ?E;
      try (split; [eexists; reflexivity | reflexivity]).
    destruct (truthy x); simpl; [|split; [eexists; reflexivity | reflexivity]].
    rewrite report_result by auto. exists x. auto.
  - rewrite evaluate_Additive. apply Hrep; [auto|].
    destruct (String.eqb text "+");
      [apply (Hbin l r indent this add) | apply (Hbin l r indent this sub)]; assumption.
  - rewrite evaluate_Multiplicative. apply Hrep; [auto|].
    destruct (String.eqb text "*");
      [apply (Hbin l r indent this mul) | apply (Hbin l r indent this floor_div)]; assumption.
Qed.

(** X13. Evaluating an expression tree (literals, identifiers and
    two-child [Additive] and [Multiplicative] nodes) either returns a
    number, never [null], or throws an [Error] with the instance untouched;
    it never changes a variable and writes to the console only its own
    result, and only at the top level. *)
Theorem expressions_are_pure e indent this :
  expr_node e ->
  (exists x,
      evaluate e indent this = (Ret (Some x), print indent (Result (Some x)) this))
  \/ (exists message, evaluate e indent this = (Throw (Error message), this)).
Proof.
  intros H. pose proof (evaluate_expr e H indent this) as Hw. unfold wpe in Hw.
  destruct (evaluate e indent this) as [[v| err|] this'].
  - destruct Hw as (x & -> & ->). left. exists x. reflexivity.
  - destruct Hw as ((m & ->) & ->). right. exists m. reflexivity.
  - contradiction.
Qed.

Lemma expressions_are_pure_witness :
  let e := Node ASTNodeType.Additive "+"
             [Node ASTNodeType.IntLiteral "1" []; Node ASTNodeType.Identifier "b" []] in
  (exists x, evaluate e tab SimpleScript.new
             = (Ret (Some x), print tab (Result (Some x)) SimpleScript.new))
  \/ (exists message, evaluate e tab SimpleScript.new
                      = (Throw (Error message), SimpleScript.new)).
Proof.
  intros e. apply expressions_are_pure. repeat constructor.
Defined.

Lemma evaluate_binding ty name child rest indent :
  evaluate (Node ty name (child :: rest)) indent =
  match ty with
  | ASTNodeType.IntDeclaration =>
      do result <-
        (do _ <- ret tt ;;
         do result <- evaluate child (String.append indent tab) ;;
         do _ <- set name result ;;
         ret result) ;;
      do _ <- report ty name indent result ;;
      ret result
  | ASTNodeType.AssignmentStmt =>
      do result <-
        (do _ <- (do known <- has name ;;
                  if known then ret tt else throw (unknown_message name)) ;;
         do result <- evaluate child (String.append indent tab) ;;
         do _ <- set name result ;;
         ret result) ;;
      do _ <- report ty name indent result ;;
      ret result
  | _ => evaluate (Node ty name (child :: rest)) indent
  end.
Proof. destruct ty; reflexivity. Qed.

Lemma report_binding ty name indent result this :
  ty = ASTNodeType.IntDeclaration \/ ty = ASTNodeType.AssignmentStmt ->
  report ty name indent result this = (Ret tt, print indent (Binding name result) this).
Proof.
  unfold report, print, log, ret.
  intros [-> | ->]; destruct (String.eqb indent ""); reflexivity.
Qed.

(** X14. A declaration with an initialiser evaluates the initialiser,
    binds the name to its value (overwriting any earlier binding) and
    returns it; every other variable keeps its binding, and an identifier
    with that name then evaluates to the value when it is a number other
    than 0 and NaN. When the initialiser throws, the declaration throws the
    same error and binds nothing. *)
Theorem declaration_binds_its_value name child rest indent this o this1 :
  evaluate child (String.append indent tab) this = (o, this1) ->
  let declaration := Node ASTNodeType.IntDeclaration name (child :: rest) in
  match o with
  | Ret v =>
      let after := print indent (Binding name v) (bound name v this1) in
      evaluate declaration indent this = (Ret v, after)
      /\ variables after !! name = Some v
      /\ (forall other, other <> name ->
            variables after !! other = variables this1 !! other)
      /\ (forall x children indent',
            v = Some x -> truthy x = true ->
            fst (evaluate (Node ASTNodeType.Identifier name children) indent' after)
            = Ret (Some x))
  | Throw e => evaluate declaration indent this = (Throw e, this1)
  | OutOfFuel => True
  end.
Proof.
  intros He declaration. subst declaration.
  assert (Hd : evaluate (Node ASTNodeType.IntDeclaration name (child :: rest)) indent this
               = match o with
                 | Ret v => (Ret v, print indent (Binding name v) (bound name v this1))
                 | Throw e => (Throw e, this1)
                 | OutOfFuel => (OutOfFuel, this1)
                 end).
  { rewrite evaluate_binding. unfold bind, ret, set. cbn beta iota. rewrite He.
    destruct o; try reflexivity. rewrite report_binding by auto. reflexivity. }
  destruct o as [v| e|]; [|exact Hd|exact I].
  cbv zeta.
  assert (Hvars : forall l, variables (print indent l (bound name v this1))
                            = <[name := v]> (variables this1)).
  { intros l. unfold print. destruct (String.eqb indent ""); reflexivity. }
  split; [exact Hd|]. split; [|split].
  - rewrite Hvars. apply lookup_insert_eq.
  - intros other Hne. rewrite Hvars. apply lookup_insert_ne. congruence.
  - intros x children indent' -> Hx. rewrite evaluate_Identifier.
    unfold bind, has, get_or_null. rewrite Hvars, lookup_insert_eq. simpl.
    rewrite Hvars, lookup_insert_eq, Hx. simpl.
    rewrite report_result by auto. reflexivity.
Qed.

Lemma declaration_binds_its_value_witness :
  let declaration :=
    Node ASTNodeType.IntDeclaration "a" [Node ASTNodeType.IntLiteral "7" []] in
  fst (evaluate declaration "" SimpleScript.new) = Ret (Some (Finite 7))
  /\ fst (evaluate (Node ASTNodeType.Identifier "a" []) ""
            (snd (evaluate declaration "" SimpleScript.new)))
     = Ret (Some (Finite 7)).
Proof.
  intros declaration.
  pose proof (declaration_binds_its_value "a" (Node ASTNodeType.IntLiteral "7" []) [] ""
                SimpleScript.new (Ret (Some (Finite 7)))
                (print tab (Result (Some (Finite 7))) SimpleScript.new) eq_refl) as H.
  cbv zeta in H. destruct H as (Hd & _ & _ & Hid). fold declaration in Hd.
  rewrite Hd. split; [reflexivity|]. apply Hid; reflexivity.
Defined.

(** X15. An assignment to a name that is not in the variables throws
    "unknown variable" before its right-hand side is evaluated and leaves
    the instance as it is; to a name that is there, whatever it is bound to,
    it does exactly what the declaration with the same name and children
    does. *)
Theorem assignment_needs_declaration name children indent this :
  (variables this !! name = None ->
   evaluate (Node ASTNodeType.AssignmentStmt name children) indent this
   = (Throw (unknown_message name), this))
  /\ (is_Some (variables this !! name) ->
      evaluate (Node ASTNodeType.AssignmentStmt name children) indent this
      = evaluate (Node ASTNodeType.IntDeclaration name children) indent this).
Proof.
  split.
  - intros Hn. destruct children; simpl; unfold bind, has; rewrite Hn; reflexivity.
  - intros [v Hv]. destruct children; simpl; unfold bind, has; rewrite Hv; reflexivity.
Qed.

Lemma assignment_needs_declaration_witness :
  evaluate (Node ASTNodeType.AssignmentStmt "a" [Node ASTNodeType.IntLiteral "1" []]) ""
    SimpleScript.new
  = (Throw (Error "unknown variable: a"), SimpleScript.new).
Proof.
  apply (assignment_needs_declaration "a" [Node ASTNodeType.IntLiteral "1" []] ""
           SimpleScript.new).
  reflexivity.
Defined.

(** X16. A declaration without initialiser binds the name to [null],
    whatever it was bound to before, and returns [null]; reading the name
    afterwards throws "has not been set any value". *)
Theorem declaration_without_initialiser name indent this :
  let after := print indent (Binding name None) (bound name None this) in
  evaluate (Node ASTNodeType.IntDeclaration name []) indent this = (Ret None, after)
  /\ variables after !! name = Some None
  /\ forall children indent',
       evaluate (Node ASTNodeType.Identifier name children) indent' after
       = (Throw (unset_message name), after).
Proof.
  intros after.
  assert (Hvars : variables after = <[name := None]> (variables this)).
  { subst after. unfold print. destruct (String.eqb indent ""); reflexivity. }
  split; [|split].
  - simpl. unfold bind, set, ret. rewrite report_binding by auto. reflexivity.
  - rewrite Hvars. apply lookup_insert_eq.
  - intros children indent'. rewrite evaluate_Identifier.
    unfold bind, has, get_or_null. rewrite Hvars, lookup_insert_eq. simpl.
    rewrite Hvars, lookup_insert_eq. reflexivity.
Qed.

Lemma bind_ret_tt {S A} (c : M S A) s :
  bind c (fun result => bind (ret tt) (fun _ => ret result)) s = c s.
Proof. unfold bind, ret. destruct (c s) as [[a| |] s1]; reflexivity. Qed.

Lemma evaluate_Programm text children indent this :
  evaluate (Node ASTNodeType.Programm text children) indent this
  = evaluate_all indent children None this.
Proof.
  assert (Hrep : forall result, report ASTNodeType.Programm text indent result = ret tt).
  { intros result. unfold report. destruct (String.eqb indent ""); reflexivity. }
  cbn [evaluate]. 
  set (each := fix each (children : list SimpleASTNode) (result : value) {struct children} :=
         match children with
         | [] => ret result
         | child :: rest => do result <- evaluate child indent ;; each rest result
         end).
  assert (Heach : forall cs result st, each cs result st = evaluate_all indent cs result st).
  { induction cs as [|c cs IH]; intros result st; [reflexivity|].
    cbn [each evaluate_all]. unfold bind. destruct (evaluate c indent st) as [[a| |] s1];
      [apply IH | reflexivity | reflexivity]. }
  rewrite <- Heach.
  transitivity (bind (each children None)
                  (fun result => bind (ret tt) (fun _ => ret result)) this);
    [|apply bind_ret_tt].
  unfold bind. destruct (each children None this) as [[a| |] s1]; try reflexivity.
  rewrite Hrep. reflexivity.
Qed.

Lemma evaluate_all_app indent cs1 : forall cs2 result this,
  evaluate_all indent (cs1 ++ cs2) result this
  = bind (evaluate_all indent cs1 result) (evaluate_all indent cs2) this.
Proof.
  induction cs1 as [|c cs1 IH]; intros cs2 result this; [reflexivity|].
  cbn [app evaluate_all]. unfold bind.
  destruct (evaluate c indent this) as [[a| |] s1]; try reflexivity.
  rewrite IH. reflexivity.
Qed.

(** X17. A program evaluates its statements in order on the same
    instance: the program over [first] followed by [next :: rest] is the
    program over [first], then, if that has not thrown, the program over
    [next :: rest] from the instance it left, whose result is the result of
    the whole; a throw ends the program with the instance as the throwing
    statement left it. The empty program returns [null] and a program of one
    statement is that statement. *)
Theorem program_runs_in_order text first next rest indent this :
  evaluate (Node ASTNodeType.Programm text (first ++ next :: rest)) indent this
  = match evaluate (Node ASTNodeType.Programm text first) indent this with
    | (Ret _, this1) =>
        evaluate (Node ASTNodeType.Programm text (next :: rest)) indent this1
    | (Throw e, this1) => (Throw e, this1)
    | (OutOfFuel, this1) => (OutOfFuel, this1)
    end
  /\ evaluate (Node ASTNodeType.Programm text []) indent this = (Ret None, this)
  /\ evaluate (Node ASTNodeType.Programm text [next]) indent this
     = evaluate next indent this.
Proof.
  split; [|split].
  - rewrite !evaluate_Programm, evaluate_all_app. unfold bind.
    destruct (evaluate_all indent first None this) as [[v| e|] this1]; try reflexivity.
    rewrite evaluate_Programm. reflexivity.
  - rewrite evaluate_Programm. reflexivity.
  - rewrite evaluate_Programm. cbn [evaluate_all]. unfold bind, ret.
    destruct (evaluate next indent this) as [[v| e|] this1]; reflexivity.
Qed.

Lemma evaluate_statement s :
  statement_node s ->
  forall indent this,
    wpe (evaluate s indent) this (fun _ _ => True) (fun e _ => is_error e).
Proof.
  assert (Hexpr : forall e, expr_node e -> forall indent this,
            wpe (evaluate e indent) this (fun _ _ => True) (fun e _ => is_error e)).
  { intros e He indent this. eapply wpe_weaken; [apply evaluate_expr; exact He | auto |].
    intros err s' [Hm _]. exact Hm. }
  assert (Hbody : forall name e indent this, expr_node e ->
            wpe (do result <- evaluate e (String.append indent tab) ;;
                 do _ <- set name result ;; ret result)
                this (fun _ _ => True) (fun e _ => is_error e)).
  { intros name e indent this He. apply wpe_bind.
    eapply wpe_weaken; [apply Hexpr; exact He | | auto]. intros v s1 _. exact I. }
  assert (Hrep : forall ty name indent this (c : E value),
            wpe c this (fun _ _ => True) (fun e _ => is_error e) ->
            wpe (do result <- c ;; do _ <- report ty name indent result ;; ret result)
                this (fun _ _ => True) (fun e _ => is_error e)).
  { intros ty name indent this c Hc. apply wpe_bind.
    eapply wpe_weaken; [exact Hc | | auto]. intros v s1 _.
    unfold wpe, bind, report, log, ret.
    destruct (String.eqb indent ""); destruct ty; exact I. }
  intros [e He | name | name e He | name e He] indent this.
  - apply Hexpr. exact He.
  - unfold wpe. simpl. unfold bind, set, ret, report, log.
    destruct (String.eqb indent ""); exact I.
  - rewrite evaluate_binding. apply Hrep. apply wpe_bind. apply wpe_ret.
    apply Hbody. exact He.
  - rewrite evaluate_binding. apply Hrep. apply wpe_bind.
    assert (Hchk : forall Q : unit -> SimpleScript.t -> Prop,
              Q tt this ->
              wpe (do known <- has name ;;
                   if known then ret tt else throw (unknown_message name))
                  this Q (fun e _ => is_error e)).
    { intros Q HQ. unfold wpe, bind, has.
      destruct (bool_decide _); [exact HQ | eexists; reflexivity]. }
    apply Hchk. apply Hbody. exact He.
Qed.

Lemma evaluate_statements indent children :
  Forall statement_node children ->
  forall result this,
    wpe (evaluate_all indent children result) this
        (fun _ _ => True) (fun e _ => is_error e).
Proof.
  induction 1 as [|c cs Hc Hcs IH]; intros result this; [exact I|].
  cbn [evaluate_all]. apply wpe_bind.
  eapply wpe_weaken; [apply evaluate_statement; exact Hc | | auto].
  intros v s1 _. apply IH.
Qed.

(** X18. Parsing a string and evaluating the tree never ends in a
    [TypeError]: the parser only hands over programs whose nodes have the
    children the evaluator reads, so every throw of the two together is an
    [Error] with a message. *)
Theorem run_script_throws_errors_only fuel script code e :
  fst (run_script fuel script code) = Throw e -> is_error e /\ e <> TypeError.
Proof.
  intros H.
  assert (He : is_error e).
  { unfold run_script in H. pose proof (parse_wp fuel code) as Hp.
    destruct (SimpleParser.parse fuel code) as [tree| err|].
    - destruct Hp as (children & -> & Hc).
      pose proof (evaluate_statements "" children Hc None script) as Hw.
      rewrite evaluate_Programm in H. unfold wpe in Hw.
      destruct (evaluate_all "" children None script) as [[v| err|] s1];
        simpl in H; try discriminate. inversion H; subst. exact Hw.
    - simpl in H. inversion H; subst. unfold parse_error in Hp. simpl in Hp.
      repeat destruct Hp as [Hp|Hp]; try (subst; eexists; reflexivity). contradiction.
    - discriminate H. }
  split; [exact He|]. destruct He as [m ->]. discriminate.
Qed.

Lemma run_script_throws_errors_only_witness :
  is_error (Error "unknown variable: b").
Proof.
  apply (run_script_throws_errors_only 7 SimpleScript.new "b;" (Error "unknown variable: b")).
  reflexivity.
Defined.

Lemma digit_facts ch :
  SimpleLexer.isDigit ch = true ->
  (digit_value ch = Some (Z.of_nat (nat_of_ascii ch - 48))
   /\ (0 <= Z.of_nat (nat_of_ascii ch - 48) <= 9)%Z)
  /\ isStrWhiteSpaceChar ch = false /\ ch <> "-"%char /\ ch <> "+"%char.
Proof.
  destruct ch as [[] [] [] [] [] [] [] []]; intros H; try discriminate H;
    (split; [split; [reflexivity | vm_compute; split; discriminate]
            | split; [reflexivity | split; discriminate]]).
Qed.

(** On a string of digits [digits] reads every character. *)
Lemma digits_of_digits s : forall acc,
  all_digits s = true ->
  digits (Some acc) s = Some (fold_left decimal_step (list_ascii_of_string s) acc).
Proof.
  induction s as [|ch s IH]; intros acc Hall; [reflexivity|].
  unfold all_digits in Hall. simpl in Hall. apply andb_true_iff in Hall as [Hd Hs].
  destruct (digit_facts ch Hd) as ((Hdv & _) & _).
  cbn [digits list_ascii_of_string fold_left]. rewrite Hdv. cbn [default].
  apply IH. exact Hs.
Qed.

Lemma decimal_bound s : forall acc,
  all_digits s = true -> (0 <= acc)%Z ->
  (acc * 10 ^ Z.of_nat (String.length s)
   <= fold_left decimal_step (list_ascii_of_string s) acc
   < (acc + 1) * 10 ^ Z.of_nat (String.length s))%Z.
Proof.
  induction s as [|ch s IH]; intros acc Hall Hacc.
  - simpl. lia.
  - unfold all_digits in Hall. simpl in Hall. apply andb_true_iff in Hall as [Hd Hs].
    destruct (digit_facts ch Hd) as ((_ & Hd9) & _).
    cbn [list_ascii_of_string fold_left String.length].
    assert (Hstep : (0 <= decimal_step acc ch)%Z) by (unfold decimal_step; lia).
    specialize (IH (decimal_step acc ch) Hs Hstep).
    rewrite Nat2Z.inj_succ, Z.pow_succ_r by lia.
    assert (Hpow : (0 < 10 ^ Z.of_nat (String.length s))%Z) by (apply Z.pow_pos_nonneg; lia).
    unfold decimal_step in *. nia.
Qed.

Lemma parseInt_of_digits s :
  all_digits s = true -> s <> "" ->
  parseInt s = Finite (decimal s)
  /\ (0 <= decimal s < 10 ^ Z.of_nat (String.length s))%Z.
Proof.
  intros Hall Hne. destruct s as [|ch s]; [contradiction|].
  split.
  - pose proof Hall as Hall'.
    unfold all_digits in Hall. simpl in Hall. apply andb_true_iff in Hall as [Hch Hs].
    destruct (digit_facts ch Hch) as ((Hdv & _) & Hws & Hm & Hp).
    unfold parseInt. cbn [trimStart]. rewrite Hws.
    assert (Hsign : (let '(negative, s0) :=
                       match String ch s with
                       | String "-" rest => (true, rest)
                       | String "+" rest => (false, rest)
                       | _ => (false, String ch s)
                       end in
                     match digits None s0 with
                     | Some n => if negative then neg (Finite n) else Finite n
                     | None => NaN
                     end)
                    = match digits None (String ch s) with
                      | Some n => Finite n
                      | None => NaN
                      end).
    { destruct ch as [[] [] [] [] [] [] [] []]; try reflexivity; congruence. }
    rewrite Hsign. cbn [digits]. rewrite Hdv. cbn [default].
    rewrite (digits_of_digits s _ Hs). reflexivity.
  - pose proof (decimal_bound (String ch s) 0%Z Hall ltac:(lia)) as Hb.
    unfold decimal. lia.
Qed.

(** X19. Every IntLiteral token of at most 15 digits that [tokenize]
    emits evaluates, as the leaf node that [primary] makes of it, to the
    number that its digits spell: an integer from 0 to [10^15 - 1], which a
    double holds exactly. On such a token [parseInt] answers neither [NaN]
    nor a negative number nor [-0]. *)
Theorem literal_tokens_are_numbers this code tk indent script :
  In tk (SimpleTokenReader.tokens (fst (SimpleLexer.tokenize this code))) ->
  SimpleToken.getType tk = TokenType.IntLiteral ->
  String.length (SimpleToken.getText tk) <= 15 ->
  fst (evaluate (leaf tk) indent script)
  = Ret (Some (Finite (decimal (SimpleToken.getText tk))))
  /\ (0 <= decimal (SimpleToken.getText tk) < 10 ^ 15)%Z
  /\ safe_integer (decimal (SimpleToken.getText tk)) = true.
Proof.
  intros Hin Hty Hlen.
  pose proof (tokenize_shapes this code) as Hs.
  rewrite List.Forall_forall in Hs. specialize (Hs tk Hin).
  unfold token_shape in Hs. rewrite Hty in Hs. apply andb_true_iff in Hs as [Hne Hall].
  destruct (parseInt_of_digits (SimpleToken.getText tk) Hall) as (Hp & Hn).
  { intros E. rewrite E in Hne. discriminate Hne. }
  assert (Hpow : (10 ^ Z.of_nat (String.length (SimpleToken.getText tk)) <= 10 ^ 15)%Z).
  { apply Z.pow_le_mono_r; lia. }
  split; [|split].
  - unfold leaf. rewrite Hty. cbn [TokenType.eqb].
    rewrite evaluate_IntLiteral, Hp. reflexivity.
  - lia.
  - unfold safe_integer. apply Z.leb_le. rewrite Z.abs_eq by lia.
    assert ((10 ^ 15 <= 2 ^ 53)%Z) by (vm_compute; discriminate). lia.
Qed.

Lemma literal_tokens_are_numbers_witness :
  fst (evaluate (leaf (SimpleToken.mk TokenType.IntLiteral "30")) "" SimpleScript.new)
  = Ret (Some (Finite 30)).
Proof.
  apply (literal_tokens_are_numbers SimpleLexer.new "int age = 30"
           (SimpleToken.mk TokenType.IntLiteral "30") "" SimpleScript.new).
  - simpl. auto.
  - reflexivity.
  - simpl. lia.
Defined.

(** X20. A string with no character that starts a token (blanks, or
    nothing at all) parses to the program without statements, whose
    evaluation returns [null], prints nothing and leaves the instance as it
    is. *)
Theorem blank_script_is_empty_program code fuel script :
  Forall (fun ch => recognized ch = false) (list_ascii_of_string code) ->
  SimpleParser.parse (S fuel) code = Ret (Node ASTNodeType.Programm "demo" [])
  /\ run_script (S fuel) script code = (Ret None, script).
Proof.
  intros Hall.
  assert (Hp : SimpleParser.parse (S fuel) code = Ret (Node ASTNodeType.Programm "demo" [])).
  { unfold SimpleParser.parse, SimpleLexer.tokenize.
    rewrite run_unrecognized; [reflexivity | reflexivity | exact Hall]. }
  split; [exact Hp|]. unfold run_script. rewrite Hp.
  rewrite evaluate_Programm. reflexivity.
Qed.

Lemma blank_script_is_empty_program_witness :
  run_script 1 SimpleScript.new "" = (Ret None, SimpleScript.new)
  /\ SimpleParser.parse 1 " @ " = Ret (Node ASTNodeType.Programm "demo" []).
Proof.
  split.
  - apply (blank_script_is_empty_program "" 0 SimpleScript.new). constructor.
  - apply (blank_script_is_empty_program " @ " 0 SimpleScript.new). repeat constructor.
Defined.
End EvaluatorMore.

(** * The dumps *)

Section Dumps.
Import SimpleParser.

Lemma dump_while_all fuel : forall r out,
  SimpleTokenReader.pos r <= length (SimpleTokenReader.tokens r) ->
  remaining r < fuel ->
  dump_while fuel out r
  = (Ret (out ++ map dump_line (ahead r))%list, skip (remaining r) r).
Proof.
  induction fuel as [|fuel IH]; intros r out Hpos Hfuel; [lia|].
  cbn [dump_while]. unfold bind.
  destruct (ahead r) as [|tk rest] eqn:Ea.
  - assert (Hend : SimpleTokenReader.pos r = length (SimpleTokenReader.tokens r)).
    { unfold ahead in Ea. apply (f_equal (@length Token)) in Ea.
      rewrite length_drop in Ea. simpl in Ea. lia. }
    unfold read, SimpleTokenReader.read.
    destruct (Nat.ltb_spec (SimpleTokenReader.pos r) (length (SimpleTokenReader.tokens r)));
      [lia|].
    unfold ret, skip, remaining. rewrite Hend, Nat.sub_diag, app_nil_r. simpl.
    destruct r; simpl in *; subst; reflexivity.
  - rewrite (read_ahead r tk rest Ea).
    assert (Hlen : length (ahead r) = remaining r)
      by (unfold ahead, remaining; apply length_drop).
    rewrite Ea in Hlen. simpl in Hlen.
    rewrite IH.
    + rewrite ahead_skip, Ea, <- app_assoc. cbn [drop]. rewrite drop_0. f_equal.
      rewrite skip_skip. f_equal. unfold remaining, skip in *. simpl. lia.
    + unfold skip, remaining in *. simpl. lia.
    + unfold skip, remaining in *. simpl. lia.
Qed.

(** X21. [SimpleLexer.dump] prints the header and then one line for
    every token from the cursor on, in order, and leaves the cursor at the
    end of the token list: the reader it was given has no token left, and
    the parser's [prog] on it returns the program without statements. One
    unit of fuel more than there are tokens left is enough. *)
Theorem dump_exhausts_the_reader fuel r :
  SimpleTokenReader.pos r <= length (SimpleTokenReader.tokens r) ->
  remaining r < fuel ->
  let r' := snd (dump fuel r) in
  fst (dump fuel r) = Ret (dump_header :: map dump_line (ahead r))
  /\ SimpleTokenReader.tokens r' = SimpleTokenReader.tokens r
  /\ SimpleTokenReader.pos r' = length (SimpleTokenReader.tokens r)
  /\ SimpleTokenReader.peek r' = None
  /\ fst (prog fuel r') = Ret (Node ASTNodeType.Programm "demo" []).
Proof.
  intros Hpos Hfuel r'. subst r'. unfold dump.
  rewrite (dump_while_all fuel r [dump_header] Hpos Hfuel). cbn [fst snd].
  assert (Hp : SimpleTokenReader.pos (skip (remaining r) r)
               = length (SimpleTokenReader.tokens r))
    by (unfold skip, remaining; simpl; lia).
  assert (Hk : SimpleTokenReader.peek (skip (remaining r) r) = None).
  { unfold SimpleTokenReader.peek. rewrite Hp. cbn [skip SimpleTokenReader.tokens].
    rewrite Nat.ltb_irrefl. reflexivity. }
  repeat split; auto.
  destruct fuel as [|fuel]; [lia|]. unfold prog. rewrite prog_while_S.
  unfold bind, peek. rewrite Hk. reflexivity.
Qed.

Lemma dump_exhausts_the_reader_witness :
  fst (dump 3 (SimpleTokenReader.new (SimpleTokenReader.tokens two_tokens)))
  = Ret [dump_header;
         String.append "a" (String.append (tabs 3) "Identifier");
         String.append ";" (String.append (tabs 3) "SemiColon")].
Proof.
  apply (dump_exhausts_the_reader 3
           (SimpleTokenReader.new (SimpleTokenReader.tokens two_tokens)));
    unfold remaining; simpl; lia.
Defined.

Lemma node_induction (P : SimpleASTNode -> Prop) :
  (forall ty text children, Forall P children -> P (Node ty text children)) ->
  forall node, P node.
Proof.
  intros H. fix IH 1. intros [ty text children]. apply H.
  induction children as [|c cs IHcs]; constructor; [apply IH | exact IHcs].
Qed.

Lemma append_assoc a b c :
  String.append (String.append a b) c = String.append a (String.append b c).
Proof.
  induction a as [|ch a IH]; [reflexivity|].
  change (String ch (String.append (String.append a b) c)
          = String ch (String.append a (String.append b c))).
  f_equal. exact IH.
Qed.

Lemma dumpAST_node ty text children indent :
  dumpAST (Node ty text children) indent
  = String.append indent (String.append (node_type_name ty) (String.append " " text))
    :: concat (map (fun child => dumpAST child (String.append indent SimpleScript.tab))
                   children).
Proof.
  cbn [dumpAST]. f_equal.
  induction children as [|c cs IH]; [reflexivity|]. rewrite IH. reflexivity.
Qed.

Lemma node_count_node ty text children :
  node_count (Node ty text children) = S (list_sum (map node_count children)).
Proof.
  cbn [node_count]. f_equal.
  induction children as [|c cs IH]; [reflexivity|]. rewrite IH. reflexivity.
Qed.

(** One line per node, and the indentation is a prefix of every line. *)
Lemma dumpAST_shift node :
  forall indent,
    length (dumpAST node indent) = node_count node
    /\ dumpAST node indent = map (String.append indent) (dumpAST node "").
Proof.
  induction node as [ty text children IH] using node_induction. intros indent.
  rewrite !dumpAST_node, node_count_node. cbn [length map]. split.
  - f_equal. induction IH as [|c cs Hc _ IHcs]; [reflexivity|].
    change (length (dumpAST c (String.append indent SimpleScript.tab)
                    ++ concat (map (fun child =>
                                      dumpAST child (String.append indent SimpleScript.tab)) cs))
            = node_count c + list_sum (map node_count cs)).
    rewrite length_app, IHcs, (proj1 (Hc _)). reflexivity.
  - f_equal. induction IH as [|c cs Hc _ IHcs]; [reflexivity|].
    cbn [map concat]. rewrite map_app, IHcs. f_equal.
    rewrite (proj2 (Hc (String.append indent SimpleScript.tab))).
    rewrite (proj2 (Hc (String.append "" SimpleScript.tab))).
    rewrite map_map. apply map_ext. intros line. cbn [String.append].
    apply append_assoc.
Qed.

(** X22. [dumpAST] prints the line of the node first, its indentation,
    type and text, and after it the lines of its children, child by child
    in the order of [getChildren], each child's lines being its own dump
    moved one tab further to the right than the node. That makes one line
    per node, and the lines for a tree at an indentation are the lines at
    the empty indentation, each with the indentation in front. *)
Theorem dumpAST_lines node indent :
  dumpAST node indent
  = String.append indent
      (String.append (node_type_name (ASTNode.getType node))
         (String.append " " (ASTNode.getText node)))
    :: concat (map (fun child =>
                      map (String.append (String.append indent SimpleScript.tab))
                          (dumpAST child ""))
                   (ASTNode.getChildren node))
  /\ length (dumpAST node indent) = node_count node
  /\ dumpAST node indent = map (String.append indent) (dumpAST node "").
Proof.
  split; [|apply dumpAST_shift].
  destruct node as [ty text children]. rewrite dumpAST_node.
  cbn [ASTNode.getType ASTNode.getText ASTNode.getChildren]. f_equal. f_equal.
  apply map_ext. intros child. apply dumpAST_shift.
Qed.
End Dumps.

(** * The calculator of Demo02 and the parser of Demo03 *)

Section Calculator.
Import SimpleParser.

Lemma calc_additive_S fuel :
  SimpleCalculator.additive (S fuel) =
  (do child1 <- SimpleCalculator.multiplicative fuel ;;
   SimpleCalculator.additive_while fuel child1).
Proof. reflexivity. Qed.

Lemma calc_additive_while_S fuel child1 :
  SimpleCalculator.additive_while (S fuel) child1 =
  (do token <- peek ;;
   if is_type token TokenType.Plus || is_type token TokenType.Minus then
     do token <- read ;;
     do child2 <- SimpleCalculator.multiplicative fuel ;;
     do op <- text_of token ;;
     SimpleCalculator.additive_while fuel
       (ASTNode.addChild
          (ASTNode.addChild (ASTNode.new ASTNodeType.Additive op) child1) child2)
   else ret child1).
Proof. reflexivity. Qed.

Lemma calc_multiplicative_S fuel :
  SimpleCalculator.multiplicative (S fuel) =
  (do child1 <- SimpleCalculator.primary fuel ;;
   do token <- peek ;;
   if is_type token TokenType.Star || is_type token TokenType.Slash then
     do opToken <- read ;;
     do child2 <- SimpleCalculator.multiplicative fuel ;;
     do op <- text_of opToken ;;
     ret (ASTNode.addChild
            (ASTNode.addChild (ASTNode.new ASTNodeType.Multiplicative op) child1) child2)
   else ret child1).
Proof. reflexivity. Qed.

Lemma calc_primary_S fuel :
  SimpleCalculator.primary (S fuel) =
  (do token <- peek ;;
   do node <-
     (if is_type token TokenType.IntLiteral then
        do token <- read ;;
        do tx <- text_of token ;;
        ret (Some (ASTNode.new ASTNodeType.IntLiteral tx))
      else if is_type token TokenType.Identifier then
        do token <- read ;;
        do tx <- text_of token ;;
        ret (Some (ASTNode.new ASTNodeType.Identifier tx))
      else if is_type token TokenType.LeftParen then
        do _ <- read ;;
        do node <- SimpleCalculator.additive fuel ;;
        do token <- peek ;;
        if is_type token TokenType.RightParen then
          do _ <- read ;; ret (Some node)
        else throw (Error "expecting right parenthesis")
      else ret None) ;;
   match node with
   | Some node => ret node
   | None => throw (Error "primary expression expected")
   end).
Proof. reflexivity. Qed.

Ltac refine_step :=
  repeat first
    [ apply refines_refl
    | match goal with IH : _ |- _ => apply IH end
    | apply refines_bind; [| intros ? ?]
    | match goal with
      | |- refines ((if ?c then _ else _) _) _ => destruct c
      | |- refines ((match ?c with _ => _ end) _) _ => destruct c
      end ].

Lemma calculator_fuel_S fuel :
  (forall r, refines (SimpleCalculator.additive fuel r) (SimpleCalculator.additive (S fuel) r))
  /\ (forall c r, refines (SimpleCalculator.additive_while fuel c r)
                    (SimpleCalculator.additive_while (S fuel) c r))
  /\ (forall r, refines (SimpleCalculator.multiplicative fuel r)
                  (SimpleCalculator.multiplicative (S fuel) r))
  /\ (forall r, refines (SimpleCalculator.primary fuel r) (SimpleCalculator.primary (S fuel) r)).
Proof.
  induction fuel as [|n (IHa & IHaw & IHm & IHp)].
  - repeat split; intros; left; reflexivity.
  - split; [|split; [|split]]; intros.
    + rewrite (calc_additive_S n), (calc_additive_S (S n)). refine_step.
    + rewrite (calc_additive_while_S n), (calc_additive_while_S (S n)). refine_step.
    + rewrite (calc_multiplicative_S n), (calc_multiplicative_S (S n)). refine_step.
    + rewrite (calc_primary_S n), (calc_primary_S (S n)). refine_step.
Qed.

Lemma refines_bind_at {S A B} (c c' : M S A) (k k' : A -> M S B) s :
  refines (c s) (c' s) ->
  (forall a s1, c s = (Ret a, s1) -> refines (k a s1) (k' a s1)) ->
  refines (bind c k s) (bind c' k' s).
Proof.
  intros [H|H] Hk; unfold bind.
  - left. destruct (c s) as [[a| |] s1]; simpl in H; try discriminate. reflexivity.
  - rewrite <- H. destruct (c s) as [[a| |] s1];
      [apply Hk; reflexivity | right; reflexivity | left; reflexivity].
Qed.

(** The loop of the script parser's [multiplicative] stops after the
    recursive call, which has taken every [*] and [/]. *)
Lemma multiplicative_while_stops fuel node r :
  no_mul_op (SimpleTokenReader.peek r) ->
  refines (multiplicative_while fuel node r) (ret node r).
Proof.
  intros Hno. destruct fuel as [|n]; [left; reflexivity|].
  right. rewrite multiplicative_while_S. unfold bind, peek.
  unfold no_mul_op in Hno. rewrite Hno. reflexivity.
Qed.

Lemma calculator_simulates fuel :
  (forall r, refines (additive fuel r) (SimpleCalculator.additive fuel r))
  /\ (forall c r, refines (additive_while fuel c r) (SimpleCalculator.additive_while fuel c r))
  /\ (forall r, refines (multiplicative fuel r) (SimpleCalculator.multiplicative fuel r))
  /\ (forall r, refines (primary fuel r) (SimpleCalculator.primary fuel r)).
Proof.
  induction fuel as [|n (IHa & IHaw & IHm & IHp)].
  - repeat split; intros; left; reflexivity.
  - split; [|split; [|split]]; intros.
    + rewrite additive_S, calc_additive_S. refine_step.
    + rewrite additive_while_S, calc_additive_while_S. refine_step.
    + rewrite multiplicative_S, calc_multiplicative_S.
      apply refines_bind; [apply IHp|]. intros child1 r1.
      destruct n as [|m]; [left; reflexivity|].
      rewrite multiplicative_while_S.
      apply refines_bind; [apply refines_refl|]. intros token r2.
      destruct (_ || _); [|apply refines_refl].
      apply refines_bind; [apply refines_refl|]. intros opToken r3.
      apply refines_bind_at.
      { eapply refines_trans; [apply (expression_fuel_S m) | apply IHm]. }
      intros child2 r4 Hret.
      apply refines_bind_at; [apply refines_refl|]. intros op r5 Hop.
      apply text_of_Ret in Hop. subst r5.
      apply multiplicative_while_stops.
      destruct (expression_rules_munch m) as (_ & _ & Hm & _).
      apply (Hm _ _ _ Hret).
    + rewrite primary_S, calc_primary_S. refine_step.
Qed.

(** X24. The calculator of Demo02 and the parser of Demo03 parse the same
    expressions: on every reader on which the parser's [additive] or
    [multiplicative] returns a tree or throws, the calculator's rule of the
    same name returns that tree, with the cursor at the same place, or
    throws the same error. The [while] loop around the recursive call in
    the parser's [multiplicative] adds nothing to the calculator's [if]. *)
Theorem calculator_parses_like_the_parser fuel r :
  (fst (additive fuel r) <> OutOfFuel ->
   SimpleCalculator.additive fuel r = additive fuel r)
  /\ (fst (multiplicative fuel r) <> OutOfFuel ->
      SimpleCalculator.multiplicative fuel r = multiplicative fuel r).
Proof.
  destruct (calculator_simulates fuel) as (Ha & _ & Hm & _).
  split; intros Hne; [destruct (Ha r) as [H|H] | destruct (Hm r) as [H|H]];
    try contradiction; symmetry; exact H.
Qed.

Lemma calculator_parses_like_the_parser_witness :
  SimpleCalculator.multiplicative 9 eight_four_two = multiplicative 9 eight_four_two.
Proof.
  apply (calculator_parses_like_the_parser 9 eight_four_two). discriminate.
Defined.

Lemma calculator_fuel n m :
  n <= m -> forall r, refines (SimpleCalculator.additive n r) (SimpleCalculator.additive m r).
Proof.
  intros Hle r. apply (refines_le SimpleCalculator.additive); [|exact Hle].
  intros k s. apply (calculator_fuel_S k).
Qed.

(** X25. The calculator's [parse] ends on every string, three units of
    fuel per token and three more being enough, and reads one expression:
    its outcome is a [Programm] node named ["Calculator"] over the one tree
    that the parser's [additive] returns on the tokens of the string, or the
    error that [additive] throws. Tokens after that expression are not
    looked at. *)
Theorem calculator_parse_is_one_expression (code : string) :
  let tokens := fst (SimpleLexer.tokenize SimpleLexer.new code) in
  let enough := 3 * length (SimpleTokenReader.tokens tokens) + 3 in
  (forall fuel, enough <= fuel ->
     SimpleCalculator.parse fuel code = SimpleCalculator.parse enough code)
  /\ match additive enough tokens with
     | (Ret child, _) =>
         SimpleCalculator.parse enough code
         = Ret (Node ASTNodeType.Programm "Calculator" [child])
     | (Throw e, _) => SimpleCalculator.parse enough code = Throw e
     | (OutOfFuel, _) => False
     end.
Proof.
  intros tokens enough.
  assert (Hr : remaining tokens <= length (SimpleTokenReader.tokens tokens))
    by (unfold remaining; lia).
  pose proof (additive_terminates _ tokens Hr) as Hpost. fold enough in Hpost.
  destruct (calculator_simulates enough) as (Ha & _). specialize (Ha tokens).
  assert (Hne : fst (additive enough tokens) <> OutOfFuel).
  { unfold post in Hpost. destruct (additive enough tokens) as [[x| |] r'];
      simpl; [discriminate | discriminate | contradiction]. }
  destruct Ha as [Ha|Ha]; [contradiction|].
  split.
  - intros fuel Hle. unfold SimpleCalculator.parse, SimpleCalculator.prog. fold tokens.
    destruct (calculator_fuel enough fuel Hle tokens) as [H|H].
    + rewrite <- Ha in H. contradiction.
    + unfold bind. rewrite H. reflexivity.
  - unfold SimpleCalculator.parse, SimpleCalculator.prog. fold tokens.
    unfold bind. rewrite <- Ha.
    destruct (additive enough tokens) as [[x| |] r']; simpl in *;
      [reflexivity | reflexivity | contradiction].
Qed.

Lemma calculator_parse_is_one_expression_witness :
  SimpleCalculator.parse 100 "2+3 4 5"
  = Ret (Node ASTNodeType.Programm "Calculator"
           [Node ASTNodeType.Additive "+"
              [Node ASTNodeType.IntLiteral "2" []; Node ASTNodeType.IntLiteral "3" []]]).
Proof.
  destruct (calculator_parse_is_one_expression "2+3 4 5") as [H _].
  rewrite (H 100); [reflexivity | simpl; lia].
Defined.

(** X26. The calculator's [intDeclare] accepts the declarations that the
    parser's [intDeclare] accepts, with the same tree and the same tokens
    consumed, and throws the same errors; where the parser's rule returns
    [null], on anything that does not start with [int], the calculator's
    throws ["int declaration expected"]. *)
Theorem calculator_intDeclare_throws_for_null fuel r :
  match intDeclare fuel r with
  | (Ret (Some node), r') => SimpleCalculator.intDeclare fuel r = (Ret node, r')
  | (Ret None, r') =>
      SimpleCalculator.intDeclare fuel r
      = (Throw (Error "int declaration expected"), r')
      /\ is_type (SimpleTokenReader.peek r) TokenType.Int = false
  | (Throw e, r') => SimpleCalculator.intDeclare fuel r = (Throw e, r')
  | (OutOfFuel, _) => True
  end.
Proof.
  destruct (calculator_simulates fuel) as (Ha & _).
  cbv beta iota zeta delta [SimpleCalculator.intDeclare intDeclare bind peek read ret throw text_of].
  repeat (match goal with
    | |- context [if ?c then _ else _] => destruct c eqn:?
    | |- context [SimpleTokenReader.read ?r] => destruct (SimpleTokenReader.read r) as [? ?]
    | |- context [match ?t with Some _ => _ | None => _ end] => destruct t
    | |- context [additive fuel ?r] =>
        destruct (Ha r) as [H|H];
        [ destruct (additive fuel r) as [[?| |] ?]; simpl in H; try discriminate
        | rewrite <- H; destruct (additive fuel r) as [[?| |] ?] ]
    end; cbv beta iota zeta);
  try exact I; try reflexivity; try (split; reflexivity).
Qed.
End Calculator.
